(** * Spateo alignment core: mask refinement and slice-stack reconstruction

    Shallow embedding of
    - [spateo/preprocessing/segmentation/align.py]
      ([AlignmentRefiner], its two variants and [refine_alignment]), and
    - [spateo/tools/three_D_reconstruction.py]
      ([pairwise_align1], [pairwise_align2] and [slice_alignment]).

    Floating-point numbers are modelled by exact rationals ([Qc]) extended
    with the IEEE special values that numpy and torch produce instead of
    raising (division by zero gives [inf] or [nan]).  Calls into numpy,
    torch, POT and kornia whose result is not a rational function of the
    input (square root, logarithm, SVD, the transport solver, resampling,
    automatic differentiation, the float arithmetic of the loss) are
    Section variables, and so is the table of Unicode decimal digits. *)

From Stdlib Require Import QArith Qcanon ZArith Lia List Ascii String.
From Stdlib Require Import Decimal DecimalFacts DecimalNat DecimalString.
From stdpp Require Import gmap strings list fin_maps.

Local Open Scope Qc_scope.

(* ===================================================================== *)
(** ** Numbers *)
(* ===================================================================== *)

Module Numeric.

(** A python [int] count seen as a float. *)
Definition natQc (n : nat) : Qc := Q2Qc (inject_Z (Z.of_nat n)).

(** float64 values: a finite number, a signed infinity ([true] is the
    negative one) or not-a-number. *)
Inductive npfloat : Type :=
| Fin (q : Qc)
| Inf (negative : bool)
| NaN.

Definition Qc_neg (q : Qc) : bool := bool_decide (q < 0).

(** [a / b] on floats: numpy warns on a zero divisor and returns
    [inf] or [nan]; it does not raise. *)
Definition np_divide (a b : npfloat) : npfloat :=
  match a, b with
  | NaN, _ | _, NaN => NaN
  | Fin x, Fin y =>
      if bool_decide (y = 0)
      then (if bool_decide (x = 0) then NaN else Inf (Qc_neg x))
      else Fin (x / y)
  | Fin _, Inf _ => Fin 0
  | Inf s, Fin y => Inf (xorb s (Qc_neg y))
  | Inf _, Inf _ => NaN
  end.

Definition np_add (a b : npfloat) : npfloat :=
  match a, b with
  | NaN, _ | _, NaN => NaN
  | Fin x, Fin y => Fin (x + y)
  | Fin _, Inf s | Inf s, Fin _ => Inf s
  | Inf s, Inf t => if Bool.eqb s t then Inf s else NaN
  end.

Definition np_neg (a : npfloat) : npfloat :=
  match a with
  | Fin x => Fin (- x)
  | Inf s => Inf (negb s)
  | NaN => NaN
  end.

Definition np_sub (a b : npfloat) : npfloat := np_add a (np_neg b).

Definition np_mul (a b : npfloat) : npfloat :=
  match a, b with
  | NaN, _ | _, NaN => NaN
  | Fin x, Fin y => Fin (x * y)
  | Fin x, Inf s | Inf s, Fin x =>
      if bool_decide (x = 0) then NaN else Inf (xorb s (Qc_neg x))
  | Inf s, Inf t => Inf (xorb s t)
  end.

(** [x > y] on floats; every comparison with [nan] is false. *)
Definition np_gt (a b : npfloat) : bool :=
  match a, b with
  | NaN, _ | _, NaN => false
  | Fin x, Fin y => bool_decide (y < x)
  | Fin _, Inf s => s
  | Inf s, Fin _ => negb s
  | Inf s, Inf t => negb s && t
  end.

Definition np_of_nat (n : nat) : npfloat := Fin (natQc n).
Definition np_of_bool (b : bool) : npfloat := Fin (if b then 1 else 0).

(** [.sum()] of a flat float array. *)
Definition np_sum (l : list npfloat) : npfloat := foldr np_add (Fin 0) l.

Definition is_finite (a : npfloat) : bool :=
  match a with Fin _ => true | _ => false end.

End Numeric.
Export Numeric.

(* ===================================================================== *)
(** ** Arrays and errors *)
(* ===================================================================== *)

(** The element types the code distinguishes: [bool] against the rest. *)
Inductive dtype : Type := DBool | DInt | DFloat.

Global Instance dtype_eq_dec : EqDecision dtype.
Proof. solve_decision. Defined.

(** A two-dimensional [np.ndarray], row-major, tagged by its dtype; an
    array without rows is the 0 x 0 array. *)
Inductive ndarray : Type :=
| BoolArr (d : list (list bool))
| IntArr (d : list (list Z))
| FloatArr (d : list (list npfloat)).

Definition arr_dtype (a : ndarray) : dtype :=
  match a with
  | BoolArr _ => DBool
  | IntArr _ => DInt
  | FloatArr _ => DFloat
  end.

(** [a.size] *)
Definition arr_size {A} (d : list (list A)) : nat := length (concat d).

(** [a.shape[0]] and [a.shape[1]] *)
Definition shape0 {A} (d : list (list A)) : nat := length d.
Definition shape1 {A} (d : list (list A)) : nat :=
  match d with [] => 0%nat | r :: _ => length r end.

(** Cell [(i, j)] of a two-dimensional array. *)
Definition cell {A} (d : list (list A)) (i j : nat) : option A :=
  d !! i ≫= (fun row => row !! j).

(** [a.sum()] of a boolean array: the number of [True] entries. *)
Definition count_true (d : list (list bool)) : nat :=
  length (filter (fun b => b = true) (concat d)).

(** [(~a).sum()] *)
Definition count_false (d : list (list bool)) : nat :=
  length (filter (fun b => b = false) (concat d)).

(** [torch.tensor(a).float()] *)
Definition to_float (a : ndarray) : list (list npfloat) :=
  match a with
  | BoolArr d => map (map np_of_bool) d
  | IntArr d => map (map (fun z => Fin (Q2Qc (inject_Z z)))) d
  | FloatArr d => d
  end.

Inductive error : Type :=
| PreprocessingError (msg : string)
| KeyError (key : string)
| IndexError
| ZeroDivisionError
| RuntimeError
| TypeError
| NotImplementedError
| ValueError
| LibraryError.

Inductive result (A : Type) : Type :=
| Ok (a : A)
| Raise (e : error).
Arguments Ok {A} a.
Arguments Raise {A} e.

Global Instance result_ret : MRet result := fun A a => Ok a.
Global Instance result_bind : MBind result := fun A B k m =>
  match m with
  | Ok a => k a
  | Raise e => Raise e
  end.

Definition is_PreprocessingError {A} (r : result A) : Prop :=
  match r with
  | Raise (PreprocessingError _) => True
  | _ => False
  end.

(** The outcome of a call into torch or kornia that may raise an exception
    of the library ([None]), seen from the caller. *)
Definition library {A} (r : option A) : result A :=
  match r with
  | Some a => Ok a
  | None => Raise LibraryError
  end.

(** [k] applications of a step that may raise. *)
Fixpoint iterate {A} (k : nat) (f : A -> result A) (x : A) : result A :=
  match k with
  | O => Ok x
  | S k' => y ← f x; iterate k' f y
  end.

(* ===================================================================== *)
(** ** align.py: the gradient alignment refiner *)
(* ===================================================================== *)

Module Refiner.

(** The learnable state of the two variants, as [get_params] returns it:
    [dict(theta=...)] or [dict(src_points=..., displacement=...)]. *)
Inductive params : Type :=
| RigidParams (theta : list (list npfloat))
| NonRigidParams (src_points displacement : list (npfloat * npfloat)).

(** [np.where(reference, size / (2 * reference.sum()),
                         size / (2 * (~reference).sum()))]:
    both scalars are evaluated before the selection. *)
Definition weight_map (reference : list (list bool)) : list (list npfloat) :=
  let w_true :=
    np_divide (np_of_nat (arr_size reference))
              (np_of_nat (2 * count_true reference)) in
  let w_false :=
    np_divide (np_of_nat (arr_size reference))
              (np_of_nat (2 * count_false reference)) in
  map (map (fun b : bool => if b then w_true else w_false)) reference.

(** [weight[reference].sum()] for [cls = true] and
    [weight[~reference].sum()] for [cls = false]. *)
Definition class_sum (cls : bool) (reference : list (list bool))
    (w : list (list npfloat)) : npfloat :=
  np_sum (map snd (filter (fun bw => fst bw = cls)
                     (zip (concat reference) (concat w)))).

(** The truth value [np.where] and [~] see in each cell. *)
Definition truth (a : ndarray) : list (list bool) :=
  match a with
  | BoolArr d => d
  | IntArr d => map (map (fun z => negb (Z.eqb z 0))) d
  | FloatArr d =>
      map (map (fun x => match x with
                         | Fin q => negb (bool_decide (q = 0))
                         | _ => true
                         end)) d
  end.

(** The float arithmetic of torch on the entries of a tensor: [a - b],
    [a ** 2], [a * b], [torch.sum] of the entries in row-major order and
    [a / n] for a python int [n].  Rounding, overflow and underflow are
    the library's; nothing is assumed about them. *)
Record torch_arith : Type := {
  t_sub : npfloat -> npfloat -> npfloat;
  t_square : npfloat -> npfloat;
  t_mul : npfloat -> npfloat -> npfloat;
  t_sum : list npfloat -> npfloat;
  t_div_int : npfloat -> nat -> npfloat
}.

(** The common size of two axes under broadcasting: equal sizes, or one of
    them 1. *)
Definition broadcast_dim (a b : nat) : option nat :=
  if bool_decide (a = b) then Some a
  else if bool_decide (a = 1%nat) then Some b
  else if bool_decide (b = 1%nat) then Some a
  else None.

(** Entry [(i, j)] of a tensor stretched along its axes of size 1. *)
Definition stretched (t : list (list npfloat)) (i j : nat) : npfloat :=
  let i' := if bool_decide (shape0 t = 1%nat) then 0%nat else i in
  let j' := if bool_decide (shape1 t = 1%nat) then 0%nat else j in
  default NaN (cell t i' j').

(** An elementwise operation on two tensors, on their last two axes (the
    leading axes of the tensors here have size 1); torch raises
    [RuntimeError] when the shapes cannot be broadcast. *)
Definition broadcast2 (f : npfloat -> npfloat -> npfloat)
    (a b : list (list npfloat)) : result (list (list npfloat)) :=
  match broadcast_dim (shape0 a) (shape0 b),
        broadcast_dim (shape1 a) (shape1 b) with
  | Some h, Some w =>
      Ok (map (fun i =>
                 map (fun j => f (stretched a i j) (stretched b i j))
                     (seq 0 w))
              (seq 0 h))
  | _, _ => Raise RuntimeError
  end.

(** [.squeeze()] of a 1 x 1 x H x W tensor, given by its last two axes as
    broadcasting aligns them: the axes of size 1 are dropped, so a column
    of H <> 1 values becomes the row of these values. *)
Definition squeeze (t : list (list npfloat)) : list (list npfloat) :=
  if bool_decide (shape1 t = 1%nat /\ shape0 t <> 1%nat)
  then [concat t]
  else t.

Section Torch.

(** [torch.optim.Adam]: its state, construction and one [step]. *)
Variable OptState : Type.
Variable Grad : Type.
Variable adam_new : params -> OptState.
Variable adam_step : OptState -> params -> Grad -> OptState * params.
(** [loss.backward()]: the gradient, at the current parameters, of the loss
    seen as a function of the parameters. *)
Variable autograd : (params -> result npfloat) -> params -> Grad.
(** The resampling of the static [transform] methods ([F.affine_grid] and
    [F.grid_sample], or kornia's thin-plate spline), on H x W content;
    [None] when the library raises (kornia's solver on a singular
    thin-plate system, for instance). *)
Variable warp : params -> list (list npfloat) -> option (list (list npfloat)).
(** The float arithmetic of the loss. *)
Variable arith : torch_arith.

(** The attributes [AlignmentRefiner.__init__] sets on [self]. *)
Record AlignmentRefiner : Type := {
  reference : list (list npfloat);
  to_align : list (list npfloat);
  weight : list (list npfloat);
  optimizer_slot : option OptState;
  history : gmap string (list npfloat)
}.

(** A variant instance: the base attributes and the [nn.Parameter]. *)
Record refiner : Type := {
  base : AlignmentRefiner;
  parameters : params
}.

Definition only_bool_msg : string :=
  "`AlignmentRefiner` only supports boolean arrays.".

(** [AlignmentRefiner.__init__].  The first component lists the attributes
    assigned to [self], in order, up to the point where the constructor
    returned or raised. *)
Definition AlignmentRefiner_init (reference to_align : ndarray)
  : list string * result AlignmentRefiner :=
  if bool_decide (arr_dtype reference <> DBool \/ arr_dtype to_align <> DBool)
  then ([], Raise (PreprocessingError only_bool_msg))
  else
    (["reference"; "to_align"; "weight"; "_AlignmentRefiner__optimizer";
      "history"],
     Ok {| reference := to_float reference;
           to_align := to_float to_align;
           weight := weight_map (truth reference);
           optimizer_slot := None;
           history := ∅ |}).

(** [math.ceil(a / b)] for [b <> 0]. *)
Definition ceil_div (a b : Z) : Z := (- ((- a) / b))%Z.

(** [torch.linspace(-1, 1, steps)] *)
Definition linspace_m1_1 (steps : nat) : list npfloat :=
  match steps with
  | 0%nat => []
  | 1%nat => [Fin (-1)]
  | _ => map (fun i => Fin (-1 + natQc i * 2 / natQc (steps - 1)))
             (seq 0 steps)
  end.

(** [torch.cartesian_prod] *)
Definition cartesian_prod {A B} (xs : list A) (ys : list B) : list (A * B) :=
  flat_map (fun x => map (fun y => (x, y)) ys) xs.

Definition linspace_steps (extent : nat) (binsize : Z) : result nat :=
  if bool_decide (binsize = 0%Z) then Raise ZeroDivisionError
  else
    let n := ceil_div (Z.of_nat extent) binsize in
    if bool_decide (n < 0)%Z then Raise RuntimeError else Ok (Z.to_nat n).

(** [NonRigidAlignmentRefiner.__init__] *)
Definition NonRigidAlignmentRefiner_init
    (reference to_align : ndarray) (binsize : Z)
  : list string * result refiner :=
  match AlignmentRefiner_init reference to_align with
  | (attrs, Raise e) => (attrs, Raise e)
  | (attrs, Ok b) =>
      match linspace_steps (shape1 (truth to_align)) binsize with
      | Raise e => (attrs, Raise e)
      | Ok nx =>
          match linspace_steps (shape0 (truth to_align)) binsize with
          | Raise e => (attrs, Raise e)
          | Ok ny =>
              let src :=
                cartesian_prod (linspace_m1_1 nx) (linspace_m1_1 ny) in
              (attrs ++ ["src_points"; "displacement"],
               Ok {| base := b;
                     parameters :=
                       NonRigidParams src
                         (map (fun _ => (Fin 0, Fin 0)) src) |})
          end
      end
  end.

Definition identity_theta : list (list npfloat) :=
  [[Fin 1; Fin 0; Fin 0]; [Fin 0; Fin 1; Fin 0]].

(** [RigidAlignmentRefiner.__init__] *)
Definition RigidAlignmentRefiner_init
    (reference to_align : ndarray) (theta : option (list (list npfloat)))
  : list string * result refiner :=
  match AlignmentRefiner_init reference to_align with
  | (attrs, Raise e) => (attrs, Raise e)
  | (attrs, Ok b) =>
      (attrs ++ ["reference"; "to_align"; "theta"],
       Ok {| base := {| reference := to_float reference;
                        to_align := to_float to_align;
                        weight := weight b;
                        optimizer_slot := optimizer_slot b;
                        history := history b |};
             parameters :=
               RigidParams (match theta with
                            | Some t => t
                            | None => identity_theta
                            end) |})
  end.

(** [loss]: [torch.sum(weight * (pred - reference) ** 2) / weight.numel()].
    The prediction is broadcast against the reference, and the weight
    against their difference. *)
Definition loss (b : AlignmentRefiner) (pred : list (list npfloat))
  : result npfloat :=
  diff ← broadcast2 (t_sub arith) pred (reference b);
  weighted ← broadcast2 (t_mul arith) (weight b)
               (map (map (t_square arith)) diff);
  Ok (t_div_int arith (t_sum arith (concat weighted)) (arr_size (weight b))).

(** [optimizer]: created on first use, then reused. *)
Definition optimizer (r : refiner) : OptState * refiner :=
  match optimizer_slot (base r) with
  | Some o => (o, r)
  | None =>
      let o := adam_new (parameters r) in
      (o, {| base := {| reference := reference (base r);
                        to_align := to_align (base r);
                        weight := weight (base r);
                        optimizer_slot := Some o;
                        history := history (base r) |};
             parameters := parameters r |})
  end.

(** [transform(to_align, params, train=True)]: the resampled moving image
    as it meets the reference in [loss].  The non-rigid variant squeezes
    its result, the rigid one does not. *)
Definition predict (b : AlignmentRefiner) (p : params)
  : result (list (list npfloat)) :=
  t ← library (warp p (to_align b));
  Ok (match p with
      | RigidParams _ => t
      | NonRigidParams _ _ => squeeze t
      end).

(** [forward]: [transform(self.to_align, self.get_params(True), train=True)] *)
Definition forward (r : refiner) : result (list (list npfloat)) :=
  predict (base r) (parameters r).

(** The calls one epoch makes, in program order. *)
Inductive call : Type :=
| CallForward
| CallLoss
| CallHistoryAppend (value : npfloat)
| CallZeroGrad
| CallBackward
| CallStep.

(** The calls of one epoch whose loss value is [l]: [self()],
    [self.loss(pred)], the append to the history, [optimizer.zero_grad()],
    [loss.backward()] and [optimizer.step()]. *)
Definition epoch_calls (l : npfloat) : list call :=
  [CallForward; CallLoss; CallHistoryAppend l;
   CallZeroGrad; CallBackward; CallStep].

(** The recorded losses of a refiner: [history.get("loss", [])]. *)
Definition loss_history (r : refiner) : list npfloat :=
  default [] (history (base r) !! "loss"%string).

(** [self.history.setdefault("loss", []).append(x)] *)
Definition history_append (h : gmap string (list npfloat)) (x : npfloat)
  : gmap string (list npfloat) :=
  <["loss" := default [] (h !! "loss") ++ [x]]> h.

(** The body of the [for] loop of [train]: the refiner and the optimizer
    after the epoch, and the calls made.  An exception of the forward pass
    or of the loss ends the epoch, and with it the call of [train]. *)
Definition epoch (st : refiner * OptState)
  : result ((refiner * OptState) * list call) :=
  let '(r, o) := st in
  pred ← forward r;
  l ← loss (base r) pred;
  let h := history_append (history (base r)) l in
  let g := autograd (fun p => pred ← predict (base r) p; loss (base r) pred)
                    (parameters r) in
  let '(o', p') := adam_step o (parameters r) g in
  Ok (({| base := {| reference := reference (base r);
                     to_align := to_align (base r);
                     weight := weight (base r);
                     optimizer_slot := Some o';
                     history := h |};
          parameters := p' |}, o'),
      epoch_calls l).

Fixpoint epochs (n : nat) (st : refiner * OptState)
  : result ((refiner * OptState) * list call) :=
  match n with
  | O => Ok (st, [])
  | S k =>
      '(st1, c1) ← epoch st;
      '(st2, c2) ← epochs k st1;
      Ok (st2, c1 ++ c2)
  end.

(** [train]: [for i in range(n_epochs)]; a negative count gives an empty
    range. *)
Definition train (n_epochs : Z) (r : refiner) : result (refiner * list call) :=
  let '(o, r0) := optimizer r in
  '((r', _), calls) ← epochs (Z.to_nat n_epochs) (r0, o);
  Ok (r', calls).

(** *** The training loop in the words of the design *)

(** The loss of an epoch that starts at parameters [p]: one forward pass
    and one loss evaluation. *)
Definition epoch_loss (b : AlignmentRefiner) (p : params) : result npfloat :=
  pred ← predict b p;
  loss b pred.

(** One gradient-based update: the optimizer steps along the gradient of
    that loss at the current parameters. *)
Definition update (b : AlignmentRefiner) (op : OptState * params)
  : OptState * params :=
  adam_step (fst op) (snd op) (autograd (epoch_loss b) (snd op)).

(** The optimizer state and the parameters after [k] updates. *)
Definition after_updates (b : AlignmentRefiner) (k : nat)
    (op : OptState * params) : OptState * params :=
  Nat.iter k (update b) op.

(** [get_params()] with [train=False]: the detached parameters. *)
Definition get_params (r : refiner) : params := parameters r.

(** The static [transform] with [train=False], on a data layer.  The
    rigid variant returns its result with the two leading unit axes of the
    tensor (the non-rigid one squeezes them); the model keeps the H x W
    content only. *)
Definition transform (data : ndarray) (p : params)
  : result (list (list npfloat)) :=
  library (warp p (to_float data)).

(** *** The refinement driver *)

(** The part of an [AnnData] the driver reads and writes: the named layers
    and the spatial metadata of [adata.uns]. *)
Record AnnData : Type := {
  layers : gmap string ndarray;
  uns_spatial : gmap string params
}.

(** Modelled from the spec: [SKM.UNS_SPATIAL_ALIGNMENT_KEY], the fixed
    metadata slot of the alignment parameters (the constant is declared in
    the configuration module). *)
Variable UNS_SPATIAL_ALIGNMENT_KEY : string.

(** Modelled from the spec: [SKM.gen_new_layer_key(name, SKM.MASK_SUFFIX)],
    the name [<name>_mask] of the precomputed mask of a layer. *)
Definition gen_new_layer_key_mask (name : string) : string :=
  (name ++ "_mask")%string.

(** Modelled from the spec: [SKM.select_layer_data], the lookup of a named
    layer; python raises [KeyError] on a missing one. *)
Definition select_layer_data (adata : AnnData) (layer : string)
  : result ndarray :=
  match layers adata !! layer with
  | Some d => Ok d
  | None => Raise (KeyError layer)
  end.

(** Modelled from the spec: [SKM.set_layer_data], which overwrites the
    named layer in place. *)
Definition set_layer_data (adata : AnnData) (layer : string) (v : ndarray)
  : AnnData :=
  {| layers := <[layer := v]> (layers adata);
     uns_spatial := uns_spatial adata |}.

(** Modelled from the spec: [SKM.set_uns_spatial_attribute], which stores a
    value in a slot of the dataset-level spatial metadata. *)
Definition set_uns_spatial_attribute (adata : AnnData) (key : string)
    (v : params) : AnnData :=
  {| layers := layers adata;
     uns_spatial := <[key := v]> (uns_spatial adata) |}.

(** [**kwargs], forwarded to the constructor of the selected module. *)
Record kwargs : Type := {
  kw_theta : option (list (list npfloat));
  kw_binsize : option Z
}.

(** [MODULES[mode](rna_mask, stain_mask, **kwargs)]; a keyword the selected
    constructor does not take is a [TypeError]. *)
Definition construct (mode : string) (reference to_align : ndarray)
    (kw : kwargs) : result refiner :=
  if bool_decide (mode = "rigid")
  then match kw_binsize kw with
       | Some _ => Raise TypeError
       | None => snd (RigidAlignmentRefiner_init reference to_align
                        (kw_theta kw))
       end
  else match kw_theta kw with
       | Some _ => Raise TypeError
       | None => snd (NonRigidAlignmentRefiner_init reference to_align
                        (default 1000%Z (kw_binsize kw)))
       end.

(** [<name>_mask] when that layer exists, else the literal name. *)
Definition resolve_layer (adata : AnnData) (name : string) : string :=
  if bool_decide (is_Some (layers adata !! gen_new_layer_key_mask name))
  then gen_new_layer_key_mask name
  else name.

(** [transformed > 0.5] *)
Definition binarize (t : list (list npfloat)) : list (list bool) :=
  map (map (fun x => np_gt x (Fin (Q2Qc (1 # 2))))) t.

(** What one turn of the loop stores for a layer holding [data]. *)
Definition transformed_value (p : params) (data : ndarray) : result ndarray :=
  transformed ← transform data p;
  Ok (if bool_decide (arr_dtype data = DBool)
      then BoolArr (binarize transformed)
      else FloatArr transformed).

(** How often a layer is named in [transform_layers]. *)
Definition occurrences (layer : string) (ls : list string) : nat :=
  length (filter (fun l => l = layer) ls).

(** One turn of the loop over [transform_layers]. *)
Definition transform_layer (p : params) (adata : AnnData) (layer : string)
  : result AnnData :=
  data ← select_layer_data adata layer;
  transformed ← transform data p;
  let v := if bool_decide (arr_dtype data = DBool)
           then BoolArr (binarize transformed)
           else FloatArr transformed in
  Ok (set_layer_data adata layer v).

(** The loop over [transform_layers].  An exception ends the call; the
    model keeps the dataset of the calls that return. *)
Fixpoint transform_loop (p : params) (adata : AnnData) (ls : list string)
  : result AnnData :=
  match ls with
  | [] => Ok adata
  | layer :: rest =>
      adata' ← transform_layer p adata layer;
      transform_loop p adata' rest
  end.

(** The message of the mode error, its inner quotation marks written as
    apostrophes. *)
Definition mode_msg : string :=
  "`mode` must be one of 'rigid' and 'non-rigid'".

(** [refine_alignment] *)
Definition refine_alignment (adata : AnnData)
    (stain_layer rna_layer mode : string) (n_epochs : Z)
    (transform_layers : option (list string)) (kw : kwargs)
  : result AnnData :=
  if bool_decide (mode ∉ ["rigid"; "non-rigid"]%string)
  then Raise (PreprocessingError mode_msg)
  else
    stain_mask ← select_layer_data adata (resolve_layer adata stain_layer);
    rna_mask ← select_layer_data adata (resolve_layer adata rna_layer);
    aligner ← construct mode rna_mask stain_mask kw;
    trained ← train n_epochs aligner;
    let p := get_params (fst trained) in
    let adata1 := set_uns_spatial_attribute adata UNS_SPATIAL_ALIGNMENT_KEY p in
    match transform_layers with
    | None | Some [] => Ok adata1
    | Some ls => transform_loop p adata1 ls
    end.

End Torch.

Arguments reference {OptState} _.
Arguments to_align {OptState} _.
Arguments weight {OptState} _.
Arguments optimizer_slot {OptState} _.
Arguments history {OptState} _.
Arguments base {OptState} _.
Arguments parameters {OptState} _.
Arguments loss {OptState} _ _ _.
Arguments optimizer {OptState} _ _.
Arguments predict {OptState} _ _ _.
Arguments forward {OptState} _ _.
Arguments epoch {OptState Grad} _ _ _ _ _.
Arguments epochs {OptState Grad} _ _ _ _ _ _.
Arguments train {OptState Grad} _ _ _ _ _ _ _.
Arguments epoch_loss {OptState} _ _ _ _.
Arguments update {OptState Grad} _ _ _ _ _ _.
Arguments after_updates {OptState Grad} _ _ _ _ _ _ _.
Arguments get_params {OptState} _.
Arguments loss_history {OptState} _.
Arguments refine_alignment {OptState Grad} _ _ _ _ _ _ _ _ _ _ _ _ _.

End Refiner.

(* ===================================================================== *)
(** ** three_D_reconstruction.py: pairwise alignment and the slice stack *)
(* ===================================================================== *)

Module Reconstruction.

Definition vec := list Qc.
Definition mat := list (list Qc).
Definition point := (Qc * Qc)%type.

(** A 2 x 2 matrix: the cross-covariance and the factors of its SVD. *)
Record M22 : Type := {
  m00 : Qc; m01 : Qc;
  m10 : Qc; m11 : Qc
}.

Definition I22 : M22 := {| m00 := 1; m01 := 0; m10 := 0; m11 := 1 |}.

(** [A.T] *)
Definition mT (A : M22) : M22 :=
  {| m00 := m00 A; m01 := m10 A; m10 := m01 A; m11 := m11 A |}.

(** [A.dot(B)] *)
Definition mmul (A B : M22) : M22 :=
  {| m00 := m00 A * m00 B + m01 A * m10 B;
     m01 := m00 A * m01 B + m01 A * m11 B;
     m10 := m10 A * m00 B + m11 A * m10 B;
     m11 := m10 A * m01 B + m11 A * m11 B |}.

Definition det (A : M22) : Qc := m00 A * m11 A - m01 A * m10 A.

(** [A.dot(v)] for a column [v] *)
Definition mapply (A : M22) (v : point) : point :=
  (m00 A * fst v + m01 A * snd v, m10 A * fst v + m11 A * snd v).




(** A matrix whose transpose is its inverse, as [np.linalg.svd] documents
    its two unitary factors. *)
Definition orthogonal (A : M22) : Prop :=
  mmul A (mT A) = I22 /\ mmul (mT A) A = I22.

(** A python [str]: the sequence of its code points. *)
Definition pystr : Type := list N.

(** The [str] of an ASCII literal. *)
Definition str (s : string) : pystr :=
  map N_of_ascii (list_ascii_of_string s).

(** The fields of an [AnnData] slice the reconstruction touches:
    [var.index], the dense [X], the columns of [obsm['spatial']] (the [z]
    column is there once a slice has been through [slice_alignment]) and
    the columns of [obs]. *)
Record Slice : Type := {
  var_index : list string;
  X : list (list npfloat);
  spatial : list point;
  spatial_z : option (list Qc);
  slice_ID : list pystr;
  new_x : option (list Qc);
  new_y : option (list Qc);
  new_z : option (list Qc)
}.

(** [slice.shape[0]] *)
Definition n_obs (s : Slice) : nat := length (X s).

(** *** Vectors and matrices *)

Definition vsum (v : vec) : Qc := foldr Qcplus 0 v.

(** [pi.sum(axis=1)] *)
Definition sum_axis1 (pi : mat) : vec := map vsum pi.

(** [pi.sum(axis=0)] *)
Definition sum_axis0 (pi : mat) : vec :=
  foldr (zip_with Qcplus) (repeat 0 (shape1 pi)) pi.

(** [np.ones((n,)) / n] *)
Definition uniform (n : nat) : vec :=
  map (fun one => one / natQc n) (repeat 1 n).

(** [p[:, None] * q[None, :]] *)
Definition outer (p q : vec) : mat :=
  map (fun pi_ => map (fun qj => pi_ * qj) q) p.

(** [w.dot(C)] for a weight vector and an N x 2 coordinate table. *)
Definition vdot (w : vec) (C : list point) : point :=
  foldr (fun wc acc =>
           (fst wc * fst (snd wc) + fst acc, fst wc * snd (snd wc) + snd acc))
        (0, 0) (zip w C).

(** [C - c]: the row [c] subtracted from every row. *)
Definition sub_row (C : list point) (c : point) : list point :=
  map (fun r => (fst r - fst c, snd r - snd c)) C.

(** The columns of a matrix of [n] columns. *)
Definition columns (n : nat) (pi : mat) : mat :=
  foldr (zip_with cons) (repeat [] n) pi.

(** [pi.T] *)
Definition transpose (pi : mat) : mat := columns (shape1 pi) pi.

(** [pi.T.dot(C)]: an N2 x 2 table. *)
Definition piT_dot (pi : mat) (C : list point) : list point :=
  map (fun col => vdot col C) (transpose pi).

(** [B.T.dot(P)] for two N x 2 tables: a 2 x 2 matrix. *)
Definition BT_dot (B P : list point) : M22 :=
  foldr (fun bp acc =>
           {| m00 := fst (fst bp) * fst (snd bp) + m00 acc;
              m01 := fst (fst bp) * snd (snd bp) + m01 acc;
              m10 := snd (fst bp) * fst (snd bp) + m10 acc;
              m11 := snd (fst bp) * snd (snd bp) + m11 acc |})
        {| m00 := 0; m01 := 0; m10 := 0; m11 := 0 |} (zip B P).

(** *** Transport plans *)

(** A vector of non-negative weights of total mass one. *)
Definition probability_vector (p : vec) : Prop :=
  Forall (Qcle 0) p /\ vsum p = 1.

(** A point of the transport polytope of [(p, q)]: a [len p] x [len q]
    matrix of non-negative entries with row sums [p] and column sums [q]. *)
Record is_coupling (p q : vec) (G : mat) : Prop := {
  coupling_rows : length G = length p;
  coupling_cols : Forall (fun row => length row = length q) G;
  coupling_nonneg : Forall (Forall (Qcle 0)) G;
  coupling_row_sums : sum_axis1 G = p;
  coupling_col_sums : sum_axis0 G = q
}.

(** One conditional-gradient update, [G + tau * (Gc - G)]. *)
Definition cg_update (tau : Qc) (G Gc : mat) : mat :=
  zip_with (zip_with (fun g c => g + tau * (c - g))) G Gc.

(** The linearized cost [M + reg * df(G)] of one iteration. *)
Definition linearize (M : list (list npfloat)) (reg : Qc) (dfG : mat)
  : list (list npfloat) :=
  zip_with (zip_with (fun m g => np_add m (Fin (reg * g)))) M dfG.

(** The conditional-gradient scheme the design names for the solver, in
    its generic form: at most [numItermax] rounds, each solving the
    linearized problem with an exact transport solver [emd], choosing a
    step with [line_search] and moving towards the solution, until the
    stopping test [converged] holds.  The solver of POT itself is outside
    the repository; the scheme serves to show how a solver meets
    [cg_contract]. *)
Fixpoint cg_scheme
    (emd : vec -> vec -> list (list npfloat) -> Z -> mat)
    (line_search : mat -> mat -> Qc)
    (converged : mat -> mat -> bool)
    (numItermax : nat) (a b : vec) (M : list (list npfloat)) (reg : Qc)
    (df : mat -> mat) (numItermaxEmd : Z) (G : mat) : mat :=
  match numItermax with
  | O => G
  | S k =>
      let Mi := linearize M reg (df G) in
      let Gc := emd a b Mi numItermaxEmd in
      let G' := cg_update (line_search G Gc) G Gc in
      if converged G G' then G'
      else cg_scheme emd line_search converged k a b M reg df
             numItermaxEmd G'
  end.

(** The exact transport solver returns a plan between its marginals. *)
Definition emd_contract
    (emd : vec -> vec -> list (list npfloat) -> Z -> mat) : Prop :=
  forall a b C numItermaxEmd,
    probability_vector a -> probability_vector b ->
    is_coupling a b (emd a b C numItermaxEmd).

Section Numpy.

(** [np.sqrt], [np.log] and [np.linalg.svd] on a 2 x 2 matrix, which
    returns [(U, S, Vt)]. *)
Variable np_sqrt : Qc -> Qc.
Variable np_log : npfloat -> npfloat.
Variable svd : M22 -> M22 * (Qc * Qc) * M22.

(** *** Cost matrices *)

(** [scipy.spatial.distance_matrix(C, C)] *)
Definition distance_matrix (C D : list point) : mat :=
  map (fun c =>
         map (fun d =>
                np_sqrt ((fst c - fst d) * (fst c - fst d)
                         + (snd c - snd d) * (snd c - snd d))) D) C.

(** [[value for value in slice1.var.index if value in set(slice2.var.index)]] *)
Definition common_genes (s1 s2 : Slice) : list string :=
  filter (fun g => g ∈ var_index s2) (var_index s1).

(** Position of a gene in [var.index]. *)
Fixpoint gene_pos (g : string) (names : list string) : nat :=
  match names with
  | [] => 0
  | n :: rest => if bool_decide (n = g) then 0 else S (gene_pos g rest)
  end.

(** [slice[:, genes]] *)
Definition subset_genes (s : Slice) (genes : list string) : Slice :=
  {| var_index := genes;
     X := map (fun row =>
                 map (fun g => nth (gene_pos g (var_index s)) row (Fin 0))
                     genes) (X s);
     spatial := spatial s;
     spatial_z := spatial_z s;
     slice_ID := slice_ID s;
     new_x := new_x s; new_y := new_y s; new_z := new_z s |}.

(** [X + 0.01] then [X / X.sum(axis=1, keepdims=True)] *)
Definition smooth_normalize (AX : list (list npfloat)) : list (list npfloat) :=
  map (fun row =>
         let shifted := map (fun x => np_add x (Fin (Q2Qc (1 # 100)))) row in
         map (fun x => np_divide x (np_sum shifted)) shifted) AX.

(** [np.dot(u, v)] for two float rows *)
Definition np_dot (u v : list npfloat) : npfloat :=
  np_sum (zip_with np_mul u v).

(** The expression dissimilarity [D = X_log_X.T - np.dot(X, logY.T)]. *)
Definition expression_cost (AX BX : list (list npfloat))
  : list (list npfloat) :=
  let Xn := smooth_normalize AX in
  let Yn := smooth_normalize BX in
  let logX := map (map np_log) Xn in
  let logY := map (map np_log) Yn in
  let X_log_X := zip_with np_dot Xn logX in
  zip_with (fun xi xlx => map (fun lyj => np_sub xlx (np_dot xi lyj)) logY)
    Xn X_log_X.

(** [(1 - alpha) * M] *)
Definition scale_cost (alpha : Qc) (M : list (list npfloat))
  : list (list npfloat) :=
  map (map (np_mul (Fin (1 - alpha)))) M.

(** *** The transport solvers of POT *)

Section POT.

(** [ot.gromov.fused_gromov_wasserstein(M, C1, C2, p, q, loss_fun, alpha,
    armijo, numItermax, numItermaxEmd)] *)
Variable fused_gromov_wasserstein :
  list (list npfloat) -> mat -> mat -> vec -> vec -> string -> Qc ->
  bool -> Z -> Z -> mat.
(** [ot.gromov.init_matrix(C1, C2, p, q, loss_fun)] returns
    [(constC, hC1, hC2)]. *)
Variable init_matrix : mat -> mat -> vec -> vec -> string -> mat * mat * mat.
(** [ot.gromov.gwloss] and [ot.gromov.gwggrad] *)
Variable gwloss : mat -> mat -> mat -> mat -> Qc.
Variable gwggrad : mat -> mat -> mat -> mat -> mat.
(** [ot.optim.cg(a, b, M, reg, f, df, G0, numItermax, numItermaxEmd,
    C1, C2, constC, armijo)] *)
Variable cg :
  vec -> vec -> list (list npfloat) -> Qc -> (mat -> Qc) -> (mat -> mat) ->
  mat -> Z -> Z -> mat -> mat -> mat -> bool -> mat.

(** The arguments both aligners prepare for the solver: the two distance
    matrices, the feature cost and the two marginals. *)
Record problem : Type := {
  pb_DA : mat;
  pb_DB : mat;
  pb_M : list (list npfloat);
  pb_p : vec;
  pb_q : vec
}.

(** [pairwise_align1] up to the call of the solver. *)
Definition prepare1 (slice1 slice2 : Slice) : problem :=
  let genes := common_genes slice1 slice2 in
  let slice1 := subset_genes slice1 genes in
  let slice2 := subset_genes slice2 genes in
  let DA := distance_matrix (spatial slice1) (spatial slice1) in
  let DB := distance_matrix (spatial slice2) (spatial slice2) in
  let M := expression_cost (X slice1) (X slice2) in
  let a := uniform (n_obs slice1) in
  let b := uniform (n_obs slice2) in
  {| pb_DA := DA; pb_DB := DB; pb_M := M; pb_p := a; pb_q := b |}.

(** [pairwise_align1] *)
Definition pairwise_align1 (slice1 slice2 : Slice) (alpha : Qc)
    (numItermax numItermaxEmd : Z) : mat :=
  let pb := prepare1 slice1 slice2 in
  fused_gromov_wasserstein (pb_M pb) (pb_DA pb) (pb_DB pb) (pb_p pb) (pb_q pb)
    "square_loss" alpha false numItermax numItermaxEmd.

(** [pairwise_align2] up to the solver set-up. *)
Definition prepare2 (slice1 slice2 : Slice) : problem :=
  let genes := common_genes slice1 slice2 in
  let slice1 := subset_genes slice1 genes in
  let slice2 := subset_genes slice2 genes in
  let DA := distance_matrix (spatial slice1) (spatial slice1) in
  let DB := distance_matrix (spatial slice2) (spatial slice2) in
  let D := expression_cost (X slice1) (X slice2) in
  let p := uniform (n_obs slice1) in
  let q := uniform (n_obs slice2) in
  {| pb_DA := DA; pb_DB := DB; pb_M := D; pb_p := p; pb_q := q |}.

(** [pairwise_align2]; moving an array to the device and back does not
    change its entries. *)
Definition pairwise_align2 (slice1 slice2 : Slice) (alpha : Qc)
    (numItermax numItermaxEmd : Z) : mat :=
  let pb := prepare2 slice1 slice2 in
  let '(constC, hC1, hC2) :=
    init_matrix (pb_DA pb) (pb_DB pb) (pb_p pb) (pb_q pb) "square_loss" in
  let G0 := outer (pb_p pb) (pb_q pb) in
  let f := fun G => gwloss constC hC1 hC2 G in
  let df := fun G => gwggrad constC hC1 hC2 G in
  cg (pb_p pb) (pb_q pb) (scale_cost alpha (pb_M pb)) alpha f df G0
     numItermax numItermaxEmd (pb_DA pb) (pb_DB pb) constC false.

(** *** Procrustes superposition: the body of the first loop *)

(** [raw - w.dot(raw)] *)
Definition center (w : vec) (raw : list point) : list point :=
  sub_row raw (vdot w raw).

(** [H = slice2Coor.T.dot(pi.T.dot(slice1Coor))] on the centred tables. *)
Definition cross_covariance (pi : mat) (rawA rawB : list point) : M22 :=
  let slice1Coor := center (sum_axis1 pi) rawA in
  let slice2Coor := center (sum_axis0 pi) rawB in
  BT_dot slice2Coor (piT_dot pi slice1Coor).

(** [U, S, Vt = np.linalg.svd(H)] then [R = Vt.T.dot(U.T)] *)
Definition rotation (pi : mat) (rawA rawB : list point) : M22 :=
  let '(U, S_, Vt) := svd (cross_covariance pi rawA rawB) in
  mmul (mT Vt) (mT U).

(** The new coordinate tables of the pair:
    [slice1Coor] and [R.dot(slice2Coor.T).T]. *)
Definition superpose (pi : mat) (rawSlice1Coor rawSlice2Coor : list point)
  : list point * list point :=
  let slice1Coor := sub_row rawSlice1Coor
                      (vdot (sum_axis1 pi) rawSlice1Coor) in
  let slice2Coor := sub_row rawSlice2Coor
                      (vdot (sum_axis0 pi) rawSlice2Coor) in
  let H := BT_dot slice2Coor (piT_dot pi slice1Coor) in
  let '(U, S_, Vt) := svd H in
  let R := mmul (mT Vt) (mT U) in
  let slice2Coor := map (mapply R) slice2Coor in
  (slice1Coor, slice2Coor).


(** [slice.obsm['spatial'] = pd.DataFrame(coor, columns=['x', 'y'], ...)]:
    the new table has the two columns only. *)
Definition set_spatial (s : Slice) (coor : list point) : Slice :=
  {| var_index := var_index s; X := X s;
     spatial := coor; spatial_z := None;
     slice_ID := slice_ID s;
     new_x := new_x s; new_y := new_y s; new_z := new_z s |}.

(** The first loop of [slice_alignment], from pair [i] on.  The loop is
    written for tables of the two columns x and y.  With a slice that
    already carries a z column the tables have three: the product
    [Vt.T.dot(U.T)] of a 3 x 3 and a 2 x 2 factor, or else the two-column
    [pd.DataFrame] built from the rotated N x 3 array, raises
    [ValueError]. *)
Fixpoint pairwise_passes (piList : list mat) (i : nat)
    (slicesList : list Slice) : result (list Slice) :=
  match piList with
  | [] => Ok slicesList
  | pi :: rest =>
      match slicesList !! i, slicesList !! S i with
      | Some slice1, Some slice2 =>
          match spatial_z slice1, spatial_z slice2 with
          | None, None =>
              let '(slice1Coor, slice2Coor) :=
                superpose pi (spatial slice1) (spatial slice2) in
              pairwise_passes rest (S i)
                (<[S i := set_spatial slice2 slice2Coor]>
                   (<[i := set_spatial slice1 slice1Coor]> slicesList))
          | _, _ => Raise ValueError
          end
      | _, _ => Raise IndexError
      end
  end.

(** *** The section index of an identifier *)

(** The Unicode database: the value of a code point that is a decimal
    digit (general category Nd), which is what [\d] matches in a [str]
    pattern and what [float] converts; [None] for every other code
    point. *)
Variable unicode_decimal : N -> option nat.

Definition is_digit (c : N) : bool :=
  match unicode_decimal c with
  | Some _ => true
  | None => false
  end.

(** The longest run of decimal digits at the head of a string. *)
Fixpoint take_digits (s : pystr) : pystr :=
  match s with
  | c :: rest => if is_digit c then c :: take_digits rest else []
  | [] => []
  end.

(** A match of [_S(\d+)] anchored at the head: the captured digits. *)
Definition match_S_here (s : pystr) : option pystr :=
  match s with
  | c0 :: c1 :: rest =>
      if bool_decide (c0 = 95%N /\ c1 = 83%N)
      then match take_digits rest with
           | [] => None
           | d => Some d
           end
      else None
  | _ => None
  end.

(** [re.findall(r"_S(\d+)", s)[0]]: the group of the leftmost match;
    an identifier with no match has no first element. *)
Fixpoint findall_S_first (s : pystr) : result pystr :=
  match match_S_here s with
  | Some d => Ok d
  | None =>
      match s with
      | _ :: rest => findall_S_first rest
      | [] => Raise IndexError
      end
  end.

(** Every character is a decimal digit. *)
Definition all_digits (s : pystr) : bool := forallb is_digit s.

(** The string does not begin with a decimal digit. *)
Definition no_leading_digit (s : pystr) : bool :=
  match s with
  | c :: _ => negb (is_digit c)
  | [] => true
  end.

(** [float(z)] of a string of decimal digits. *)
Definition digits_value (z : pystr) : Qc :=
  natQc (fold_left
           (fun acc c => (10 * acc + default 0 (unicode_decimal c))%nat)
           z 0%nat).

(** The number a numeral denotes, in the usual words: the sum of its
    digits, most significant first, each times the power of ten of its
    position. *)
Fixpoint denoted (digits : list nat) : nat :=
  match digits with
  | [] => 0
  | d :: rest => d * 10 ^ length rest + denoted rest
  end.

(** The body of the second loop: the section index becomes the [z] column
    of the coordinate table and the three [new_*] columns of [obs] are
    filled. *)
Definition assign_z (slice : Slice) : result Slice :=
  match slice_ID slice with
  | [] => Raise IndexError
  | id0 :: _ =>
      z ← findall_S_first id0;
      Ok {| var_index := var_index slice; X := X slice;
            spatial := spatial slice;
            spatial_z := Some (repeat (digits_value z)
                                 (length (spatial slice)));
            slice_ID := slice_ID slice;
            new_x := Some (map fst (spatial slice));
            new_y := Some (map snd (spatial slice));
            new_z := Some (repeat (digits_value z)
                             (length (slice_ID slice))) |}
  end.

(** [for i, slice in enumerate(slicesList)] *)
Fixpoint assign_all (slicesList : list Slice) : result (list Slice) :=
  match slicesList with
  | [] => Ok []
  | slice :: rest =>
      slice' ← assign_z slice;
      rest' ← assign_all rest;
      Ok (slice' :: rest')
  end.

(** The list of transport plans, one per adjacent pair, computed from the
    slices as given. *)
Definition piList_of (slicesList : list Slice) (alpha : Qc)
    (numItermax numItermaxEmd : Z) (device : string) : list mat :=
  map (fun i =>
         match slicesList !! i, slicesList !! S i with
         | Some s1, Some s2 =>
             if bool_decide (device = "cpu")
             then pairwise_align1 s1 s2 alpha numItermax numItermaxEmd
             else pairwise_align2 s1 s2 alpha numItermax numItermaxEmd
         | _, _ => []
         end)
      (seq 0 (length slicesList - 1)).

(** [slice_alignment], without the optional writing of files. *)
Definition slice_alignment (slicesList : list Slice) (alpha : Qc)
    (numItermax numItermaxEmd : Z) (device : string)
  : result (list Slice) :=
  let piList := piList_of slicesList alpha numItermax numItermaxEmd device in
  aligned ← pairwise_passes piList 0 slicesList;
  assign_all aligned.

End POT.

End Numpy.

(** *** What the code relies on from POT *)

(** [fused_gromov_wasserstein] returns a transport plan between the two
    marginals it is given. *)
Definition fgw_contract
    (fused_gromov_wasserstein :
       list (list npfloat) -> mat -> mat -> vec -> vec -> string -> Qc ->
       bool -> Z -> Z -> mat) : Prop :=
  forall M C1 C2 p q loss_fun alpha armijo numItermax numItermaxEmd,
    probability_vector p -> probability_vector q ->
    is_coupling p q
      (fused_gromov_wasserstein M C1 C2 p q loss_fun alpha armijo
         numItermax numItermaxEmd).

(** [cg], started from a transport plan, returns a transport plan between
    the same marginals. *)
Definition cg_contract
    (cg : vec -> vec -> list (list npfloat) -> Qc -> (mat -> Qc) ->
          (mat -> mat) -> mat -> Z -> Z -> mat -> mat -> mat -> bool -> mat)
  : Prop :=
  forall a b M reg f df G0 numItermax numItermaxEmd C1 C2 constC armijo,
    probability_vector a -> probability_vector b ->
    is_coupling a b G0 ->
    is_coupling a b
      (cg a b M reg f df G0 numItermax numItermaxEmd C1 C2 constC armijo).

End Reconstruction.

(* ===================================================================== *)
(** ** Notions for the properties of the slice stack *)
(* ===================================================================== *)

Module StackNotions.
Import Reconstruction.

(** The squared Euclidean distance of two points. *)
Definition sq_dist (a b : point) : Qc :=
  (fst a - fst b) * (fst a - fst b) + (snd a - snd b) * (snd a - snd b).

(** Two coordinate tables with the same number of points and the same
    squared distance between any two of them. *)
Definition congruent (C' C : list point) : Prop :=
  length C' = length C
  /\ forall i j a a',
       C !! i = Some a -> C !! j = Some a' ->
       exists c c',
         C' !! i = Some c /\ C' !! j = Some c'
         /\ sq_dist c c' = sq_dist a a'.

(** Two slices that differ at most in their coordinate tables, which have
    the same number of points. *)
Definition same_but_coordinates (s' s : Slice) : Prop :=
  var_index s' = var_index s /\ X s' = X s /\ slice_ID s' = slice_ID s
  /\ new_x s' = new_x s /\ new_y s' = new_y s /\ new_z s' = new_z s
  /\ length (spatial s') = length (spatial s).

(** [str(n)]: the decimal digits of a section index. *)
Definition decimal (n : nat) : pystr :=
  str (NilEmpty.string_of_uint (Nat.to_uint n)).

End StackNotions.

(* ===================================================================== *)
(** ** Concrete inputs *)
(* ===================================================================== *)

Module Samples.
Import Refiner Reconstruction.

(** *** A small refinement problem *)

(** A 2 x 2 mask with one foreground pixel. *)
Definition mask_a : list (list bool) := [[true; false]; [false; false]].

(** A 2 x 2 mask of foreground only. *)
Definition mask_full : list (list bool) := [[true; true]; [true; true]].

(** An optimizer without state whose step keeps the parameters, and a
    resampling that returns the image as it is (what the identity affine
    matrix does). *)
Definition adam_new0 (p : params) : unit := tt.
Definition adam_step0 (o : unit) (p : params) (g : unit) : unit * params :=
  (o, p).
Definition autograd0 (f : params -> result npfloat) (p : params) : unit := tt.
Definition warp_id (p : params) (x : list (list npfloat))
  : option (list (list npfloat)) := Some x.

(** A forward pass that has diverged: every output pixel is NaN. *)
Definition warp_nan (p : params) (x : list (list npfloat))
  : option (list (list npfloat)) := Some (map (map (fun _ => NaN)) x).

(** A resampling in which the library raises. *)
Definition warp_raises (p : params) (x : list (list npfloat))
  : option (list (list npfloat)) := None.

(** Float arithmetic without rounding. *)
Definition exact_arith : torch_arith :=
  {| t_sub := np_sub;
     t_square := fun x => np_mul x x;
     t_mul := np_mul;
     t_sum := np_sum;
     t_div_int := fun a n => np_divide a (np_of_nat n) |}.

(** The rigid refiner of [mask_a] against [mask_full], as constructed. *)
Definition refiner_a : refiner unit :=
  {| base := {| reference := to_float (BoolArr mask_a);
                to_align := to_float (BoolArr mask_full);
                weight := weight_map mask_a;
                optimizer_slot := None;
                history := ∅ |};
     parameters := RigidParams identity_theta |}.

(** A rigid refiner whose moving image, 3 x 3, does not have the 2 x 2
    shape of its reference; the constructor accepts the pair. *)
Definition mask_3x3 : list (list bool) :=
  [[true; false; false]; [false; false; false]; [false; false; false]].
Definition refiner_3x3 : refiner unit :=
  {| base := {| reference := to_float (BoolArr mask_a);
                to_align := to_float (BoolArr mask_3x3);
                weight := weight_map mask_a;
                optimizer_slot := None;
                history := ∅ |};
     parameters := RigidParams identity_theta |}.

Definition no_kwargs : kwargs := {| kw_theta := None; kw_binsize := None |}.

(** A dataset with a stain mask, an RNA layer, a continuous layer and a
    boolean layer. *)
Definition adata_a : AnnData :=
  {| layers :=
       <["stain_mask" := BoolArr mask_full]>
         (<["unspliced" := BoolArr mask_a]>
            (<["density" :=
                 FloatArr [[Fin (Q2Qc (3 # 4)); Fin (Q2Qc (1 # 4))]]]>
               (<["nuclei" := BoolArr [[true; false]]]> ∅)));
     uns_spatial := ∅ |}.

Definition refined_a : result AnnData :=
  refine_alignment adam_new0 adam_step0 autograd0 warp_id exact_arith
    "alignment" adata_a "stain" "unspliced" "rigid" 2
    (Some ["density"; "nuclei"]%string) no_kwargs.

Definition adata_a' : AnnData :=
  match refined_a with
  | Ok a => a
  | Raise _ => adata_a
  end.

(** *** A small stack of slices *)

(** Stand-ins for the square root and the logarithm. *)
Definition sqrt0 (x : Qc) : Qc := x.
Definition log0 (x : npfloat) : npfloat := x.

(** A conditional-gradient solver whose inner transport solver answers
    with the product plan, whose step is always 1/2 and which runs all its
    rounds; and the fused solver built on it. *)
Definition emd0 (a b : vec) (C : list (list npfloat)) (n : Z) : mat :=
  outer a b.
Definition line_search0 (G Gc : mat) : Qc := Q2Qc (1 # 2).
Definition converged0 (G G' : mat) : bool := false.
Definition cg0 (a b : vec) (M : list (list npfloat)) (reg : Qc)
    (f : mat -> Qc) (df : mat -> mat) (G0 : mat) (n m : Z)
    (C1 C2 constC : mat) (armijo : bool) : mat :=
  cg_scheme emd0 line_search0 converged0 (Z.to_nat n) a b M reg df m G0.
Definition init_matrix0 (C1 C2 : mat) (p q : vec) (loss_fun : string)
  : mat * mat * mat := ([], [], []).
Definition gwloss0 (constC hC1 hC2 G : mat) : Qc := 0.
Definition gwggrad0 (constC hC1 hC2 G : mat) : mat := G.
Definition fgw0 (M : list (list npfloat)) (C1 C2 : mat) (p q : vec)
    (loss_fun : string) (alpha : Qc) (armijo : bool) (n m : Z) : mat :=
  let '(constC, hC1, hC2) := init_matrix0 C1 C2 p q loss_fun in
  cg0 p q (scale_cost alpha M) alpha
      (fun G => gwloss0 constC hC1 hC2 G)
      (fun G => gwggrad0 constC hC1 hC2 G)
      (outer p q) n m C1 C2 constC armijo.

(** The singular value decomposition of a matrix [diag(a, -b)] with
    [a >= b >= 0]: [U = I], [S = (a, b)], [Vt = diag(1, -1)]. *)
Definition mirror : M22 := {| m00 := 1; m01 := 0; m10 := 0; m11 := - (1) |}.
Definition svd_diag (H : M22) : M22 * (Qc * Qc) * M22 :=
  (I22, (m00 H, - m11 H), mirror).

(** Four points, and their mirror image in the x axis. *)
Definition cross_a : list point :=
  [(2, 0); (- (2), 0); (0, 1); (0, - (1))].
Definition cross_b : list point :=
  [(2, 0); (- (2), 0); (0, - (1)); (0, 1)].

(** The plan that matches point [i] to point [i] with mass 1/4. *)
Definition pi_diag : mat :=
  let q := Q2Qc (1 # 4) in
  [[q; 0; 0; 0]; [0; q; 0; 0]; [0; 0; q; 0]; [0; 0; 0; q]].

(** A table of decimal digits: the ASCII digits and the Arabic-Indic
    digits U+0660 to U+0669. *)
Definition digits_a (c : N) : option nat :=
  if bool_decide (48 <= c <= 57)%N then Some (N.to_nat (c - 48))
  else if bool_decide (1632 <= c <= 1641)%N then Some (N.to_nat (c - 1632))
  else None.

Definition slice_of (id : string) (coords : list point) : Slice :=
  {| var_index := ["g1"; "g2"]%string;
     X := map (fun _ => [Fin 1; Fin 2]) coords;
     spatial := coords;
     spatial_z := None;
     slice_ID := map (fun _ => str id) coords;
     new_x := None; new_y := None; new_z := None |}.

Definition slice_1 : Slice := slice_of "E16_S1" cross_a.
Definition slice_2 : Slice := slice_of "E16_S2" cross_b.
Definition slice_3 : Slice := slice_of "E16_S10" cross_a.

Definition stack_a : list Slice := [slice_1; slice_2; slice_3].

Definition alpha_a : Qc := Q2Qc (1 # 10).

Definition aligned_a : result (list Slice) :=
  slice_alignment sqrt0 log0 svd_diag fgw0 init_matrix0 gwloss0 gwggrad0 cg0
    digits_a stack_a alpha_a 200 100000 "cpu".

Definition stack_a' : list Slice :=
  match aligned_a with
  | Ok l => l
  | Raise _ => []
  end.

(** A slice measured on other genes than [slice_1]. *)
Definition slice_other : Slice :=
  {| var_index := ["h1"; "h2"; "h3"]%string;
     X := map (fun _ => [Fin 1; Fin 0; Fin 2]) cross_b;
     spatial := cross_b;
     spatial_z := None;
     slice_ID := map (fun _ => str "E16_S3") cross_b;
     new_x := None; new_y := None; new_z := None |}.

(** Counts of two spots on two genes; the first spot has none. *)
Definition counts_a : list (list npfloat) :=
  [[Fin 0; Fin 0]; [Fin (Q2Qc 3); Fin 1]].

End Samples.

(* ===================================================================== *)
(** ** Properties of the refiner *)
(* ===================================================================== *)

Module NumericFacts.

Lemma natQc_0 : natQc 0 = 0.
Proof. apply Qc_is_canon. reflexivity. Qed.

Lemma natQc_S n : natQc (S n) = natQc n + 1.
Proof.
  unfold natQc. apply Qc_is_canon. unfold Qcplus. simpl.
  rewrite !Qred_correct, Nat2Z.inj_succ. unfold Z.succ.
  rewrite inject_Z_plus. reflexivity.
Qed.

Lemma natQc_add n m : natQc (n + m) = natQc n + natQc m.
Proof.
  induction n as [|n IH]; simpl.
  - rewrite natQc_0. ring.
  - rewrite !natQc_S, IH. ring.
Qed.

Lemma natQc_double n : natQc (2 * n) = 2 * natQc n.
Proof.
  replace (2 * n)%nat with (n + n)%nat by lia. rewrite natQc_add. ring.
Qed.

Lemma natQc_nonneg n : 0 <= natQc n.
Proof.
  induction n as [|n IH].
  - rewrite natQc_0. apply Qcle_refl.
  - rewrite natQc_S. apply Qcplus_nonneg_nonneg; [exact IH | done].
Qed.

Lemma natQc_pos n : (0 < n)%nat -> 0 < natQc n.
Proof.
  destruct n as [|n]; [lia|]. intros _. rewrite natQc_S.
  apply Qcplus_nonneg_pos; [apply natQc_nonneg | done].
Qed.

Lemma natQc_neq0 n : (0 < n)%nat -> natQc n <> 0.
Proof.
  intros H E. pose proof (natQc_pos n H) as P. rewrite E in P.
  exact (Qclt_not_le _ _ P (Qcle_refl 0)).
Qed.

Lemma two_neq0 : (2 : Qc) <> 0.
Proof. intros E. discriminate E. Qed.

(** Division of a count by a positive count is an ordinary quotient. *)
Lemma np_divide_counts total k :
  (0 < k)%nat ->
  np_divide (np_of_nat total) (np_of_nat (2 * k))
  = Fin (natQc total / (2 * natQc k)).
Proof.
  intros Hk. unfold np_divide, np_of_nat. rewrite natQc_double.
  rewrite bool_decide_eq_false_2; [reflexivity|].
  intros E. apply Qcmult_integral in E as [E|E].
  - exact (two_neq0 E).
  - exact (natQc_neq0 k Hk E).
Qed.

(** Division of a count by a zero count is not a finite number. *)
Lemma np_divide_zero_count total :
  is_finite (np_divide (np_of_nat total) (np_of_nat (2 * 0))) = false.
Proof.
  unfold np_divide, np_of_nat. change (2 * 0)%nat with 0%nat.
  rewrite (bool_decide_eq_true_2 (natQc 0 = 0) natQc_0).
  destruct (bool_decide (natQc total = 0)); reflexivity.
Qed.

Lemma np_sum_repeat (w : Qc) k :
  np_sum (repeat (Fin w) k) = Fin (natQc k * w).
Proof.
  induction k as [|k IH].
  - simpl. rewrite natQc_0. f_equal. ring.
  - change (np_sum (repeat (Fin w) (S k)))
      with (np_add (Fin w) (np_sum (repeat (Fin w) k))).
    rewrite IH. simpl. rewrite natQc_S. f_equal. ring.
Qed.

End NumericFacts.

Module RefinerProofs.
Import Refiner NumericFacts.

Lemma cell_map {A B} (f : A -> B) (d : list (list A)) i j :
  cell (map (map f) d) i j = f <$> cell d i j.
Proof.
  unfold cell. rewrite list_lookup_fmap.
  destruct (d !! i) as [row|]; simpl; [|reflexivity].
  apply list_lookup_fmap.
Qed.

Lemma cell_elem_of_concat {A} (d : list (list A)) i j (b : A) :
  cell d i j = Some b -> b ∈ concat d.
Proof.
  unfold cell. intros H.
  destruct (d !! i) as [row|] eqn:Hrow; [|discriminate]. simpl in H.
  apply list_elem_of_In, in_concat. exists row.
  split; apply list_elem_of_In, list_elem_of_lookup; eauto.
Qed.

Lemma concat_map_map {A B} (f : A -> B) (d : list (list A)) :
  concat (map (map f) d) = map f (concat d).
Proof.
  induction d as [|r d IH]; simpl; [reflexivity|].
  rewrite map_app, IH. reflexivity.
Qed.

(** The cells of one class all carry the weight of that class. *)
Lemma class_cells_repeat (cls : bool) (wt wf : npfloat) (l : list bool) :
  map snd (filter (fun bw => fst bw = cls)
             (zip l (map (fun b : bool => if b then wt else wf) l)))
  = repeat (if cls then wt else wf) (length (filter (fun b => b = cls) l)).
Proof.
  induction l as [|b l IH]; [reflexivity|].
  cbn [map zip zip_with]. rewrite !filter_cons. cbn [fst].
  destruct (decide (b = cls)) as [->|Hne]; cbn; rewrite IH; reflexivity.
Qed.

Lemma class_sum_weight_map (cls : bool) (reference : list (list bool)) :
  class_sum cls reference (weight_map reference)
  = np_sum (repeat
      (np_divide (np_of_nat (arr_size reference))
         (np_of_nat (2 * (if cls then count_true reference
                          else count_false reference))))
      (if cls then count_true reference else count_false reference)).
Proof.
  unfold class_sum, weight_map. rewrite concat_map_map.
  rewrite class_cells_repeat. unfold count_true, count_false.
  destruct cls; reflexivity.
Qed.

Lemma count_classes (l : list bool) :
  (length (filter (fun b => b = true) l)
   + length (filter (fun b => b = false) l) = length l)%nat.
Proof.
  induction l as [|b l IH]; [reflexivity|].
  rewrite !filter_cons. destruct b; simpl; lia.
Qed.

Lemma half_total (total k : nat) :
  (0 < k)%nat ->
  natQc k * (natQc total / (2 * natQc k)) = natQc total / 2.
Proof.
  intros Hk. field. split; [exact two_neq0 | exact (natQc_neq0 k Hk)].
Qed.

Section WeightMap.

Context {OptState : Type}.

Lemma init_bool_ok (reference to_align : list (list bool)) :
  snd (AlignmentRefiner_init OptState (BoolArr reference) (BoolArr to_align))
  = Ok {| reference := map (map np_of_bool) reference;
          to_align := map (map np_of_bool) to_align;
          weight := weight_map reference;
          optimizer_slot := None;
          history := ∅ |}.
Proof.
  reflexivity.
Qed.

(** C4.  For every boolean reference mask the constructor succeeds with a
    weight map that gives each foreground pixel the value
    totalPixels / (2 * foregroundCount) and each background pixel the value
    totalPixels / (2 * backgroundCount); when both classes are present, the
    weights of the foreground pixels and the weights of the background
    pixels each sum to totalPixels / 2. *)
Theorem weight_map_class_balanced (reference to_align : list (list bool)) :
  exists r : AlignmentRefiner OptState,
    snd (AlignmentRefiner_init OptState (BoolArr reference) (BoolArr to_align))
    = Ok r
    /\ (forall i j,
          cell reference i j = Some true ->
          cell (weight r) i j
          = Some (Fin (natQc (arr_size reference)
                       / (2 * natQc (count_true reference)))))
    /\ (forall i j,
          cell reference i j = Some false ->
          cell (weight r) i j
          = Some (Fin (natQc (arr_size reference)
                       / (2 * natQc (count_false reference)))))
    /\ ((0 < count_true reference)%nat ->
        (0 < count_false reference)%nat ->
        class_sum true reference (weight r)
        = Fin (natQc (arr_size reference) / 2)
        /\ class_sum false reference (weight r)
           = Fin (natQc (arr_size reference) / 2)).
Proof.
  eexists. split; [apply init_bool_ok|]. cbn [weight].
  pose proof (cell_elem_of_concat reference) as Hcell.
  assert (Hpos : forall b, b ∈ concat reference ->
            (0 < length (filter (fun c => c = b) (concat reference)))%nat).
  { intros b Hb.
    assert (Hin : b ∈ filter (fun c => c = b) (concat reference))
      by (apply list_elem_of_filter; split; [reflexivity | exact Hb]).
    destruct (filter (fun c => c = b) (concat reference));
      [inversion Hin | simpl; lia]. }
  split; [|split; [|]].
  - intros i j H. unfold weight_map. rewrite cell_map, H.
    cbn [fmap option_fmap option_map].
    rewrite np_divide_counts; [reflexivity|].
    apply (Hpos true), (Hcell i j), H.
  - intros i j H. unfold weight_map. rewrite cell_map, H.
    cbn [fmap option_fmap option_map].
    rewrite np_divide_counts; [reflexivity|].
    apply (Hpos false), (Hcell i j), H.
  - intros Ht Hf. rewrite !class_sum_weight_map.
    rewrite !np_divide_counts by assumption.
    rewrite !np_sum_repeat, !half_total by assumption. split; reflexivity.
Qed.

(** C10.  For a boolean reference mask of a single class the constructor
    does not raise: the weight expression of the absent class divides by
    zero and is not a finite number, but no cell selects it; every cell of
    the weight map is 1/2; and the weights of the present class sum to
    totalPixels / 2 while those of the absent class sum to 0. *)
Theorem single_class_weight_map (cls : bool)
    (reference to_align : list (list bool)) :
  (if cls then count_false reference else count_true reference) = 0%nat ->
  exists r : AlignmentRefiner OptState,
    snd (AlignmentRefiner_init OptState (BoolArr reference) (BoolArr to_align))
    = Ok r
    /\ is_finite
         (np_divide (np_of_nat (arr_size reference))
            (np_of_nat (2 * (if cls then count_false reference
                             else count_true reference)))) = false
    /\ (forall i j w, cell (weight r) i j = Some w ->
                      w = Fin (Q2Qc (1 # 2)))
    /\ class_sum cls reference (weight r)
       = Fin (natQc (arr_size reference) / 2)
    /\ class_sum (negb cls) reference (weight r) = Fin 0.
Proof.
  intros Hzero.
  eexists. split; [apply init_bool_ok|]. cbn [weight].
  pose proof (count_classes (concat reference)) as Hsum.
  fold (count_true reference) in Hsum. fold (count_false reference) in Hsum.
  fold (arr_size reference) in Hsum.
  assert (Hall : forall b, b ∈ concat reference -> b = cls).
  { intros b Hb. destruct (decide (b = cls)) as [|Hne]; [assumption|].
    exfalso.
    assert (Hin : b ∈ filter (fun c => c = negb cls) (concat reference)).
    { apply list_elem_of_filter. split; [|exact Hb].
      destruct b, cls; simpl; congruence. }
    unfold count_true, count_false in Hzero.
    destruct cls; simpl in Hin;
      rewrite (nil_length_inv _ Hzero) in Hin; inversion Hin. }
  assert (Hpresent :
    (if cls then count_true reference else count_false reference)
    = arr_size reference) by (destruct cls; lia).
  split; [|split; [|split]].
  - rewrite Hzero. apply np_divide_zero_count.
  - intros i j w H. unfold weight_map in H. rewrite cell_map in H.
    destruct (cell reference i j) as [b|] eqn:Hb; [|discriminate].
    pose proof (cell_elem_of_concat _ _ _ _ Hb) as Hin.
    assert (Hbc : b = cls) by (apply Hall, Hin).
    assert (Hn : (0 < arr_size reference)%nat).
    { unfold arr_size. destruct (concat reference);
        [inversion Hin | simpl; lia]. }
    simpl in H. injection H as <-. subst b.
    assert (Hw : np_divide (np_of_nat (arr_size reference))
                   (np_of_nat (2 * arr_size reference))
                 = Fin (Q2Qc (1 # 2))).
    { rewrite np_divide_counts by exact Hn. f_equal.
      pose proof (natQc_neq0 _ Hn).
      transitivity (1 / 2 : Qc); [|apply Qc_is_canon; reflexivity].
      field. split; [exact two_neq0|assumption]. }
    destruct cls; rewrite Hpresent; exact Hw.
  - rewrite class_sum_weight_map, Hpresent.
    destruct (arr_size reference) as [|n] eqn:Hn.
    + simpl. f_equal. rewrite natQc_0. apply Qc_is_canon. reflexivity.
    + rewrite np_divide_counts by lia. rewrite np_sum_repeat.
      rewrite half_total by lia. reflexivity.
  - rewrite class_sum_weight_map.
    replace (if negb cls then count_true reference else count_false reference)
      with 0%nat by (destruct cls; simpl; symmetry; exact Hzero).
    reflexivity.
Qed.

End WeightMap.

Section Construction.

Context {OptState : Type}.

Lemma linspace_steps_not_preprocessing extent binsize :
  ~ is_PreprocessingError (linspace_steps extent binsize).
Proof.
  unfold linspace_steps.
  destruct (bool_decide (binsize = 0%Z)); [exact id|].
  destruct (bool_decide (ceil_div (Z.of_nat extent) binsize < 0)%Z); exact id.
Qed.

Lemma base_init_cases (reference to_align : ndarray) :
  (arr_dtype reference = DBool /\ arr_dtype to_align = DBool
   /\ exists b, AlignmentRefiner_init OptState reference to_align
      = (["reference"; "to_align"; "weight"; "_AlignmentRefiner__optimizer";
          "history"]%string, Ok b))
  \/ ((arr_dtype reference <> DBool \/ arr_dtype to_align <> DBool)
      /\ AlignmentRefiner_init OptState reference to_align
         = ([], Raise (PreprocessingError only_bool_msg))).
Proof.
  unfold AlignmentRefiner_init.
  destruct (bool_decide (arr_dtype reference <> DBool
                         \/ arr_dtype to_align <> DBool)) eqn:E.
  - right. apply bool_decide_eq_true_1 in E. split; [exact E | reflexivity].
  - left. apply bool_decide_eq_false_1 in E.
    destruct (decide (arr_dtype reference = DBool)) as [H1|H1];
      [|exfalso; apply E; left; exact H1].
    destruct (decide (arr_dtype to_align = DBool)) as [H2|H2];
      [|exfalso; apply E; right; exact H2].
    split; [exact H1|]. split; [exact H2|]. eexists. reflexivity.
Qed.

(** C6.  Each of the three constructors raises [PreprocessingError] exactly
    when the reference mask or the moving mask is not of boolean element
    type; when it does, the error is raised before any attribute of the
    refiner (tensors, weight map, optimizer slot, history) is assigned. *)
Theorem constructor_rejects_non_boolean
    (reference to_align : ndarray) (binsize : Z)
    (theta : option (list (list npfloat))) :
  let non_bool := arr_dtype reference <> DBool \/ arr_dtype to_align <> DBool in
  (is_PreprocessingError (snd (AlignmentRefiner_init OptState reference to_align))
   <-> non_bool)
  /\ (is_PreprocessingError
        (snd (NonRigidAlignmentRefiner_init OptState reference to_align binsize))
      <-> non_bool)
  /\ (is_PreprocessingError
        (snd (RigidAlignmentRefiner_init OptState reference to_align theta))
      <-> non_bool)
  /\ (non_bool ->
      AlignmentRefiner_init OptState reference to_align
      = ([], Raise (PreprocessingError only_bool_msg))
      /\ NonRigidAlignmentRefiner_init OptState reference to_align binsize
         = ([], Raise (PreprocessingError only_bool_msg))
      /\ RigidAlignmentRefiner_init OptState reference to_align theta
         = ([], Raise (PreprocessingError only_bool_msg))).
Proof.
  intros non_bool. subst non_bool.
  unfold NonRigidAlignmentRefiner_init, RigidAlignmentRefiner_init.
  destruct (base_init_cases reference to_align)
    as [(H1 & H2 & b & Hb) | (Hnb & Hraise)].
  - rewrite Hb. cbn [snd].
    assert (Hno : ~ (arr_dtype reference <> DBool
                     \/ arr_dtype to_align <> DBool))
      by (intros [H|H]; apply H; assumption).
    split; [split; [intros [] | intros H; destruct (Hno H)]|].
    split; [split; [| intros H; destruct (Hno H)]|].
    { pose proof (linspace_steps_not_preprocessing
                    (shape1 (truth to_align)) binsize) as N1.
      pose proof (linspace_steps_not_preprocessing
                    (shape0 (truth to_align)) binsize) as N2.
      destruct (linspace_steps (shape1 (truth to_align)) binsize);
        [|intros H; destruct (N1 H)].
      destruct (linspace_steps (shape0 (truth to_align)) binsize);
        [intros [] | intros H; destruct (N2 H)]. }
    split; [split; [intros [] | intros H; destruct (Hno H)]|].
    intros H. destruct (Hno H).
  - rewrite Hraise. cbn [snd].
    split; [split; [intros _; exact Hnb | intros _; exact I]|].
    split; [split; [intros _; exact Hnb | intros _; exact I]|].
    split; [split; [intros _; exact Hnb | intros _; exact I]|].
    intros _. repeat split.
Qed.

End Construction.

Section Training.

Context {OptState Grad : Type}.
Variable adam_new : params -> OptState.
Variable adam_step : OptState -> params -> Grad -> OptState * params.
Variable autograd : (params -> result npfloat) -> params -> Grad.
Variable warp : params -> list (list npfloat) -> option (list (list npfloat)).
Variable arith : torch_arith.

Local Abbreviation loss_of := (epoch_loss warp arith).
Local Abbreviation updated := (after_updates adam_step autograd warp arith).

(** The loss of an epoch and the update depend on the three tensors of
    the refiner only, not on its history or its optimizer slot. *)
Lemma epoch_loss_tensors (b b' : AlignmentRefiner OptState) :
  reference b' = reference b -> to_align b' = to_align b ->
  weight b' = weight b ->
  loss_of b' = loss_of b.
Proof. destruct b, b'. cbn. intros -> -> ->. reflexivity. Qed.

Lemma after_updates_tensors (b b' : AlignmentRefiner OptState) k op :
  reference b' = reference b -> to_align b' = to_align b ->
  weight b' = weight b ->
  updated b' k op = updated b k op.
Proof.
  intros Hr Ht Hw. unfold after_updates.
  assert (Hu : forall x, update adam_step autograd warp arith b' x
                         = update adam_step autograd warp arith b x).
  { intros x. unfold update.
    rewrite (epoch_loss_tensors b b' Hr Ht Hw). reflexivity. }
  induction k as [|k IH]; [reflexivity|].
  rewrite !Nat.iter_succ, IH. apply Hu.
Qed.

(** One turn of the loop: the loss of the epoch decides whether it
    returns; if it does, the loss is appended and one update is made. *)
Lemma epoch_unfold (r : refiner OptState) (o : OptState) :
  epoch adam_step autograd warp arith (r, o)
  = match loss_of (base r) (parameters r) with
    | Raise e => Raise e
    | Ok l =>
        let op := update adam_step autograd warp arith (base r)
                    (o, parameters r) in
        Ok (({| base := {| reference := reference (base r);
                           to_align := to_align (base r);
                           weight := weight (base r);
                           optimizer_slot := Some (fst op);
                           history := history_append (history (base r)) l |};
                parameters := snd op |}, fst op),
            epoch_calls l)
    end.
Proof.
  unfold epoch, forward, epoch_loss, update.
  cbn [fst snd].
  destruct (predict warp (base r) (parameters r)) as [pred|e];
    [|reflexivity].
  cbn [mbind result_bind].
  destruct (loss arith (base r) pred) as [l|e]; [|reflexivity].
  cbn [mbind result_bind].
  change (fun p => pred0 ← predict warp (base r) p; loss arith (base r) pred0)
    with (epoch_loss warp arith (base r)).
  destruct (adam_step o (parameters r)
              (autograd (epoch_loss warp arith (base r)) (parameters r)))
    as [o' p'].
  reflexivity.
Qed.

Lemma updated_shift (b : AlignmentRefiner OptState) k op :
  updated b k (update adam_step autograd warp arith b op)
  = updated b (S k) op.
Proof.
  unfold after_updates. rewrite Nat.iter_succ_r. reflexivity.
Qed.

(** The runs of the loop that return. *)
Lemma epochs_spec (n : nat) :
  forall (r : refiner OptState) (o : OptState) st' calls,
    epochs adam_step autograd warp arith n (r, o) = Ok (st', calls) ->
    exists losses,
      length losses = n
      /\ (forall k l, losses !! k = Some l ->
            loss_of (base r) (snd (updated (base r) k (o, parameters r)))
            = Ok l)
      /\ loss_history (fst st') = loss_history r ++ losses
      /\ (snd st', parameters (fst st'))
         = updated (base r) n (o, parameters r)
      /\ calls = flat_map epoch_calls losses
      /\ reference (base (fst st')) = reference (base r)
      /\ to_align (base (fst st')) = to_align (base r)
      /\ weight (base (fst st')) = weight (base r)
      /\ (n = 0%nat -> fst st' = r)
      /\ (n <> 0%nat -> optimizer_slot (base (fst st')) = Some (snd st')).
Proof.
  induction n as [|n IH]; intros r o st' calls H.
  - cbn in H. injection H as <- <-. exists []. cbn.
    rewrite app_nil_r. repeat split; try reflexivity; try discriminate.
    contradiction.
  - cbn [epochs] in H. rewrite epoch_unfold in H.
    destruct (loss_of (base r) (parameters r)) as [l|e] eqn:El;
      [|discriminate].
    cbv zeta in H. cbn [mbind result_bind] in H.
    set (op := update adam_step autograd warp arith (base r)
                 (o, parameters r)) in *.
    set (r1 := {| base := _; parameters := snd op |}) in H.
    destruct (epochs adam_step autograd warp arith n (r1, fst op))
      as [[st2 c2]|e] eqn:E2; [|discriminate].
    cbn [mbind result_bind] in H. injection H as <- <-.
    apply IH in E2
      as (ls & Hlen & Hls & Hh & Hfin & Hc & Hr & Ht & Hw & Hzero & Hslot).
    assert (Hb : forall k x,
              updated (base r1) k x = updated (base r) k x).
    { intros k x. apply after_updates_tensors; reflexivity. }
    assert (Hl : loss_of (base r1) = loss_of (base r))
      by (apply epoch_loss_tensors; reflexivity).
    assert (Hop : (fst op, parameters r1) = op) by (destruct op; reflexivity).
    rewrite Hop in Hls, Hfin.
    exists (l :: ls). split; [cbn; lia|]. split; [|split; [|split]].
    + intros [|k] l' Hk.
      * injection Hk as <-. exact El.
      * rewrite <- updated_shift. fold op. rewrite <- Hb, <- Hl.
        apply Hls. exact Hk.
    + rewrite Hh. unfold loss_history at 1. cbn [r1 base history].
      unfold history_append. rewrite lookup_insert_eq.
      change (default [] (Some ?x)) with x.
      fold (loss_history r). rewrite <- app_assoc. reflexivity.
    + rewrite Hfin, Hb. apply updated_shift.
    + split; [rewrite Hc; reflexivity|].
      split; [exact Hr|]. split; [exact Ht|]. split; [exact Hw|].
      split; [discriminate|]. intros _.
      destruct n as [|n'].
      * rewrite (Hzero eq_refl). apply (f_equal fst) in Hfin.
        cbn in Hfin. rewrite Hfin. reflexivity.
      * apply Hslot. discriminate.
Qed.

(** The runs of the loop that raise: the exception is that of the first
    epoch whose forward pass or loss evaluation raises. *)
Lemma epochs_raise (n : nat) :
  forall (r : refiner OptState) (o : OptState) e,
    epochs adam_step autograd warp arith n (r, o) = Raise e ->
    exists k,
      (k < n)%nat
      /\ loss_of (base r) (snd (updated (base r) k (o, parameters r)))
         = Raise e
      /\ forall j, (j < k)%nat ->
           exists l,
             loss_of (base r) (snd (updated (base r) j (o, parameters r)))
             = Ok l.
Proof.
  induction n as [|n IH]; intros r o e H; [discriminate|].
  cbn [epochs] in H. rewrite epoch_unfold in H.
  destruct (loss_of (base r) (parameters r)) as [l|e0] eqn:El.
  - cbv zeta in H. cbn [mbind result_bind] in H.
    set (op := update adam_step autograd warp arith (base r)
                 (o, parameters r)) in *.
    set (r1 := {| base := _; parameters := snd op |}) in H.
    destruct (epochs adam_step autograd warp arith n (r1, fst op))
      as [[st2 c2]|e1] eqn:E2; [discriminate|].
    cbn [mbind result_bind] in H. injection H as ->.
    apply IH in E2 as (k & Hk & Hraise & Hbefore).
    assert (Hb : forall k x,
              updated (base r1) k x = updated (base r) k x).
    { intros k' x. apply after_updates_tensors; reflexivity. }
    assert (Hl : loss_of (base r1) = loss_of (base r))
      by (apply epoch_loss_tensors; reflexivity).
    assert (Hop : (fst op, parameters r1) = op) by (destruct op; reflexivity).
    rewrite Hop, Hb, Hl in Hraise.
    exists (S k). split; [lia|]. split.
    + rewrite <- updated_shift. exact Hraise.
    + intros [|j] Hj; [exists l; exact El|].
      destruct (Hbefore j) as [l' Hl']; [lia|].
      rewrite Hop, Hb, Hl in Hl'.
      exists l'. rewrite <- updated_shift. exact Hl'.
  - cbn [mbind result_bind] in H. injection H as ->.
    exists 0%nat. split; [lia|]. split; [exact El|].
    intros j Hj. lia.
Qed.

Lemma optimizer_spec (r : refiner OptState) :
  parameters (snd (optimizer adam_new r)) = parameters r
  /\ reference (base (snd (optimizer adam_new r))) = reference (base r)
  /\ to_align (base (snd (optimizer adam_new r))) = to_align (base r)
  /\ weight (base (snd (optimizer adam_new r))) = weight (base r)
  /\ loss_history (snd (optimizer adam_new r)) = loss_history r
  /\ optimizer_slot (base (snd (optimizer adam_new r)))
     = Some (fst (optimizer adam_new r)).
Proof.
  unfold optimizer.
  destruct (optimizer_slot (base r)) as [o|] eqn:E; cbn; auto 10.
Qed.

(** [train] raises nothing of its own: its exceptions are those of the
    forward pass (the library) and of the broadcast in the loss. *)
Lemma loss_of_errors (b : AlignmentRefiner OptState) p e :
  loss_of b p = Raise e -> e = LibraryError \/ e = RuntimeError.
Proof.
  unfold epoch_loss, predict, library, loss, broadcast2.
  destruct (warp p (to_align b)) as [t|]; cbn [mbind result_bind];
    [|intros [= <-]; auto].
  repeat match goal with
         | |- context [match ?x with _ => _ end] =>
             destruct x; cbn [mbind result_bind]
         end; first [discriminate | intros [= <-]; auto].
Qed.

Lemma train_unfold (N : Z) (r : refiner OptState) :
  train adam_new adam_step autograd warp arith N r
  = match epochs adam_step autograd warp arith (Z.to_nat N)
            (snd (optimizer adam_new r), fst (optimizer adam_new r)) with
    | Ok ((r', _), calls) => Ok (r', calls)
    | Raise e => Raise e
    end.
Proof.
  unfold train. destruct (optimizer adam_new r) as [o r0]. cbn [fst snd].
  destruct (epochs adam_step autograd warp arith (Z.to_nat N) (r0, o))
    as [[[r' o'] calls]|e]; reflexivity.
Qed.

(** C5.  For every N >= 0, [train N] runs exactly N epochs and no check
    stops it early.  Epoch k makes one forward pass and one loss
    evaluation at the parameters left by the k updates before it, appends
    that loss to the history and makes one optimizer update along the
    gradient of that loss.  So a call that returns has appended exactly N
    losses, whatever their values (NaN included), and leaves the
    parameters and the optimizer state of N updates; its calls are N
    repetitions of forward pass, loss evaluation, append, gradient reset,
    backpropagation and optimizer step.  The call returns exactly when
    none of the N forward passes and loss evaluations raises; otherwise
    the exception of the first one that does ends the call. *)
Theorem train_runs_exactly_n_epochs (N : Z) (r : refiner OptState) :
  (0 <= N)%Z ->
  let start := (fst (optimizer adam_new r), parameters r) in
  let loss_at (k : nat) := loss_of (base r) (snd (updated (base r) k start)) in
  ((exists out, train adam_new adam_step autograd warp arith N r = Ok out)
   <-> forall k, (Z.of_nat k < N)%Z -> exists l, loss_at k = Ok l)
  /\ (forall r' calls,
        train adam_new adam_step autograd warp arith N r = Ok (r', calls) ->
        exists losses : list npfloat,
          Z.of_nat (length losses) = N
          /\ (forall k l, losses !! k = Some l -> loss_at k = Ok l)
          /\ loss_history r' = loss_history r ++ losses
          /\ (optimizer_slot (base r'), parameters r')
             = (Some (fst (updated (base r) (Z.to_nat N) start)),
                snd (updated (base r) (Z.to_nat N) start))
          /\ calls = flat_map epoch_calls losses
          /\ reference (base r') = reference (base r)
          /\ to_align (base r') = to_align (base r)
          /\ weight (base r') = weight (base r))
  /\ (forall e,
        train adam_new adam_step autograd warp arith N r = Raise e ->
        exists k,
          (Z.of_nat k < N)%Z
          /\ loss_at k = Raise e
          /\ forall j, (j < k)%nat -> exists l, loss_at j = Ok l).
Proof.
  intros HN start loss_at. subst start loss_at. rewrite train_unfold.
  destruct (optimizer_spec r) as (Hp & Hr & Ht & Hw & Hh & Hs).
  set (o := fst (optimizer adam_new r)) in *.
  set (r0 := snd (optimizer adam_new r)) in *.
  assert (Hb : forall k x, updated (base r0) k x = updated (base r) k x)
    by (intros k x; apply after_updates_tensors; assumption).
  assert (Hl : loss_of (base r0) = loss_of (base r))
    by (apply epoch_loss_tensors; assumption).
  destruct (epochs adam_step autograd warp arith (Z.to_nat N) (r0, o))
    as [[[r1 o1] calls1]|e1] eqn:E.
  - apply epochs_spec in E
      as (ls & Hlen & Hls & Hhist & Hfin & Hc & Hr1 & Ht1 & Hw1 & Hzero
          & Hslot).
    cbn [fst snd] in *. rewrite Hp, Hb in Hfin.
    assert (Hat : forall k l, ls !! k = Some l ->
              loss_of (base r) (snd (updated (base r) k (o, parameters r)))
              = Ok l).
    { intros k l Hk. specialize (Hls k l Hk).
      rewrite Hl, Hb, Hp in Hls. exact Hls. }
    split; [split|split].
    + intros _ k Hk. destruct (lookup_lt_is_Some_2 ls k) as [l Hk']; [lia|].
      exists l. apply Hat, Hk'.
    + intros _. eauto.
    + intros r' calls [= <- <-]. exists ls.
      split; [lia|]. split; [exact Hat|].
      split; [rewrite Hhist, Hh; reflexivity|].
      split; [|repeat split; congruence].
      rewrite <- Hfin. cbn [fst snd]. f_equal.
      destruct (Z.to_nat N) as [|n] eqn:En.
      * rewrite (Hzero eq_refl), Hs. apply (f_equal fst) in Hfin.
        cbn in Hfin. rewrite Hfin. reflexivity.
      * apply Hslot. discriminate.
    + intros e He. discriminate.
  - apply epochs_raise in E as (k & Hk & Hraise & Hbefore).
    rewrite Hl, Hb, Hp in Hraise.
    split; [split|split].
    + intros [out H]. discriminate.
    + intros Hall. destruct (Hall k) as [l Hk']; [lia|]. congruence.
    + intros r' calls H. discriminate.
    + intros e [= <-]. exists k. split; [lia|]. split; [exact Hraise|].
      intros j Hj. destruct (Hbefore j Hj) as [l Hj'].
      rewrite Hl, Hb, Hp in Hj'. eauto.
Qed.

End Training.

Section Driver.

Context {OptState Grad : Type}.
Variable adam_new : params -> OptState.
Variable adam_step : OptState -> params -> Grad -> OptState * params.
Variable autograd : (params -> result npfloat) -> params -> Grad.
Variable warp : params -> list (list npfloat) -> option (list (list npfloat)).
Variable arith : torch_arith.
Variable UNS_SPATIAL_ALIGNMENT_KEY : string.

Lemma transform_layer_spec p adata layer adata' :
  transform_layer warp p adata layer = Ok adata' ->
  exists data v,
    layers adata !! layer = Some data
    /\ transformed_value warp p data = Ok v
    /\ layers adata' = <[layer := v]> (layers adata)
    /\ uns_spatial adata' = uns_spatial adata.
Proof.
  unfold transform_layer, transformed_value, select_layer_data. intros H.
  destruct (layers adata !! layer) as [data|] eqn:E; [|discriminate].
  cbn [mbind result_bind] in H.
  destruct (transform warp data p) as [t|] eqn:Et; [|discriminate].
  cbn [mbind result_bind] in H. injection H as <-.
  exists data. eexists. split; [reflexivity|].
  split; [rewrite Et; reflexivity|]. split; reflexivity.
Qed.

(** The loop rewrites a layer once per occurrence of its name and touches
    nothing else. *)
Lemma transform_loop_spec p ls : forall adata adata',
  transform_loop warp p adata ls = Ok adata' ->
  uns_spatial adata' = uns_spatial adata
  /\ (forall l, l ∈ ls -> is_Some (layers adata !! l))
  /\ (forall l,
        match layers adata !! l with
        | Some data =>
            exists v,
              iterate (occurrences l ls) (transformed_value warp p) data
              = Ok v
              /\ layers adata' !! l = Some v
        | None => layers adata' !! l = None
        end).
Proof.
  induction ls as [|l0 ls IH]; intros adata adata' H.
  - injection H as <-. split; [reflexivity|]. split.
    + intros l Hl. inversion Hl.
    + intros l. destruct (layers adata !! l) as [d|]; [|reflexivity].
      exists d. split; reflexivity.
  - cbn [transform_loop] in H.
    destruct (transform_layer warp p adata l0) as [a1|e] eqn:E1;
      [|discriminate].
    cbn in H. apply IH in H as (Hu & Hsome & Hl).
    apply transform_layer_spec in E1 as (data & v0 & Hd & Hv0 & Hl1 & Hu1).
    split; [congruence|]. split.
    + intros l Hin. apply elem_of_cons in Hin as [->|Hin].
      * rewrite Hd. eauto.
      * specialize (Hsome l Hin). rewrite Hl1 in Hsome.
        destruct (decide (l0 = l)) as [->|Hne].
        -- rewrite Hd. eauto.
        -- rewrite lookup_insert_ne in Hsome by exact Hne. exact Hsome.
    + intros l. specialize (Hl l). rewrite Hl1 in Hl.
      unfold occurrences. rewrite filter_cons.
      destruct (decide (l0 = l)) as [->|Hne].
      * rewrite lookup_insert_eq in Hl. rewrite Hd.
        destruct Hl as (v & Hv & Hlook). exists v.
        split; [|exact Hlook].
        cbn [length iterate]. rewrite Hv0. exact Hv.
      * rewrite lookup_insert_ne in Hl by exact Hne. exact Hl.
Qed.

Lemma occurrences_not_in (l : string) ls : l ∉ ls -> occurrences l ls = 0%nat.
Proof.
  intros Hn. unfold occurrences.
  destruct (filter (fun x => x = l) ls) as [|x rest] eqn:E; [reflexivity|].
  exfalso. assert (Hx : x ∈ filter (fun x => x = l) ls)
    by (rewrite E; apply list_elem_of_here).
  apply list_elem_of_filter in Hx as [-> Hx]. exact (Hn Hx).
Qed.

(** C8.  When [refine_alignment] returns, the refiner was trained (the
    training returned) and its final parameters are stored under the one
    alignment key, no other metadata slot changing; a layer not named in
    [transform_layers] is untouched; a layer named there held data before
    the call and now holds the transform of it (once per occurrence of
    its name), re-binarized at the 0.5 threshold if the data is boolean
    and continuous otherwise; and with [transform_layers] absent or empty
    no layer changes at all. *)
Theorem refine_alignment_frame
    (adata : AnnData) (stain_layer rna_layer mode : string) (n_epochs : Z)
    (transform_layers : option (list string)) (kw : kwargs)
    (adata' : AnnData) :
  refine_alignment adam_new adam_step autograd warp arith
    UNS_SPATIAL_ALIGNMENT_KEY
    adata stain_layer rna_layer mode n_epochs transform_layers kw
  = Ok adata' ->
  exists (stain_mask rna_mask : ndarray) (aligner trained : refiner OptState)
         (calls : list call),
    let p := get_params trained in
    select_layer_data adata (resolve_layer adata stain_layer) = Ok stain_mask
    /\ select_layer_data adata (resolve_layer adata rna_layer) = Ok rna_mask
    /\ construct OptState mode rna_mask stain_mask kw = Ok aligner
    /\ train adam_new adam_step autograd warp arith n_epochs aligner
       = Ok (trained, calls)
    /\ uns_spatial adata'
       = <[UNS_SPATIAL_ALIGNMENT_KEY := p]> (uns_spatial adata)
    /\ (forall l, l ∉ default [] transform_layers ->
                  layers adata' !! l = layers adata !! l)
    /\ (forall l, l ∈ default [] transform_layers ->
          exists data v,
            layers adata !! l = Some data
            /\ iterate (occurrences l (default [] transform_layers))
                 (transformed_value warp p) data = Ok v
            /\ layers adata' !! l = Some v)
    /\ (forall data,
          transformed_value warp p data
          = match warp p (to_float data) with
            | None => Raise LibraryError
            | Some t =>
                Ok (if bool_decide (arr_dtype data = DBool)
                    then BoolArr
                           (map (map (fun x => np_gt x (Fin (Q2Qc (1 # 2)))))
                              t)
                    else FloatArr t)
            end)
    /\ (transform_layers = None \/ transform_layers = Some [] ->
        layers adata' = layers adata).
Proof.
  unfold refine_alignment. intros H.
  destruct (bool_decide (mode ∉ ["rigid"; "non-rigid"]%string));
    [discriminate|].
  destruct (select_layer_data adata (resolve_layer adata stain_layer))
    as [stain_mask|] eqn:Es; [|discriminate].
  destruct (select_layer_data adata (resolve_layer adata rna_layer))
    as [rna_mask|] eqn:Er; [|discriminate].
  cbn [mbind result_bind] in H.
  destruct (construct OptState mode rna_mask stain_mask kw)
    as [aligner|] eqn:Ec; [|discriminate].
  cbn [mbind result_bind] in H.
  destruct (train adam_new adam_step autograd warp arith n_epochs aligner)
    as [[trained calls]|] eqn:Et; [|discriminate].
  cbn [mbind result_bind fst] in H.
  exists stain_mask, rna_mask, aligner, trained, calls.
  set (p := get_params trained) in *.
  split; [reflexivity|]. split; [reflexivity|]. split; [exact Ec|].
  split; [exact Et|].
  set (adata1 := set_uns_spatial_attribute adata UNS_SPATIAL_ALIGNMENT_KEY p)
    in H.
  assert (Hloop : transform_loop warp p adata1 (default [] transform_layers)
                  = Ok adata').
  { destruct transform_layers as [[|l ls]|]; exact H. }
  apply transform_loop_spec in Hloop as (Hu & Hsome & Hl).
  split; [exact Hu|]. split; [|split; [|split]].
  - intros l Hn. specialize (Hl l).
    rewrite (occurrences_not_in _ _ Hn) in Hl.
    cbn [adata1 set_uns_spatial_attribute layers] in Hl.
    destruct (layers adata !! l) as [d|]; [|exact Hl].
    destruct Hl as (v & [= <-] & Hlook). exact Hlook.
  - intros l Hin. destruct (Hsome l Hin) as [data Hd].
    specialize (Hl l). rewrite Hd in Hl.
    destruct Hl as (v & Hv & Hlook). exists data, v.
    split; [exact Hd|]. split; [exact Hv | exact Hlook].
  - intros data. unfold transformed_value, transform, library.
    destruct (warp p (to_float data)); reflexivity.
  - intros Hnone. apply map_eq. intros l. specialize (Hl l).
    cbn [adata1 set_uns_spatial_attribute layers] in Hl.
    assert (Hocc : occurrences l (default [] transform_layers) = 0%nat)
      by (destruct Hnone as [-> | ->]; reflexivity).
    rewrite Hocc in Hl.
    destruct (layers adata !! l) as [d|]; [|exact Hl].
    destruct Hl as (v & [= <-] & Hlook). exact Hlook.
Qed.

End Driver.

(** *** The theorems at concrete inputs *)

Section Witnesses.
Import Samples.

Lemma weight_map_class_balanced_witness :
  (0 < count_true mask_a)%nat /\ (0 < count_false mask_a)%nat
  /\ exists r : AlignmentRefiner unit,
       snd (AlignmentRefiner_init unit (BoolArr mask_a) (BoolArr mask_full))
       = Ok r
       /\ cell (weight r) 0 0
          = Some (Fin (natQc (arr_size mask_a) / (2 * natQc (count_true mask_a))))
       /\ cell (weight r) 1 0
          = Some (Fin (natQc (arr_size mask_a) / (2 * natQc (count_false mask_a))))
       /\ class_sum true mask_a (weight r) = Fin (natQc (arr_size mask_a) / 2)
       /\ class_sum false mask_a (weight r) = Fin (natQc (arr_size mask_a) / 2).
Proof.
  assert (Ht : (0 < count_true mask_a)%nat) by (vm_compute; lia).
  assert (Hf : (0 < count_false mask_a)%nat) by (vm_compute; lia).
  split; [exact Ht|]. split; [exact Hf|].
  destruct (weight_map_class_balanced (OptState := unit) mask_a mask_full)
    as (r & Hr & Hfg & Hbg & Hsum).
  exists r. split; [exact Hr|].
  split; [apply Hfg; reflexivity|].
  split; [apply Hbg; reflexivity|].
  exact (Hsum Ht Hf).
Defined.

Lemma single_class_weight_map_witness :
  count_false mask_full = 0%nat
  /\ exists r : AlignmentRefiner unit,
       snd (AlignmentRefiner_init unit (BoolArr mask_full) (BoolArr mask_a))
       = Ok r
       /\ is_finite
            (np_divide (np_of_nat (arr_size mask_full))
               (np_of_nat (2 * count_false mask_full))) = false
       /\ (forall i j w, cell (weight r) i j = Some w ->
                         w = Fin (Q2Qc (1 # 2)))
       /\ class_sum true mask_full (weight r)
          = Fin (natQc (arr_size mask_full) / 2)
       /\ class_sum false mask_full (weight r) = Fin 0.
Proof.
  split; [reflexivity|].
  apply (single_class_weight_map (OptState := unit) true mask_full mask_a).
  reflexivity.
Defined.

Lemma constructor_rejects_non_boolean_witness :
  (arr_dtype (IntArr [[1%Z]]) <> DBool \/ arr_dtype (BoolArr mask_a) <> DBool)
  /\ AlignmentRefiner_init unit (IntArr [[1%Z]]) (BoolArr mask_a)
     = ([], Raise (PreprocessingError only_bool_msg))
  /\ NonRigidAlignmentRefiner_init unit (IntArr [[1%Z]]) (BoolArr mask_a) 1000
     = ([], Raise (PreprocessingError only_bool_msg))
  /\ RigidAlignmentRefiner_init unit (IntArr [[1%Z]]) (BoolArr mask_a) None
     = ([], Raise (PreprocessingError only_bool_msg)).
Proof.
  assert (Hnb : arr_dtype (IntArr [[1%Z]]) <> DBool
                \/ arr_dtype (BoolArr mask_a) <> DBool)
    by (left; discriminate).
  split; [exact Hnb|].
  exact (proj2 (proj2 (proj2
           (constructor_rejects_non_boolean (OptState := unit)
              (IntArr [[1%Z]]) (BoolArr mask_a) 1000 None))) Hnb).
Defined.

Lemma train_runs_exactly_n_epochs_witness :
  (0 <= 2)%Z
  /\ (let start := (fst (optimizer adam_new0 refiner_a),
                    parameters refiner_a) in
      let loss_at (k : nat) :=
        epoch_loss warp_nan exact_arith (base refiner_a)
          (snd (after_updates adam_step0 autograd0 warp_nan exact_arith
                  (base refiner_a) k start)) in
      ((exists out,
          train adam_new0 adam_step0 autograd0 warp_nan exact_arith 2
            refiner_a = Ok out)
       <-> forall k, (Z.of_nat k < 2)%Z -> exists l, loss_at k = Ok l)
      /\ (forall r' calls,
            train adam_new0 adam_step0 autograd0 warp_nan exact_arith 2
              refiner_a = Ok (r', calls) ->
            exists losses : list npfloat,
              Z.of_nat (length losses) = 2%Z
              /\ (forall k l, losses !! k = Some l -> loss_at k = Ok l)
              /\ loss_history r' = loss_history refiner_a ++ losses
              /\ (optimizer_slot (base r'), parameters r')
                 = (Some (fst (after_updates adam_step0 autograd0 warp_nan
                                 exact_arith (base refiner_a) (Z.to_nat 2)
                                 start)),
                    snd (after_updates adam_step0 autograd0 warp_nan
                           exact_arith (base refiner_a) (Z.to_nat 2) start))
              /\ calls = flat_map epoch_calls losses
              /\ reference (base r') = reference (base refiner_a)
              /\ to_align (base r') = to_align (base refiner_a)
              /\ weight (base r') = weight (base refiner_a))
      /\ (forall e,
            train adam_new0 adam_step0 autograd0 warp_nan exact_arith 2
              refiner_a = Raise e ->
            exists k,
              (Z.of_nat k < 2)%Z
              /\ loss_at k = Raise e
              /\ forall j, (j < k)%nat -> exists l, loss_at j = Ok l)).
Proof.
  assert (H : (0 <= 2)%Z) by lia.
  split; [exact H|].
  exact (train_runs_exactly_n_epochs adam_new0 adam_step0 autograd0 warp_nan
           exact_arith 2 refiner_a H).
Defined.

(** Two epochs of a diverged forward pass record two NaN losses. *)
Example train_records_nan :
  exists r',
    train adam_new0 adam_step0 autograd0 warp_nan exact_arith 2 refiner_a
    = Ok (r', epoch_calls NaN ++ epoch_calls NaN)
    /\ loss_history r' = [NaN; NaN].
Proof. eexists. split; vm_compute; reflexivity. Qed.

(** A negative epoch count is an empty range. *)
Example train_negative_count :
  train adam_new0 adam_step0 autograd0 warp_id exact_arith (-3) refiner_a
  = Ok (snd (optimizer adam_new0 refiner_a), []).
Proof. reflexivity. Qed.

(** A 3 x 3 prediction cannot be broadcast against a 2 x 2 reference: the
    first loss evaluation raises, and so does [train]. *)
Example train_shape_mismatch :
  train adam_new0 adam_step0 autograd0 warp_id exact_arith 1 refiner_3x3
  = Raise RuntimeError.
Proof. vm_compute. reflexivity. Qed.

(** An exception inside the resampling ends the call in its first epoch. *)
Example train_library_raises :
  train adam_new0 adam_step0 autograd0 warp_raises exact_arith 5 refiner_a
  = Raise LibraryError.
Proof. vm_compute. reflexivity. Qed.

Lemma refine_alignment_frame_witness :
  refined_a = Ok adata_a'
  /\ exists (stain_mask rna_mask : ndarray) (aligner trained : refiner unit)
            (calls : list call),
       let p := get_params trained in
       select_layer_data adata_a (resolve_layer adata_a "stain") = Ok stain_mask
       /\ select_layer_data adata_a (resolve_layer adata_a "unspliced")
          = Ok rna_mask
       /\ construct unit "rigid" rna_mask stain_mask no_kwargs = Ok aligner
       /\ train adam_new0 adam_step0 autograd0 warp_id exact_arith 2 aligner
          = Ok (trained, calls)
       /\ uns_spatial adata_a' = <["alignment"%string := p]> (uns_spatial adata_a)
       /\ (forall l, l ∉ default [] (Some ["density"; "nuclei"]%string) ->
                     layers adata_a' !! l = layers adata_a !! l)
       /\ (forall l, l ∈ default [] (Some ["density"; "nuclei"]%string) ->
             exists data v,
               layers adata_a !! l = Some data
               /\ iterate
                    (occurrences l
                       (default [] (Some ["density"; "nuclei"]%string)))
                    (transformed_value warp_id p) data = Ok v
               /\ layers adata_a' !! l = Some v)
       /\ (forall data,
             transformed_value warp_id p data
             = match warp_id p (to_float data) with
               | None => Raise LibraryError
               | Some t =>
                   Ok (if bool_decide (arr_dtype data = DBool)
                       then BoolArr
                              (map (map (fun x =>
                                           np_gt x (Fin (Q2Qc (1 # 2))))) t)
                       else FloatArr t)
               end)
       /\ (Some ["density"; "nuclei"]%string = None
           \/ Some ["density"; "nuclei"]%string = Some [] ->
           layers adata_a' = layers adata_a).
Proof.
  assert (H : refined_a = Ok adata_a') by (vm_compute; reflexivity).
  split; [exact H|].
  exact (refine_alignment_frame adam_new0 adam_step0 autograd0 warp_id
           exact_arith "alignment" adata_a "stain" "unspliced" "rigid" 2
           (Some ["density"; "nuclei"]%string) no_kwargs adata_a' H).
Defined.

(** In the sample dataset the continuous layer keeps its values, the
    boolean layer is thresholded, and the two masks are untouched. *)
Example refined_a_layers :
  layers adata_a' !! "density"%string
  = Some (FloatArr [[Fin (Q2Qc (3 # 4)); Fin (Q2Qc (1 # 4))]])
  /\ layers adata_a' !! "nuclei"%string = Some (BoolArr [[true; false]])
  /\ layers adata_a' !! "stain_mask"%string = Some (BoolArr mask_full)
  /\ layers adata_a' !! "unspliced"%string = Some (BoolArr mask_a)
  /\ uns_spatial adata_a' !! "alignment"%string
     = Some (RigidParams identity_theta).
Proof. repeat split; vm_compute; reflexivity. Qed.

End Witnesses.

End RefinerProofs.

(* ===================================================================== *)
(** ** Properties of the reconstruction *)
(* ===================================================================== *)

Module ReconstructionProofs.
Import Reconstruction NumericFacts.

(** *** 2 x 2 matrix algebra *)

Lemma M22_eq (A B : M22) :
  m00 A = m00 B -> m01 A = m01 B -> m10 A = m10 B -> m11 A = m11 B -> A = B.
Proof. destruct A, B; simpl; intros; subst; reflexivity. Qed.

Ltac m22 := apply M22_eq; cbn [mmul mT I22 m00 m01 m10 m11]; ring.

Lemma mmul_assoc (A B C : M22) : mmul (mmul A B) C = mmul A (mmul B C).
Proof. m22. Qed.

Lemma mT_mmul (A B : M22) : mT (mmul A B) = mmul (mT B) (mT A).
Proof. m22. Qed.

Lemma mT_involutive (A : M22) : mT (mT A) = A.
Proof. m22. Qed.

Lemma mmul_I22_l (A : M22) : mmul I22 A = A.
Proof. m22. Qed.

Lemma mmul_I22_r (A : M22) : mmul A I22 = A.
Proof. m22. Qed.

Lemma det_mmul (A B : M22) : det (mmul A B) = det A * det B.
Proof. unfold det. cbn [mmul m00 m01 m10 m11]. ring. Qed.

Lemma det_mT (A : M22) : det (mT A) = det A.
Proof. unfold det. cbn [mT m00 m01 m10 m11]. ring. Qed.

Lemma det_I22 : det I22 = 1.
Proof. unfold det. cbn [I22 m00 m01 m10 m11]. ring. Qed.

Lemma orthogonal_mT (A : M22) : orthogonal A -> orthogonal (mT A).
Proof.
  intros [H1 H2]. split; rewrite mT_involutive; assumption.
Qed.

Lemma orthogonal_mmul (A B : M22) :
  orthogonal A -> orthogonal B -> orthogonal (mmul A B).
Proof.
  intros [A1 A2] [B1 B2]. split; rewrite mT_mmul.
  - rewrite mmul_assoc, <- (mmul_assoc B), B1, mmul_I22_l. exact A1.
  - rewrite mmul_assoc, <- (mmul_assoc (mT A)), A2, mmul_I22_l. exact B2.
Qed.

Lemma orthogonal_det (A : M22) : orthogonal A -> det A = 1 \/ det A = - (1).
Proof.
  intros [H _].
  assert (Hd : det A * det A = 1).
  { rewrite <- (det_mT A) at 2. rewrite <- det_mmul, H. apply det_I22. }
  assert (Hz : (det A - 1) * (det A + 1) = 0).
  { transitivity (det A * det A - 1); [ring|]. rewrite Hd. ring. }
  apply Qcmult_integral in Hz as [Hz|Hz]; [left | right].
  - transitivity (det A - 1 + 1); [ring|]. rewrite Hz. ring.
  - transitivity (det A + 1 - 1); [ring|]. rewrite Hz. ring.
Qed.

(** *** Associativity of the cross-covariance product *)



Lemma vdot_cons r col a rest :
  vdot (r :: col) (a :: rest)
  = (r * fst a + fst (vdot col rest), r * snd a + snd (vdot col rest)).
Proof. reflexivity. Qed.







Section Superposition.

Variable svd : M22 -> M22 * (Qc * Qc) * M22.

(** C3.  Whenever the two outer factors returned by the SVD of the
    cross-covariance are orthogonal, the matrix R = V . U^T of the
    superposition step is orthogonal (R . R^T and R^T . R are the identity)
    and its determinant is +1 or -1. *)
Theorem rotation_orthogonal (pi : mat) (rawA rawB : list point) :
  orthogonal (fst (fst (svd (cross_covariance pi rawA rawB)))) ->
  orthogonal (snd (svd (cross_covariance pi rawA rawB))) ->
  orthogonal (rotation svd pi rawA rawB)
  /\ (det (rotation svd pi rawA rawB) = 1
      \/ det (rotation svd pi rawA rawB) = - (1)).
Proof.
  unfold rotation.
  destruct (svd (cross_covariance pi rawA rawB)) as [[U S_] Vt].
  cbn [fst snd]. intros HU HVt.
  assert (HR : orthogonal (mmul (mT Vt) (mT U)))
    by (apply orthogonal_mmul; apply orthogonal_mT; assumption).
  split; [exact HR | exact (orthogonal_det _ HR)].
Qed.


End Superposition.

(** *** Uniform marginals and the product plan *)

Lemma uniform_repeat n : uniform n = repeat (1 / natQc n) n.
Proof.
  unfold uniform. generalize (natQc n) as d. intros d.
  induction n as [|k IH]; [reflexivity|].
  cbn [repeat map]. rewrite IH. reflexivity.
Qed.

Lemma vsum_repeat (x : Qc) n : vsum (repeat x n) = natQc n * x.
Proof.
  induction n as [|n IH]; cbn [repeat vsum foldr].
  - rewrite natQc_0. ring.
  - fold (vsum (repeat x n)). rewrite IH, natQc_S. ring.
Qed.

Lemma uniform_probability n : (0 < n)%nat -> probability_vector (uniform n).
Proof.
  intros Hn. rewrite uniform_repeat. split.
  - apply Forall_forall. intros x Hx.
    apply list_elem_of_In, repeat_spec in Hx as ->.
    unfold Qcdiv. rewrite Qcmult_1_l.
    apply Qclt_le_weak, Qcinv_pos, natQc_pos, Hn.
  - rewrite vsum_repeat. field. apply natQc_neq0, Hn.
Qed.

Lemma uniform_length n : length (uniform n) = n.
Proof. rewrite uniform_repeat. apply repeat_length. Qed.

Lemma vsum_scale (c : Qc) (q : vec) :
  vsum (map (fun x => c * x) q) = c * vsum q.
Proof.
  induction q as [|x q IH]; cbn [map vsum foldr].
  - ring.
  - fold (vsum (map (fun x => c * x) q)). fold (vsum q). rewrite IH. ring.
Qed.

Lemma outer_col_sums (p q : vec) :
  foldr (zip_with Qcplus) (repeat 0 (length q)) (outer p q)
  = map (fun x => vsum p * x) q.
Proof.
  induction p as [|c p IH]; cbn [outer map foldr].
  - induction q as [|x q IHq]; cbn [length repeat map vsum foldr];
      [reflexivity|].
    f_equal; [ring | exact IHq].
  - fold (outer p q). rewrite IH. cbn [vsum foldr]. fold (vsum p).
    clear IH. induction q as [|x q IHq]; cbn [map zip_with]; [reflexivity|].
    f_equal; [ring | exact IHq].
Qed.

Lemma map_id_ext {A} (f : A -> A) (l : list A) :
  (forall x, f x = x) -> map f l = l.
Proof.
  intros H. induction l as [|x l IH]; cbn [map]; [reflexivity|].
  rewrite H, IH. reflexivity.
Qed.

(** The product plan [p q^T] of two probability vectors lies in their
    transport polytope. *)
Lemma outer_is_coupling (p q : vec) :
  probability_vector p -> probability_vector q -> is_coupling p q (outer p q).
Proof.
  intros [Hp Sp] [Hq Sq]. constructor.
  - apply length_map.
  - apply Forall_forall. intros row Hrow.
    apply list_elem_of_In, in_map_iff in Hrow as (c & <- & _).
    apply length_map.
  - apply Forall_forall. intros row Hrow.
    apply list_elem_of_In, in_map_iff in Hrow as (c & <- & Hc).
    apply Forall_forall. intros y Hy.
    apply list_elem_of_In, in_map_iff in Hy as (x & <- & Hx).
    apply Qcmult_nonneg_nonneg.
    + rewrite Forall_forall in Hp. apply Hp, list_elem_of_In, Hc.
    + rewrite Forall_forall in Hq. apply Hq, list_elem_of_In, Hx.
  - unfold sum_axis1, outer. rewrite map_map.
    apply map_id_ext. intros c. rewrite vsum_scale, Sq. ring.
  - unfold sum_axis0.
    assert (Hs : shape1 (outer p q) = length q).
    { destruct p as [|c p]; [|apply length_map].
      exfalso. cbn in Sp. discriminate Sp. }
    rewrite Hs, outer_col_sums.
    apply map_id_ext. intros x. rewrite Sp. ring.
Qed.

(** *** The transport polytope is closed under conditional-gradient steps *)

Section Polytope.

Variable tau : Qc.
Hypothesis tau_lo : 0 <= tau.
Hypothesis tau_hi : tau <= 1.

Let f (g c : Qc) : Qc := g + tau * (c - g).

Lemma step_fixpoint (x : Qc) : f x x = x.
Proof. unfold f. ring. Qed.

Lemma step_nonneg (g c : Qc) : 0 <= g -> 0 <= c -> 0 <= f g c.
Proof.
  intros Hg Hc. unfold f.
  replace (g + tau * (c - g)) with ((1 - tau) * g + tau * c) by ring.
  apply Qcplus_nonneg_nonneg; apply Qcmult_nonneg_nonneg; try assumption.
  apply Qcle_minus_iff in tau_hi. exact tau_hi.
Qed.

Lemma zip_with_step_same (l : vec) : zip_with f l l = l.
Proof.
  induction l as [|x l IH]; cbn [zip_with]; [reflexivity|].
  rewrite step_fixpoint, IH. reflexivity.
Qed.

Lemma row_step_nonneg (r rc : vec) :
  Forall (Qcle 0) r -> Forall (Qcle 0) rc -> Forall (Qcle 0) (zip_with f r rc).
Proof.
  intros Hr. revert rc. induction Hr as [|g r Hg _ IH]; intros rc Hrc.
  - constructor.
  - destruct Hrc as [|c rc Hc Hrc]; cbn [zip_with]; constructor.
    + apply step_nonneg; assumption.
    + apply IH, Hrc.
Qed.

Lemma row_step_sum (r rc : vec) :
  length rc = length r ->
  vsum (zip_with f r rc) = f (vsum r) (vsum rc).
Proof.
  revert rc. induction r as [|g r IH]; intros [|c rc] Hlen;
    try discriminate.
  - unfold f. cbn. ring.
  - cbn [zip_with vsum foldr]. fold (vsum (zip_with f r rc)).
    fold (vsum r). fold (vsum rc).
    rewrite IH by (simpl in Hlen; lia). unfold f. ring.
Qed.

Lemma zip_with_interchange (r : vec) : forall rc A Ac : vec,
  length rc = length r -> length A = length r -> length Ac = length r ->
  zip_with Qcplus (zip_with f r rc) (zip_with f A Ac)
  = zip_with f (zip_with Qcplus r A) (zip_with Qcplus rc Ac).
Proof.
  induction r as [|g r IH]; intros [|c rc] [|x A] [|y Ac] H1 H2 H3;
    try discriminate; [reflexivity|].
  cbn [zip_with]. rewrite IH by (simpl in *; lia).
  f_equal. unfold f. ring.
Qed.

Lemma columns_sum_length n (G : mat) :
  Forall (fun row => length row = n) G ->
  length (foldr (zip_with Qcplus) (repeat 0 n) G) = n.
Proof.
  induction 1 as [|row G Hrow _ IH]; cbn [foldr].
  - apply repeat_length.
  - rewrite length_zip_with, Hrow, IH. lia.
Qed.

Lemma update_col_sums n (G : mat) : forall Gc : mat,
  Forall (fun row => length row = n) G ->
  Forall (fun row => length row = n) Gc ->
  length Gc = length G ->
  foldr (zip_with Qcplus) (repeat 0 n) (cg_update tau G Gc)
  = zip_with f (foldr (zip_with Qcplus) (repeat 0 n) G)
               (foldr (zip_with Qcplus) (repeat 0 n) Gc).
Proof.
  induction G as [|r G IH]; intros [|rc Gc] HG HGc Hlen; try discriminate.
  - cbn. symmetry. apply zip_with_step_same.
  - apply Forall_cons in HG as [Hr HG]. apply Forall_cons in HGc as [Hrc HGc].
    cbn [cg_update zip_with foldr]. fold (cg_update tau G Gc).
    rewrite IH by (simpl in Hlen; auto with lia).
    apply zip_with_interchange.
    + congruence.
    + rewrite columns_sum_length by exact HG. congruence.
    + rewrite columns_sum_length by exact HGc. congruence.
Qed.

Lemma update_row_sums n (G : mat) : forall Gc : mat,
  Forall (fun row => length row = n) G ->
  Forall (fun row => length row = n) Gc ->
  sum_axis1 (cg_update tau G Gc)
  = zip_with f (sum_axis1 G) (sum_axis1 Gc).
Proof.
  induction G as [|r G IH]; intros [|rc Gc] HG HGc; try reflexivity.
  apply Forall_cons in HG as [Hr HG]. apply Forall_cons in HGc as [Hrc HGc].
  cbn [cg_update zip_with sum_axis1 map].
  fold (cg_update tau G Gc). fold (sum_axis1 (cg_update tau G Gc)).
  fold (sum_axis1 G). fold (sum_axis1 Gc).
  rewrite IH by assumption. rewrite row_step_sum by congruence.
  reflexivity.
Qed.

Lemma update_shape n (G : mat) : forall Gc : mat,
  Forall (fun row => length row = n) G ->
  Forall (fun row => length row = n) Gc ->
  Forall (fun row => length row = n) (cg_update tau G Gc).
Proof.
  induction G as [|r G IH]; intros [|rc Gc] HG HGc; try constructor.
  - apply Forall_cons in HG as [Hr _]. apply Forall_cons in HGc as [Hrc _].
    rewrite length_zip_with. lia.
  - apply Forall_cons in HG as [_ HG]. apply Forall_cons in HGc as [_ HGc].
    apply IH; assumption.
Qed.

Lemma update_nonneg (G : mat) : forall Gc : mat,
  Forall (Forall (Qcle 0)) G -> Forall (Forall (Qcle 0)) Gc ->
  Forall (Forall (Qcle 0)) (cg_update tau G Gc).
Proof.
  induction G as [|r G IH]; intros [|rc Gc] HG HGc; try constructor.
  - apply Forall_cons in HG as [Hr _]. apply Forall_cons in HGc as [Hrc _].
    apply row_step_nonneg; assumption.
  - apply Forall_cons in HG as [_ HG]. apply Forall_cons in HGc as [_ HGc].
    apply IH; assumption.
Qed.

Lemma coupling_shape1 (p q : vec) (G : mat) :
  probability_vector p -> is_coupling p q G -> shape1 G = length q.
Proof.
  intros [_ Sp] [Hr Hc _ _ _].
  destruct G as [|r G].
  - destruct p; [cbn in Sp; discriminate Sp | discriminate Hr].
  - apply Forall_cons in Hc as [Hrow _]. exact Hrow.
Qed.

(** A step of size [tau] in [[0, 1]] from one plan towards another stays
    in the transport polytope. *)
Lemma cg_update_coupling (p q : vec) (G Gc : mat) :
  probability_vector p ->
  is_coupling p q G -> is_coupling p q Gc ->
  is_coupling p q (cg_update tau G Gc).
Proof.
  intros Hp HG HGc.
  pose proof (coupling_shape1 _ _ _ Hp HG) as S1.
  pose proof (coupling_shape1 _ _ _ Hp HGc) as S2.
  destruct HG as [Hr Hc Hn Hrs Hcs]. destruct HGc as [Hr' Hc' Hn' Hrs' Hcs'].
  pose proof (update_shape _ _ _ Hc Hc') as Hshape.
  assert (Hlen : length (cg_update tau G Gc) = length p).
  { unfold cg_update. rewrite length_zip_with. lia. }
  constructor.
  - exact Hlen.
  - exact Hshape.
  - apply update_nonneg; assumption.
  - rewrite (update_row_sums _ _ _ Hc Hc'), Hrs, Hrs'.
    apply zip_with_step_same.
  - unfold sum_axis0 in *.
    assert (S3 : shape1 (cg_update tau G Gc) = length q).
    { destruct (cg_update tau G Gc) as [|r U] eqn:E.
      - destruct p; [destruct Hp as [_ Sp]; cbn in Sp; discriminate Sp
                    | discriminate Hlen].
      - apply Forall_cons in Hshape as [Hrow _]. exact Hrow. }
    rewrite S3, update_col_sums by (first [assumption | congruence]).
    rewrite S1 in Hcs. rewrite S2 in Hcs'. rewrite Hcs, Hcs'.
    apply zip_with_step_same.
Qed.

End Polytope.

(** A conditional-gradient scheme whose inner solver returns transport
    plans and whose steps lie in [[0, 1]] meets the contract assumed of
    [cg]: started from a plan, it returns a plan. *)
Lemma cg_scheme_contract
    (emd : vec -> vec -> list (list npfloat) -> Z -> mat)
    (line_search : mat -> mat -> Qc) (converged : mat -> mat -> bool) :
  emd_contract emd ->
  (forall G Gc, 0 <= line_search G Gc /\ line_search G Gc <= 1) ->
  cg_contract
    (fun a b M reg f df G0 numItermax numItermaxEmd C1 C2 constC armijo =>
       cg_scheme emd line_search converged (Z.to_nat numItermax)
         a b M reg df numItermaxEmd G0).
Proof.
  intros Hemd Hstep a b M reg _ df G0 numItermax numItermaxEmd _ _ _ _
         Ha Hb HG0.
  generalize (Z.to_nat numItermax) as fuel. intros fuel. revert G0 HG0.
  induction fuel as [|k IH]; intros G HG; cbn [cg_scheme]; [exact HG|].
  set (Gc := emd a b (linearize M reg (df G)) numItermaxEmd).
  assert (HGc : is_coupling a b Gc) by (apply Hemd; assumption).
  destruct (Hstep G Gc) as [Hlo Hhi].
  pose proof (cg_update_coupling _ Hlo Hhi a b G Gc Ha HG HGc) as HG'.
  destruct (converged G _); [exact HG' | apply IH, HG'].
Qed.

Section Aligners.

Variable np_sqrt : Qc -> Qc.
Variable np_log : npfloat -> npfloat.
Variable fused_gromov_wasserstein :
  list (list npfloat) -> mat -> mat -> vec -> vec -> string -> Qc ->
  bool -> Z -> Z -> mat.
Variable init_matrix : mat -> mat -> vec -> vec -> string -> mat * mat * mat.
Variable gwloss : mat -> mat -> mat -> mat -> Qc.
Variable gwggrad : mat -> mat -> mat -> mat -> mat.
Variable cg :
  vec -> vec -> list (list npfloat) -> Qc -> (mat -> Qc) -> (mat -> mat) ->
  mat -> Z -> Z -> mat -> mat -> mat -> bool -> mat.

Lemma n_obs_subset_genes s genes : n_obs (subset_genes s genes) = n_obs s.
Proof. unfold n_obs, subset_genes. cbn [X]. apply length_map. Qed.

Lemma prepare1_marginals s1 s2 :
  pb_p (prepare1 np_sqrt np_log s1 s2) = uniform (n_obs s1)
  /\ pb_q (prepare1 np_sqrt np_log s1 s2) = uniform (n_obs s2).
Proof.
  unfold prepare1. cbn [pb_p pb_q]. rewrite !n_obs_subset_genes. auto.
Qed.

Lemma prepare2_marginals s1 s2 :
  pb_p (prepare2 np_sqrt np_log s1 s2) = uniform (n_obs s1)
  /\ pb_q (prepare2 np_sqrt np_log s1 s2) = uniform (n_obs s2).
Proof.
  unfold prepare2. cbn [pb_p pb_q]. rewrite !n_obs_subset_genes. auto.
Qed.

(** What a plan between the two uniform marginals looks like. *)
Lemma uniform_coupling_facts n1 n2 (G : mat) :
  is_coupling (uniform n1) (uniform n2) G ->
  length G = n1
  /\ Forall (fun row => length row = n2) G
  /\ Forall (Forall (Qcle 0)) G
  /\ Forall (fun r => r = 1 / natQc n1) (sum_axis1 G)
  /\ Forall (fun c => c = 1 / natQc n2) (sum_axis0 G)
  /\ length (sum_axis0 G) = n2.
Proof.
  intros [Hr Hc Hn Hrs Hcs].
  rewrite uniform_length in Hr, Hc.
  split; [exact Hr|]. split; [exact Hc|]. split; [exact Hn|].
  rewrite Hrs, Hcs, !uniform_repeat.
  split; [|split].
  - apply Forall_forall. intros x Hx. apply list_elem_of_In in Hx.
    exact (repeat_spec _ _ _ Hx).
  - apply Forall_forall. intros x Hx. apply list_elem_of_In in Hx.
    exact (repeat_spec _ _ _ Hx).
  - apply repeat_length.
Qed.

(** C1.  Both aligners hand the solver exactly the uniform marginals
    1/N1 and 1/N2.  Hence, for slices with at least one point each and a
    solver that returns a point of the transport polytope of the marginals
    it is given, the plan either aligner returns is N1 x N2, has no
    negative entry, has every row sum equal to 1/N1 and every column sum
    equal to 1/N2. *)
Theorem transport_plan_marginals
    (slice1 slice2 : Slice) (alpha : Qc) (numItermax numItermaxEmd : Z) :
  fgw_contract fused_gromov_wasserstein ->
  cg_contract cg ->
  (0 < n_obs slice1)%nat -> (0 < n_obs slice2)%nat ->
  (pb_p (prepare1 np_sqrt np_log slice1 slice2)
   = repeat (1 / natQc (n_obs slice1)) (n_obs slice1)
   /\ pb_q (prepare1 np_sqrt np_log slice1 slice2)
      = repeat (1 / natQc (n_obs slice2)) (n_obs slice2))
  /\ (pb_p (prepare2 np_sqrt np_log slice1 slice2)
      = repeat (1 / natQc (n_obs slice1)) (n_obs slice1)
      /\ pb_q (prepare2 np_sqrt np_log slice1 slice2)
         = repeat (1 / natQc (n_obs slice2)) (n_obs slice2))
  /\ forall pi : mat,
       pi = pairwise_align1 np_sqrt np_log fused_gromov_wasserstein
              slice1 slice2 alpha numItermax numItermaxEmd
       \/ pi = pairwise_align2 np_sqrt np_log init_matrix gwloss gwggrad cg
                 slice1 slice2 alpha numItermax numItermaxEmd ->
       length pi = n_obs slice1
       /\ Forall (fun row => length row = n_obs slice2) pi
       /\ Forall (Forall (Qcle 0)) pi
       /\ Forall (fun r => r = 1 / natQc (n_obs slice1)) (sum_axis1 pi)
       /\ Forall (fun c => c = 1 / natQc (n_obs slice2)) (sum_axis0 pi)
       /\ length (sum_axis0 pi) = n_obs slice2.
Proof.
  intros Hfgw Hcg H1 H2.
  destruct (prepare1_marginals slice1 slice2) as [Hp1 Hq1].
  destruct (prepare2_marginals slice1 slice2) as [Hp2 Hq2].
  pose proof (uniform_probability _ H1) as U1.
  pose proof (uniform_probability _ H2) as U2.
  split; [|split].
  - rewrite Hp1, Hq1, !uniform_repeat. auto.
  - rewrite Hp2, Hq2, !uniform_repeat. auto.
  - intros pi [-> | ->]; apply uniform_coupling_facts.
    + unfold pairwise_align1. rewrite <- Hp1, <- Hq1.
      apply Hfgw; [rewrite Hp1 | rewrite Hq1]; assumption.
    + unfold pairwise_align2.
      destruct (init_matrix _ _ _ _ _) as [[constC hC1] hC2].
      rewrite <- Hp2, <- Hq2.
      apply Hcg; [rewrite Hp2; assumption | rewrite Hq2; assumption |].
      apply outer_is_coupling; [rewrite Hp2 | rewrite Hq2]; assumption.
Qed.

End Aligners.

(** *** The identifier pattern *)

Section SectionIndex.

Variable unicode_decimal : N -> option nat.

Local Abbreviation digit := (is_digit unicode_decimal).
Local Abbreviation here := (match_S_here unicode_decimal).
Local Abbreviation find := (findall_S_first unicode_decimal).

Lemma is_digit_true (c : N) : digit c = true <-> is_Some (unicode_decimal c).
Proof.
  unfold is_digit. destruct (unicode_decimal c) as [v|]; split.
  - intros _. exists v. reflexivity.
  - reflexivity.
  - discriminate.
  - intros [x Hx]. discriminate.
Qed.

Lemma is_digit_false (c : N) : digit c = false <-> unicode_decimal c = None.
Proof.
  unfold is_digit. destruct (unicode_decimal c) as [v|]; split;
    first [reflexivity | discriminate].
Qed.

Lemma take_digits_split (s : pystr) :
  exists post,
    s = take_digits unicode_decimal s ++ post
    /\ all_digits unicode_decimal (take_digits unicode_decimal s) = true
    /\ no_leading_digit unicode_decimal post = true.
Proof.
  induction s as [|c s (post & Hs & Hd & Hp)].
  - exists []. repeat split.
  - cbn [take_digits]. destruct (digit c) eqn:Ec.
    + exists post. split; [|split; [|exact Hp]].
      * cbn [app]. f_equal. exact Hs.
      * unfold all_digits in *. cbn [forallb]. rewrite Ec. exact Hd.
    + exists (c :: s). repeat split. cbn [no_leading_digit].
      rewrite Ec. reflexivity.
Qed.

Lemma take_digits_of_digits (d post : pystr) :
  all_digits unicode_decimal d = true ->
  no_leading_digit unicode_decimal post = true ->
  take_digits unicode_decimal (d ++ post) = d.
Proof.
  unfold all_digits. induction d as [|c d IH]; intros Hd Hp.
  - cbn [app]. destruct post as [|c post]; [reflexivity|].
    cbn [no_leading_digit] in Hp. cbn [take_digits].
    destruct (digit c); [discriminate | reflexivity].
  - cbn [forallb] in Hd. apply andb_prop in Hd as [Hc Hd].
    cbn [app take_digits]. rewrite Hc, IH by assumption. reflexivity.
Qed.

Lemma str_S (t : pystr) : str "_S" ++ t = 95%N :: 83%N :: t.
Proof. reflexivity. Qed.

(** An anchored match of [_S(\d+)] captures exactly the maximal non-empty
    run of digits that follows the two characters [_S]. *)
Lemma match_S_here_spec (s d : pystr) :
  here s = Some d
  <-> exists post,
        s = str "_S" ++ d ++ post
        /\ d <> []
        /\ all_digits unicode_decimal d = true
        /\ no_leading_digit unicode_decimal post = true.
Proof.
  split.
  - unfold match_S_here.
    destruct s as [|c0 [|c1 rest]]; try discriminate.
    destruct (bool_decide (c0 = 95%N /\ c1 = 83%N)) eqn:E; [|discriminate].
    apply bool_decide_eq_true_1 in E as [-> ->].
    destruct (take_digits_split rest) as (post & Hs & Hd & Hp).
    destruct (take_digits unicode_decimal rest) as [|c d'] eqn:Et;
      [discriminate|].
    intros H. injection H as <-. exists post.
    split; [rewrite str_S, <- Hs; reflexivity|].
    split; [discriminate|]. split; assumption.
  - intros (post & -> & Hne & Hd & Hp).
    rewrite str_S. unfold match_S_here.
    rewrite bool_decide_eq_true_2 by (split; reflexivity).
    rewrite take_digits_of_digits by assumption.
    destruct d; [contradiction | reflexivity].
Qed.

(** No match is anchored where [_S] is not followed by a digit. *)
Lemma match_S_here_None (s : pystr) :
  here s = None
  <-> forall c tl, s = str "_S" ++ c :: tl -> unicode_decimal c = None.
Proof.
  split.
  - intros H c tl ->. rewrite str_S in H. unfold match_S_here in H.
    rewrite bool_decide_eq_true_2 in H by (split; reflexivity).
    cbn [take_digits] in H. apply is_digit_false.
    destruct (digit c); [discriminate | reflexivity].
  - intros H. destruct (here s) as [d|] eqn:E; [|reflexivity].
    apply match_S_here_spec in E as (post & -> & Hne & Hd & _).
    destruct d as [|c d]; [contradiction|].
    unfold all_digits in Hd. cbn [forallb] in Hd.
    apply andb_prop in Hd as [Hc _].
    apply is_digit_true in Hc as [v Hv].
    rewrite (H c (d ++ post) eq_refl) in Hv. discriminate.
Qed.

(** The group returned for an identifier is that of the leftmost position
    at which the pattern matches. *)
Lemma findall_S_first_leftmost (s d : pystr) :
  find s = Ok d
  <-> exists pre rest,
        s = pre ++ rest
        /\ here rest = Some d
        /\ forall k, (k < length pre)%nat -> here (drop k s) = None.
Proof.
  split.
  - revert d. induction s as [|c s IH]; intros d H.
    + cbn in H. discriminate.
    + cbn [findall_S_first] in H.
      destruct (here (c :: s)) as [d'|] eqn:E.
      * injection H as <-. exists [], (c :: s).
        split; [reflexivity|]. split; [exact E|]. cbn. lia.
      * destruct (IH d H) as (pre & rest & Hs & Hm & Hleft).
        exists (c :: pre), rest.
        split; [cbn; rewrite Hs; reflexivity|]. split; [exact Hm|].
        intros [|k] Hk; [exact E|].
        cbn [drop]. apply Hleft. cbn in Hk. lia.
  - intros (pre & rest & -> & Hm & Hleft).
    induction pre as [|c pre IH].
    + cbn [app]. destruct rest as [|c rest]; cbn [findall_S_first];
        rewrite Hm; reflexivity.
    + pose proof (Hleft 0%nat ltac:(cbn; lia)) as E0.
      cbn [app drop] in E0. cbn [app findall_S_first]. rewrite E0.
      apply IH. intros k Hk. apply (Hleft (S k)). cbn. lia.
Qed.

(** [float] of a numeral is the number it denotes. *)
Lemma digits_value_denoted (ds : pystr) (vs : list nat) :
  Forall2 (fun c v => unicode_decimal c = Some v) ds vs ->
  digits_value unicode_decimal ds = natQc (denoted vs).
Proof.
  intros H. unfold digits_value. f_equal.
  enough (Hacc : forall acc,
            fold_left
              (fun acc c => (10 * acc + default 0 (unicode_decimal c))%nat)
              ds acc
            = (acc * 10 ^ length vs + denoted vs)%nat)
    by (rewrite Hacc; lia).
  induction H as [|c v ds vs Hc _ IH]; intros acc.
  - cbn. lia.
  - cbn [fold_left length denoted]. rewrite IH, Hc.
    change (default 0%nat (Some v)) with v.
    rewrite Nat.pow_succ_r'. nia.
Qed.

Lemma all_digits_values (ds : pystr) :
  all_digits unicode_decimal ds = true ->
  exists vs, Forall2 (fun c v => unicode_decimal c = Some v) ds vs.
Proof.
  unfold all_digits. induction ds as [|c ds IH]; intros H.
  - exists []. constructor.
  - cbn [forallb] in H. apply andb_prop in H as [Hc Hd].
    apply is_digit_true in Hc as [v Hv]. destruct (IH Hd) as [vs Hvs].
    exists (v :: vs). constructor; assumption.
Qed.

(** What the parse of an identifier returns, without the functions of the
    model: the identifier splits at the leftmost [_S] that a digit
    follows, the group is the whole run of digits there, and its value is
    the number the digits denote. *)
Lemma findall_S_first_group (id0 z : pystr) :
  find id0 = Ok z ->
  exists pre post vs,
    id0 = pre ++ str "_S" ++ z ++ post
    /\ z <> []
    /\ Forall2 (fun c v => unicode_decimal c = Some v) z vs
    /\ (forall c tl, post = c :: tl -> unicode_decimal c = None)
    /\ (forall k c tl, (k < length pre)%nat ->
          drop k id0 = str "_S" ++ c :: tl -> unicode_decimal c = None)
    /\ digits_value unicode_decimal z = natQc (denoted vs).
Proof.
  intros H. apply findall_S_first_leftmost in H
    as (pre & rest & -> & Hm & Hleft).
  apply match_S_here_spec in Hm as (post & -> & Hne & Hd & Hp).
  destruct (all_digits_values z Hd) as [vs Hvs].
  exists pre, post, vs. split; [reflexivity|]. split; [exact Hne|].
  split; [exact Hvs|]. split; [|split].
  - intros c tl ->. cbn [no_leading_digit] in Hp.
    apply is_digit_false. destruct (digit c); [discriminate | reflexivity].
  - intros k c tl Hk Hdrop.
    exact (proj1 (match_S_here_None _) (Hleft k Hk) c tl Hdrop).
  - apply digits_value_denoted, Hvs.
Qed.



(** *** The slice stack *)

Lemma insert_keeps_slice_ID (l : list Slice) i s s' :
  l !! i = Some s -> slice_ID s' = slice_ID s ->
  forall k, slice_ID <$> (<[i := s']> l) !! k = slice_ID <$> l !! k.
Proof.
  intros Hi Hid k. destruct (decide (i = k)) as [<-|Hne].
  - rewrite list_lookup_insert_eq by (eapply lookup_lt_Some; exact Hi).
    rewrite Hi. cbn. f_equal. exact Hid.
  - rewrite list_lookup_insert_ne by exact Hne. reflexivity.
Qed.

Lemma assign_z_spec (s s' : Slice) :
  assign_z unicode_decimal s = Ok s' ->
  exists id0 rest z,
    slice_ID s = id0 :: rest
    /\ find id0 = Ok z
    /\ spatial_z s'
       = Some (repeat (digits_value unicode_decimal z) (length (spatial s)))
    /\ new_z s'
       = Some (repeat (digits_value unicode_decimal z) (length (slice_ID s)))
    /\ new_x s' = Some (map fst (spatial s))
    /\ new_y s' = Some (map snd (spatial s))
    /\ spatial s' = spatial s
    /\ slice_ID s' = slice_ID s.
Proof.
  unfold assign_z. intros H.
  destruct (slice_ID s) as [|id0 rest] eqn:Eid; [discriminate|].
  destruct (find id0) as [z|] eqn:Ez; [|discriminate].
  cbn in H. injection H as <-. exists id0, rest, z.
  cbn [spatial_z new_z new_x new_y spatial slice_ID].
  repeat split; first [reflexivity | assumption].
Qed.

Lemma assign_all_spec (l : list Slice) : forall out,
  assign_all unicode_decimal l = Ok out ->
  length out = length l
  /\ forall i s, l !! i = Some s ->
       exists s', out !! i = Some s' /\ assign_z unicode_decimal s = Ok s'.
Proof.
  induction l as [|s0 l IH]; intros out H.
  - injection H as <-. split; [reflexivity|]. intros i s Hi. discriminate.
  - cbn [assign_all] in H.
    destruct (assign_z unicode_decimal s0) as [s0'|] eqn:E0; [|discriminate].
    cbn in H.
    destruct (assign_all unicode_decimal l) as [rest'|] eqn:Er;
      [|discriminate].
    cbn in H. injection H as <-.
    destruct (IH _ eq_refl) as [Hlen Hget].
    split; [simpl; lia|].
    intros [|i] s Hi.
    + injection Hi as <-. exists s0'. split; [reflexivity | exact E0].
    + apply Hget. exact Hi.
Qed.


End SectionIndex.

Section Stack.

Variable np_sqrt : Qc -> Qc.
Variable np_log : npfloat -> npfloat.
Variable svd : M22 -> M22 * (Qc * Qc) * M22.
Variable fused_gromov_wasserstein :
  list (list npfloat) -> mat -> mat -> vec -> vec -> string -> Qc ->
  bool -> Z -> Z -> mat.
Variable init_matrix : mat -> mat -> vec -> vec -> string -> mat * mat * mat.
Variable gwloss : mat -> mat -> mat -> mat -> Qc.
Variable gwggrad : mat -> mat -> mat -> mat -> mat.
Variable cg :
  vec -> vec -> list (list npfloat) -> Qc -> (mat -> Qc) -> (mat -> mat) ->
  mat -> Z -> Z -> mat -> mat -> mat -> bool -> mat.
Variable unicode_decimal : N -> option nat.

(** The pairwise passes keep the number of slices and every identifier. *)
Lemma pairwise_passes_keeps_ids (piList : list mat) :
  forall i (sl out : list Slice),
    pairwise_passes svd piList i sl = Ok out ->
    length out = length sl
    /\ forall k, slice_ID <$> out !! k = slice_ID <$> sl !! k.
Proof.
  induction piList as [|pi rest IH]; intros i sl out H.
  - injection H as <-. auto.
  - cbn [pairwise_passes] in H.
    destruct (sl !! i) as [s1|] eqn:E1; [|discriminate].
    destruct (sl !! S i) as [s2|] eqn:E2; [|discriminate].
    destruct (spatial_z s1); [discriminate|].
    destruct (spatial_z s2); [discriminate|].
    destruct (superpose svd pi (spatial s1) (spatial s2)) as [c1 c2].
    apply IH in H as [Hlen Hid].
    rewrite !length_insert in Hlen. split; [exact Hlen|].
    intros k. rewrite Hid.
    rewrite (insert_keeps_slice_ID _ (S i) s2).
    + apply (insert_keeps_slice_ID _ i s1); [exact E1 | reflexivity].
    + rewrite list_lookup_insert_ne by lia. exact E2.
    + reflexivity.
Qed.




(** C9.  When [slice_alignment] returns, every slice of the list, the
    first and the last included, carries as z-coordinate the number
    denoted by the digits of the leftmost [_S<digits>] group of its first
    identifier: the identifier splits as [pre ++ "_S" ++ digits ++ post]
    with at least one digit, no digit at the head of [post] and no [_S]
    followed by a digit starting inside [pre]; the number fills the [z]
    column of the coordinate table and the [new_z] column of the
    observations, while [new_x] and [new_y] copy the x and y columns
    produced by the pairwise passes, which this step leaves as they
    are. *)
Theorem slice_alignment_assigns_z
    (slicesList : list Slice) (alpha : Qc) (numItermax numItermaxEmd : Z)
    (device : string) (out : list Slice) :
  slice_alignment np_sqrt np_log svd fused_gromov_wasserstein init_matrix
    gwloss gwggrad cg unicode_decimal slicesList alpha numItermax
    numItermaxEmd device
  = Ok out ->
  exists aligned : list Slice,
    pairwise_passes svd
      (piList_of np_sqrt np_log fused_gromov_wasserstein init_matrix
         gwloss gwggrad cg slicesList alpha numItermax numItermaxEmd device)
      0 slicesList = Ok aligned
    /\ length aligned = length slicesList
    /\ length out = length slicesList
    /\ forall i s_in, slicesList !! i = Some s_in ->
         exists s_al s_out id0 rest pre digits post values,
           aligned !! i = Some s_al
           /\ out !! i = Some s_out
           /\ slice_ID s_in = id0 :: rest
           /\ id0 = pre ++ str "_S" ++ digits ++ post
           /\ digits <> []
           /\ Forall2 (fun c v => unicode_decimal c = Some v) digits values
           /\ (forall c tl, post = c :: tl -> unicode_decimal c = None)
           /\ (forall k c tl, (k < length pre)%nat ->
                 drop k id0 = str "_S" ++ c :: tl ->
                 unicode_decimal c = None)
           /\ spatial_z s_out
              = Some (repeat (natQc (denoted values)) (length (spatial s_al)))
           /\ new_z s_out
              = Some (repeat (natQc (denoted values))
                        (length (slice_ID s_in)))
           /\ new_x s_out = Some (map fst (spatial s_al))
           /\ new_y s_out = Some (map snd (spatial s_al))
           /\ spatial s_out = spatial s_al.
Proof.
  unfold slice_alignment. intros H.
  destruct (pairwise_passes svd _ 0 slicesList) as [aligned|] eqn:Ep;
    [|discriminate].
  cbn in H. exists aligned. split; [reflexivity|].
  apply pairwise_passes_keeps_ids in Ep as [Hlen Hid].
  apply assign_all_spec in H as [Hlen' Hget].
  split; [exact Hlen|]. split; [congruence|].
  intros i s_in Hi. specialize (Hid i). rewrite Hi in Hid.
  destruct (aligned !! i) as [s_al|] eqn:Ea; [|discriminate].
  cbn in Hid. injection Hid as Hid.
  destruct (Hget i s_al Ea) as (s_out & Ho & Hz).
  apply assign_z_spec in Hz
    as (id0 & rest & z & Hids & Hfind & Hsz & Hnz & Hnx & Hny & Hsp & _).
  apply findall_S_first_group in Hfind
    as (pre & post & vs & Hsplit & Hne & Hvs & Hpost & Hleft & Hval).
  rewrite Hval in Hsz, Hnz.
  exists s_al, s_out, id0, rest, pre, z, post, vs.
  rewrite <- Hid. repeat split; assumption.
Qed.


End Stack.

(** *** The theorems at concrete inputs *)

Section Witnesses.
Import Samples.

(** [svd_diag] does factor the cross-covariance of the sample pair. *)
Example svd_diag_factors :
  let H := cross_covariance pi_diag cross_a cross_b in
  let '(U, S_, Vt) := svd_diag H in
  mmul U (mmul {| m00 := fst S_; m01 := 0; m10 := 0; m11 := snd S_ |} Vt) = H
  /\ 0 <= snd S_ /\ snd S_ <= fst S_.
Proof. vm_compute. repeat split; discriminate. Qed.


(** On the mirrored pair the rotation has determinant -1 and is applied as
    it is: the second table comes out reflected onto the first. *)
Example superpose_applies_reflection :
  det (rotation svd_diag pi_diag cross_a cross_b) = - (1)
  /\ superpose svd_diag pi_diag cross_a cross_b = (cross_a, cross_a).
Proof. split; vm_compute; reflexivity. Qed.

Lemma rotation_orthogonal_witness :
  orthogonal (fst (fst (svd_diag (cross_covariance pi_diag cross_a cross_b))))
  /\ orthogonal (snd (svd_diag (cross_covariance pi_diag cross_a cross_b)))
  /\ orthogonal (rotation svd_diag pi_diag cross_a cross_b)
  /\ (det (rotation svd_diag pi_diag cross_a cross_b) = 1
      \/ det (rotation svd_diag pi_diag cross_a cross_b) = - (1)).
Proof.
  assert (HU : orthogonal
                 (fst (fst (svd_diag (cross_covariance pi_diag cross_a cross_b)))))
    by (split; vm_compute; reflexivity).
  assert (HV : orthogonal
                 (snd (svd_diag (cross_covariance pi_diag cross_a cross_b))))
    by (split; vm_compute; reflexivity).
  split; [exact HU|]. split; [exact HV|].
  exact (rotation_orthogonal svd_diag pi_diag cross_a cross_b HU HV).
Defined.

Lemma cg0_contract : cg_contract cg0.
Proof.
  apply (cg_scheme_contract emd0 line_search0 converged0).
  - intros a b C n Ha Hb. apply outer_is_coupling; assumption.
  - intros G Gc. split; discriminate.
Defined.

Lemma fgw0_contract : fgw_contract fgw0.
Proof.
  intros M C1 C2 p q lf alpha armijo n m Hp Hq. unfold fgw0, init_matrix0.
  apply cg0_contract; [assumption | assumption |].
  apply outer_is_coupling; assumption.
Defined.

Lemma transport_plan_marginals_witness :
  fgw_contract fgw0 /\ cg_contract cg0
  /\ (0 < n_obs slice_1)%nat /\ (0 < n_obs slice_2)%nat
  /\ (pb_p (prepare1 sqrt0 log0 slice_1 slice_2)
      = repeat (1 / natQc (n_obs slice_1)) (n_obs slice_1)
      /\ pb_q (prepare1 sqrt0 log0 slice_1 slice_2)
         = repeat (1 / natQc (n_obs slice_2)) (n_obs slice_2))
  /\ (pb_p (prepare2 sqrt0 log0 slice_1 slice_2)
      = repeat (1 / natQc (n_obs slice_1)) (n_obs slice_1)
      /\ pb_q (prepare2 sqrt0 log0 slice_1 slice_2)
         = repeat (1 / natQc (n_obs slice_2)) (n_obs slice_2))
  /\ forall pi : mat,
       pi = pairwise_align1 sqrt0 log0 fgw0 slice_1 slice_2 alpha_a 200 100000
       \/ pi = pairwise_align2 sqrt0 log0 init_matrix0 gwloss0 gwggrad0 cg0
                 slice_1 slice_2 alpha_a 200 100000 ->
       length pi = n_obs slice_1
       /\ Forall (fun row => length row = n_obs slice_2) pi
       /\ Forall (Forall (Qcle 0)) pi
       /\ Forall (fun r => r = 1 / natQc (n_obs slice_1)) (sum_axis1 pi)
       /\ Forall (fun c => c = 1 / natQc (n_obs slice_2)) (sum_axis0 pi)
       /\ length (sum_axis0 pi) = n_obs slice_2.
Proof.
  assert (H1 : (0 < n_obs slice_1)%nat) by (vm_compute; lia).
  assert (H2 : (0 < n_obs slice_2)%nat) by (vm_compute; lia).
  split; [exact fgw0_contract|]. split; [exact cg0_contract|].
  split; [exact H1|]. split; [exact H2|].
  exact (transport_plan_marginals sqrt0 log0 fgw0 init_matrix0 gwloss0
           gwggrad0 cg0 slice_1 slice_2 alpha_a 200 100000
           fgw0_contract cg0_contract H1 H2).
Defined.

Lemma slice_alignment_assigns_z_witness :
  aligned_a = Ok stack_a'
  /\ exists aligned : list Slice,
       pairwise_passes svd_diag
         (piList_of sqrt0 log0 fgw0 init_matrix0 gwloss0 gwggrad0 cg0
            stack_a alpha_a 200 100000 "cpu")
         0 stack_a = Ok aligned
       /\ length aligned = length stack_a
       /\ length stack_a' = length stack_a
       /\ forall i s_in, stack_a !! i = Some s_in ->
            exists s_al s_out id0 rest pre digits post values,
              aligned !! i = Some s_al
              /\ stack_a' !! i = Some s_out
              /\ slice_ID s_in = id0 :: rest
              /\ id0 = pre ++ str "_S" ++ digits ++ post
              /\ digits <> []
              /\ Forall2 (fun c v => digits_a c = Some v) digits values
              /\ (forall c tl, post = c :: tl -> digits_a c = None)
              /\ (forall k c tl, (k < length pre)%nat ->
                    drop k id0 = str "_S" ++ c :: tl -> digits_a c = None)
              /\ spatial_z s_out
                 = Some (repeat (natQc (denoted values))
                           (length (spatial s_al)))
              /\ new_z s_out
                 = Some (repeat (natQc (denoted values))
                           (length (slice_ID s_in)))
              /\ new_x s_out = Some (map fst (spatial s_al))
              /\ new_y s_out = Some (map snd (spatial s_al))
              /\ spatial s_out = spatial s_al.
Proof.
  assert (H : aligned_a = Ok stack_a') by (vm_compute; reflexivity).
  split; [exact H|].
  exact (slice_alignment_assigns_z sqrt0 log0 svd_diag fgw0 init_matrix0
           gwloss0 gwggrad0 cg0 digits_a stack_a alpha_a 200 100000 "cpu"
           stack_a' H).
Defined.

(** The three sample slices end at z = 1, 2 and 10. *)
Example stack_a_z :
  map spatial_z stack_a'
  = [Some (repeat (natQc 1) 4); Some (repeat (natQc 2) 4);
     Some (repeat (natQc 10) 4)]
  /\ map new_z stack_a' = map spatial_z stack_a'.
Proof. split; vm_compute; reflexivity. Qed.

(** The leftmost group wins, a bare [_S] is skipped, the digits are taken
    greedily, and an identifier without a group has no index. *)
Example findall_S_first_examples :
  findall_S_first digits_a (str "E16.5_S12_a") = Ok (str "12")
  /\ findall_S_first digits_a (str "x_S_S07b_S9") = Ok (str "07")
  /\ digits_value digits_a (str "07") = natQc 7
  /\ findall_S_first digits_a (str "E16_s3") = Raise IndexError.
Proof.
  split; [|split; [|split]]; vm_compute; first [reflexivity | f_equal].
Qed.

(** A digit of another script belongs to the group and counts in the
    value: [a_S12] followed by U+0663, the Arabic-Indic digit three, has
    section index 123. *)
Example findall_S_first_unicode :
  findall_S_first digits_a (str "a_S12" ++ [1635%N])
  = Ok (str "12" ++ [1635%N])
  /\ digits_value digits_a (str "12" ++ [1635%N]) = natQc 123.
Proof. split; vm_compute; first [reflexivity | f_equal]. Qed.

(** The slices [slice_alignment] returns carry a z column: aligning them
    once more raises [ValueError] in the first pass. *)
Example slice_alignment_again :
  slice_alignment sqrt0 log0 svd_diag fgw0 init_matrix0 gwloss0 gwggrad0 cg0
    digits_a stack_a' alpha_a 200 100000 "cpu"
  = Raise ValueError.
Proof. vm_compute. reflexivity. Qed.

End Witnesses.

End ReconstructionProofs.

(* ===================================================================== *)
(** ** Further properties of the refiner *)
(* ===================================================================== *)

Module RefinerExtras.
Import Refiner NumericFacts Samples.

Section Training.

Context {OptState Grad : Type}.
Variable adam_new : params -> OptState.
Variable adam_step : OptState -> params -> Grad -> OptState * params.
Variable autograd : (params -> result npfloat) -> params -> Grad.
Variable warp : params -> list (list npfloat) -> option (list (list npfloat)).
Variable arith : torch_arith.

Local Abbreviation run := (epochs adam_step autograd warp arith).

Lemma epochs_add (n m : nat) (st : refiner OptState * OptState) :
  run (n + m) st
  = '(st1, c1) ← run n st;
    '(st2, c2) ← run m st1;
    Ok (st2, c1 ++ c2).
Proof.
  revert st. induction n as [|n IH]; intros st.
  - cbn [Nat.add epochs mbind result_bind].
    destruct (run m st) as [[st2 c2]|e]; reflexivity.
  - cbn [Nat.add epochs].
    destruct (epoch adam_step autograd warp arith st) as [[st1 c1]|e];
      [|reflexivity].
    cbn [mbind result_bind]. rewrite IH.
    destruct (run n st1) as [[st2 c2]|e]; [|reflexivity].
    cbn [mbind result_bind].
    destruct (run m st2) as [[st3 c3]|e]; [|reflexivity].
    cbn [mbind result_bind]. rewrite app_assoc. reflexivity.
Qed.

(** The optimizer the loop steps is the one stored on the refiner. *)
Lemma epochs_keeps_optimizer (n : nat) (r r1 : refiner OptState)
    (o o1 : OptState) (c : list call) :
  optimizer_slot (base r) = Some o ->
  run n (r, o) = Ok ((r1, o1), c) ->
  optimizer_slot (base r1) = Some o1.
Proof.
  intros Hslot H.
  apply RefinerProofs.epochs_spec in H
    as (ls & _ & _ & _ & Hfin & _ & _ & _ & _ & Hzero & Hkeep).
  cbn [fst snd] in *. destruct n as [|n].
  - rewrite (Hzero eq_refl). cbn in Hfin. injection Hfin as -> _.
    exact Hslot.
  - apply Hkeep. discriminate.
Qed.

Lemma optimizer_linked (r : refiner OptState) :
  optimizer_slot (base (snd (optimizer adam_new r)))
  = Some (fst (optimizer adam_new r)).
Proof.
  unfold optimizer. destruct (optimizer_slot (base r)) eqn:E;
    [exact E | reflexivity].
Qed.

(** X1.  Training in two calls is training in one: for N, M >= 0,
    [train (N + M)] leaves the refiner (parameters, optimizer state and
    loss history) that [train N] followed by [train M] leaves, and makes
    the calls of the first followed by the calls of the second; the
    optimizer created by the first call is the one the second continues;
    and an exception that ends one ends the other. *)
Theorem train_continues (N M : Z) (r : refiner OptState) :
  (0 <= N)%Z -> (0 <= M)%Z ->
  train adam_new adam_step autograd warp arith (N + M) r
  = '(r1, c1) ← train adam_new adam_step autograd warp arith N r;
    '(r2, c2) ← train adam_new adam_step autograd warp arith M r1;
    Ok (r2, c1 ++ c2).
Proof.
  intros HN HM. rewrite (RefinerProofs.train_unfold _ _ _ _ _ (N + M)).
  rewrite (RefinerProofs.train_unfold _ _ _ _ _ N).
  rewrite Z2Nat.inj_add by assumption.
  pose proof (optimizer_linked r) as Hlink.
  destruct (optimizer adam_new r) as [o r0]. cbn [fst snd] in *.
  rewrite epochs_add.
  destruct (run (Z.to_nat N) (r0, o)) as [[[r1 o1] c1]|e] eqn:E1;
    [|reflexivity].
  cbn [mbind result_bind].
  rewrite (RefinerProofs.train_unfold _ _ _ _ _ M).
  pose proof (epochs_keeps_optimizer _ _ _ _ _ _ Hlink E1) as Hkeep.
  unfold optimizer. rewrite Hkeep. cbn [fst snd].
  destruct (run (Z.to_nat M) (r1, o1)) as [[[r2 o2] c2]|e]; reflexivity.
Qed.

End Training.

Lemma train_continues_witness :
  (0 <= 1)%Z /\ (0 <= 2)%Z
  /\ train adam_new0 adam_step0 autograd0 warp_nan exact_arith (1 + 2)
       refiner_a
     = '(r1, c1) ← train adam_new0 adam_step0 autograd0 warp_nan exact_arith
                     1 refiner_a;
       '(r2, c2) ← train adam_new0 adam_step0 autograd0 warp_nan exact_arith
                     2 r1;
       Ok (r2, c1 ++ c2).
Proof.
  assert (H1 : (0 <= 1)%Z) by lia. assert (H2 : (0 <= 2)%Z) by lia.
  split; [exact H1|]. split; [exact H2|].
  exact (train_continues adam_new0 adam_step0 autograd0 warp_nan exact_arith
           1 2 refiner_a H1 H2).
Defined.

(** *** Errors of the driver *)

Section Driver.

Context {OptState Grad : Type}.
Variable adam_new : params -> OptState.
Variable adam_step : OptState -> params -> Grad -> OptState * params.
Variable autograd : (params -> result npfloat) -> params -> Grad.
Variable warp : params -> list (list npfloat) -> option (list (list npfloat)).
Variable arith : torch_arith.
Variable UNS_SPATIAL_ALIGNMENT_KEY : string.

Lemma linspace_steps_errors extent binsize e :
  linspace_steps extent binsize = Raise e ->
  e = ZeroDivisionError \/ e = RuntimeError.
Proof.
  unfold linspace_steps.
  destruct (bool_decide (binsize = 0%Z)); [intros [= <-]; auto|].
  destruct (bool_decide (ceil_div (Z.of_nat extent) binsize < 0)%Z);
    [intros [= <-]; auto | discriminate].
Qed.

Lemma base_init_errors (reference to_align : ndarray) e :
  snd (AlignmentRefiner_init OptState reference to_align) = Raise e ->
  e = PreprocessingError only_bool_msg
  /\ (arr_dtype reference <> DBool \/ arr_dtype to_align <> DBool).
Proof.
  unfold AlignmentRefiner_init.
  destruct (bool_decide (arr_dtype reference <> DBool
                         \/ arr_dtype to_align <> DBool)) eqn:E;
    cbn [snd]; [|discriminate].
  intros [= <-]. apply bool_decide_eq_true_1 in E. auto.
Qed.

Lemma base_init_bool (reference to_align : ndarray) :
  arr_dtype reference = DBool -> arr_dtype to_align = DBool ->
  exists b, AlignmentRefiner_init OptState reference to_align
            = (["reference"; "to_align"; "weight";
                "_AlignmentRefiner__optimizer"; "history"]%string, Ok b).
Proof.
  intros H1 H2. unfold AlignmentRefiner_init.
  rewrite bool_decide_eq_false_2 by (intros [H|H]; contradiction).
  eexists. reflexivity.
Qed.

Lemma base_init_nonbool (reference to_align : ndarray) :
  arr_dtype reference <> DBool \/ arr_dtype to_align <> DBool ->
  AlignmentRefiner_init OptState reference to_align
  = ([], Raise (PreprocessingError only_bool_msg)).
Proof.
  intros H. unfold AlignmentRefiner_init.
  destruct (bool_decide (arr_dtype reference <> DBool
                         \/ arr_dtype to_align <> DBool)) eqn:E;
    [reflexivity|].
  apply bool_decide_eq_false_1 in E. contradiction.
Qed.

(** The errors of the selected constructor. *)
Lemma construct_errors mode reference to_align kw e :
  construct OptState mode reference to_align kw = Raise e ->
  e = TypeError
  \/ e = PreprocessingError only_bool_msg
  \/ e = ZeroDivisionError \/ e = RuntimeError.
Proof.
  unfold construct, RigidAlignmentRefiner_init, NonRigidAlignmentRefiner_init.
  destruct (bool_decide (mode = "rigid"%string)).
  - destruct (kw_binsize kw); [intros [= <-]; auto|].
    destruct (AlignmentRefiner_init OptState reference to_align)
      as [attrs [b|e0]] eqn:E; cbn [snd]; [discriminate|].
    intros [= <-]. right; left.
    apply (base_init_errors reference to_align). rewrite E. reflexivity.
  - destruct (kw_theta kw); [intros [= <-]; auto|].
    destruct (AlignmentRefiner_init OptState reference to_align)
      as [attrs [b|e0]] eqn:E; cbn [snd].
    + destruct (linspace_steps _ _) as [nx|e1] eqn:E1.
      * destruct (linspace_steps (shape0 _) _) as [ny|e2] eqn:E2;
          cbn [snd]; [discriminate|].
        intros [= <-]. right; right. eapply linspace_steps_errors, E2.
      * cbn [snd]. intros [= <-]. right; right.
        eapply linspace_steps_errors, E1.
    + intros [= <-]. right; left.
      apply (base_init_errors reference to_align). rewrite E. reflexivity.
Qed.

Lemma transform_loop_errors p ls : forall adata e,
  transform_loop warp p adata ls = Raise e ->
  (exists l, l ∈ ls /\ e = KeyError l) \/ e = LibraryError.
Proof.
  induction ls as [|l0 ls IH]; intros adata e H; [discriminate|].
  cbn [transform_loop] in H.
  destruct (transform_layer warp p adata l0) as [a1|e1] eqn:E1.
  - cbn in H. destruct (IH _ _ H) as [(l & Hl & Hk)|Hk];
      [left | right; exact Hk].
    exists l. split; [apply list_elem_of_further, Hl | exact Hk].
  - cbn in H. injection H as <-.
    unfold transform_layer, select_layer_data, transform, library in E1.
    destruct (layers adata !! l0) as [d|].
    + cbn [mbind result_bind] in E1.
      destruct (warp p (to_float d)); cbn [mbind result_bind] in E1;
        [discriminate|].
      injection E1 as <-. right. reflexivity.
    + cbn in E1. injection E1 as <-. left. exists l0.
      split; [apply list_elem_of_here | reflexivity].
Qed.

(** The exceptions of [train] are those of the forward pass and of the
    broadcast in the loss. *)
Lemma train_errors (n_epochs : Z) (r : refiner OptState) e :
  train adam_new adam_step autograd warp arith n_epochs r = Raise e ->
  e = LibraryError \/ e = RuntimeError.
Proof.
  rewrite RefinerProofs.train_unfold. intros H.
  destruct (epochs adam_step autograd warp arith (Z.to_nat n_epochs) _)
    as [[[r' o'] calls]|e0] eqn:E; [discriminate|].
  injection H as ->.
  apply RefinerProofs.epochs_raise in E as (k & _ & Hraise & _).
  eapply RefinerProofs.loss_of_errors, Hraise.
Qed.

(** X5.  [refine_alignment] raises the mode error exactly when [mode] is
    neither "rigid" nor "non-rigid"; the mode is checked first, so the
    error does not depend on the dataset, the layer names or the keywords,
    and no later step raises it. *)
Theorem refine_alignment_mode_error
    (adata : AnnData) (stain_layer rna_layer mode : string) (n_epochs : Z)
    (transform_layers : option (list string)) (kw : kwargs) :
  refine_alignment adam_new adam_step autograd warp arith
    UNS_SPATIAL_ALIGNMENT_KEY
    adata stain_layer rna_layer mode n_epochs transform_layers kw
  = Raise (PreprocessingError mode_msg)
  <-> mode <> "rigid"%string /\ mode <> "non-rigid"%string.
Proof.
  unfold refine_alignment.
  destruct (bool_decide (mode ∉ ["rigid"; "non-rigid"]%string)) eqn:Em.
  - apply bool_decide_eq_true_1 in Em. split; [|reflexivity].
    intros _. split; intros ->; apply Em; set_solver.
  - apply bool_decide_eq_false_1 in Em. split.
    + intros H. exfalso.
      destruct (select_layer_data adata (resolve_layer adata stain_layer))
        as [stain_mask|e1] eqn:Es.
      2:{ cbn in H. injection H as ->. unfold select_layer_data in Es.
          destruct (layers adata !! _); discriminate. }
      destruct (select_layer_data adata (resolve_layer adata rna_layer))
        as [rna_mask|e2] eqn:Er.
      2:{ cbn in H. injection H as ->. unfold select_layer_data in Er.
          destruct (layers adata !! _); discriminate. }
      cbn [mbind result_bind] in H.
      destruct (construct OptState mode rna_mask stain_mask kw)
        as [aligner|e3] eqn:Ec.
      2:{ cbn in H. injection H as ->.
          apply construct_errors in Ec as [Hc|[Hc|[Hc|Hc]]]; discriminate. }
      cbn [mbind result_bind] in H.
      destruct (train adam_new adam_step autograd warp arith n_epochs aligner)
        as [[trained calls]|e4] eqn:Et.
      2:{ cbn in H. injection H as ->.
          apply train_errors in Et as [Ht|Ht]; discriminate. }
      cbn [mbind result_bind fst] in H.
      assert (Hloop : exists a ls,
                transform_loop warp (get_params trained) a ls
                = Raise (PreprocessingError mode_msg)).
      { destruct transform_layers as [[|l ls]|]; try discriminate. eauto. }
      destruct Hloop as (a & ls & Hloop).
      apply transform_loop_errors in Hloop as [(l & _ & Hl)|Hl];
        discriminate.
    + intros [H1 H2]. exfalso. apply Em. intros Hin.
      apply elem_of_cons in Hin as [->|Hin]; [contradiction|].
      apply elem_of_cons in Hin as [->|Hin]; [contradiction|].
      inversion Hin.
Qed.

End Driver.

(** *** Layers under an identity resampling *)

Lemma binarize_to_float (d : list (list bool)) :
  binarize (to_float (BoolArr d)) = d.
Proof.
  unfold binarize. cbn [to_float]. rewrite map_map.
  induction d as [|row d IH]; [reflexivity|].
  cbn [map]. rewrite IH. f_equal. rewrite map_map.
  induction row as [|b row IHr]; [reflexivity|].
  cbn [map]. rewrite IHr. f_equal. destruct b; reflexivity.
Qed.

(** X7.  When the resampling returns a layer as it is (what the identity
    transform does), the value computed for a boolean layer has the pixels
    of the layer itself, the threshold undoing the conversion to float; the
    value computed for a layer of any other dtype is a float array of its
    values, so an integer layer changes dtype. *)
Theorem identity_transform_layer
    (warp : params -> list (list npfloat) -> option (list (list npfloat)))
    (p : params) (data : ndarray) :
  warp p (to_float data) = Some (to_float data) ->
  (arr_dtype data = DBool -> transformed_value warp p data = Ok data)
  /\ (arr_dtype data <> DBool ->
      transformed_value warp p data = Ok (FloatArr (to_float data))).
Proof.
  intros Hid. unfold transformed_value, transform. rewrite Hid.
  cbn [library mbind result_bind]. split.
  - intros Hb. rewrite bool_decide_eq_true_2 by exact Hb.
    destruct data as [d|d|d]; try discriminate.
    rewrite binarize_to_float. reflexivity.
  - intros Hn. rewrite bool_decide_eq_false_2 by exact Hn. reflexivity.
Qed.

Lemma identity_transform_layer_witness :
  warp_id (RigidParams identity_theta) (to_float (BoolArr mask_a))
  = Some (to_float (BoolArr mask_a))
  /\ arr_dtype (BoolArr mask_a) = DBool
  /\ transformed_value warp_id (RigidParams identity_theta) (BoolArr mask_a)
     = Ok (BoolArr mask_a).
Proof.
  assert (H : warp_id (RigidParams identity_theta) (to_float (BoolArr mask_a))
              = Some (to_float (BoolArr mask_a))) by reflexivity.
  assert (Hb : arr_dtype (BoolArr mask_a) = DBool) by reflexivity.
  split; [exact H|]. split; [exact Hb|].
  exact (proj1 (identity_transform_layer warp_id (RigidParams identity_theta)
                  (BoolArr mask_a) H) Hb).
Defined.

(** *** The control grid of the non-rigid variant *)

Lemma linspace_length (n : nat) : length (linspace_m1_1 n) = n.
Proof.
  destruct n as [|[|n]]; [reflexivity | reflexivity |].
  unfold linspace_m1_1. rewrite length_map, length_seq. reflexivity.
Qed.

Lemma cartesian_prod_length {A B} (xs : list A) (ys : list B) :
  length (cartesian_prod xs ys) = (length xs * length ys)%nat.
Proof.
  unfold cartesian_prod. induction xs as [|x xs IH]; [reflexivity|].
  cbn [flat_map length]. rewrite length_app, length_map, IH. lia.
Qed.

Lemma ceil_div_bounds (a b : Z) :
  (0 < b)%Z ->
  ((ceil_div a b - 1) * b < a <= ceil_div a b * b)%Z.
Proof.
  intros Hb. unfold ceil_div.
  pose proof (Z.div_mod (- a) b ltac:(lia)) as Hdm.
  pose proof (Z.mod_pos_bound (- a) b Hb) as Hm. nia.
Qed.

Lemma linspace_steps_pos (extent : nat) (binsize : Z) :
  (0 < binsize)%Z ->
  exists n : nat,
    linspace_steps extent binsize = Ok n
    /\ ((Z.of_nat n - 1) * binsize < Z.of_nat extent
        <= Z.of_nat n * binsize)%Z.
Proof.
  intros Hb. unfold linspace_steps.
  pose proof (ceil_div_bounds (Z.of_nat extent) binsize Hb) as Hc.
  rewrite bool_decide_eq_false_2 by lia.
  assert (H0 : (0 <= ceil_div (Z.of_nat extent) binsize)%Z) by nia.
  rewrite bool_decide_eq_false_2 by lia.
  eexists. split; [reflexivity|]. rewrite Z2Nat.id by exact H0. exact Hc.
Qed.

Section Grid.

Context {OptState : Type}.

(** X8.  The non-rigid constructor on boolean masks: a bin size of 0 raises
    [ZeroDivisionError], after the attributes of the base class have been
    assigned; a positive bin size gives, for a non-empty W x H moving
    image, [nx * ny] control points with [nx = ceil(W / binsize)] and
    [ny = ceil(H / binsize)], and one zero displacement per control
    point. *)
Theorem nonrigid_control_grid
    (reference to_align : list (list bool)) (binsize : Z) :
  (binsize = 0%Z ->
   NonRigidAlignmentRefiner_init OptState (BoolArr reference)
     (BoolArr to_align) binsize
   = (["reference"; "to_align"; "weight"; "_AlignmentRefiner__optimizer";
       "history"]%string, Raise ZeroDivisionError))
  /\ ((0 < binsize)%Z -> (0 < shape0 to_align)%nat ->
      exists (r : refiner OptState) (src disp : list (npfloat * npfloat))
             (nx ny : nat),
        snd (NonRigidAlignmentRefiner_init OptState (BoolArr reference)
               (BoolArr to_align) binsize) = Ok r
        /\ parameters r = NonRigidParams src disp
        /\ length src = (nx * ny)%nat
        /\ length disp = length src
        /\ Forall (fun d => d = (Fin 0, Fin 0)) disp
        /\ ((Z.of_nat nx - 1) * binsize < Z.of_nat (shape1 to_align)
            <= Z.of_nat nx * binsize)%Z
        /\ ((Z.of_nat ny - 1) * binsize < Z.of_nat (shape0 to_align)
            <= Z.of_nat ny * binsize)%Z).
Proof.
  unfold NonRigidAlignmentRefiner_init.
  rewrite (surjective_pairing
             (AlignmentRefiner_init OptState (BoolArr reference)
                (BoolArr to_align))).
  rewrite RefinerProofs.init_bool_ok. cbn [truth]. split.
  - intros ->. reflexivity.
  - intros Hb _.
    destruct (linspace_steps_pos (shape1 to_align) binsize Hb)
      as (nx & Hx & Bx).
    destruct (linspace_steps_pos (shape0 to_align) binsize Hb)
      as (ny & Hy & By).
    rewrite Hx, Hy. cbn [snd].
    eexists _, _, _, nx, ny. split; [reflexivity|].
    split; [reflexivity|].
    split; [rewrite cartesian_prod_length, !linspace_length; reflexivity|].
    split; [apply length_map|].
    split; [|split; assumption].
    apply Forall_forall. intros d Hd.
    apply list_elem_of_In, in_map_iff in Hd as (x & <- & _). reflexivity.
Qed.

(** X9.  For a non-empty moving image no larger than the bin size in both
    directions (with the default bin size 1000: up to 1000 x 1000 pixels)
    the control grid is the single point (-1, -1). *)
Theorem nonrigid_single_control_point
    (reference to_align : list (list bool)) (binsize : Z) :
  (0 < shape1 to_align)%nat -> (0 < shape0 to_align)%nat ->
  (Z.of_nat (shape1 to_align) <= binsize)%Z ->
  (Z.of_nat (shape0 to_align) <= binsize)%Z ->
  exists r : refiner OptState,
    snd (NonRigidAlignmentRefiner_init OptState (BoolArr reference)
           (BoolArr to_align) binsize) = Ok r
    /\ parameters r
       = NonRigidParams [(Fin (- (1)), Fin (- (1)))] [(Fin 0, Fin 0)].
Proof.
  intros H1 H0 B1 B0.
  assert (Hb : (0 < binsize)%Z) by lia.
  unfold NonRigidAlignmentRefiner_init.
  rewrite (surjective_pairing
             (AlignmentRefiner_init OptState (BoolArr reference)
                (BoolArr to_align))).
  rewrite RefinerProofs.init_bool_ok. cbn [truth].
  destruct (linspace_steps_pos (shape1 to_align) binsize Hb)
    as (nx & Hx & Bx).
  destruct (linspace_steps_pos (shape0 to_align) binsize Hb)
    as (ny & Hy & By).
  assert (nx = 1%nat) by nia. assert (ny = 1%nat) by nia. subst nx ny.
  rewrite Hx, Hy. cbn [snd]. eexists. split; reflexivity.
Qed.

End Grid.

Lemma nonrigid_control_grid_witness :
  (0 < 1)%Z /\ (0 < shape0 mask_full)%nat
  /\ exists (r : refiner unit) (src disp : list (npfloat * npfloat))
            (nx ny : nat),
       snd (NonRigidAlignmentRefiner_init unit (BoolArr mask_a)
              (BoolArr mask_full) 1) = Ok r
       /\ parameters r = NonRigidParams src disp
       /\ length src = (nx * ny)%nat
       /\ length disp = length src
       /\ Forall (fun d => d = (Fin 0, Fin 0)) disp
       /\ ((Z.of_nat nx - 1) * 1 < Z.of_nat (shape1 mask_full)
           <= Z.of_nat nx * 1)%Z
       /\ ((Z.of_nat ny - 1) * 1 < Z.of_nat (shape0 mask_full)
           <= Z.of_nat ny * 1)%Z.
Proof.
  assert (H : (0 < 1)%Z) by lia.
  assert (H0 : (0 < shape0 mask_full)%nat) by (vm_compute; lia).
  split; [exact H|]. split; [exact H0|].
  exact (proj2 (nonrigid_control_grid (OptState := unit) mask_a mask_full 1)
           H H0).
Defined.

Lemma nonrigid_single_control_point_witness :
  (0 < shape1 mask_full)%nat /\ (0 < shape0 mask_full)%nat
  /\ (Z.of_nat (shape1 mask_full) <= 1000)%Z
  /\ (Z.of_nat (shape0 mask_full) <= 1000)%Z
  /\ exists r : refiner unit,
       snd (NonRigidAlignmentRefiner_init unit (BoolArr mask_a)
              (BoolArr mask_full) 1000) = Ok r
       /\ parameters r
          = NonRigidParams [(Fin (- (1)), Fin (- (1)))] [(Fin 0, Fin 0)].
Proof.
  assert (H1 : (0 < shape1 mask_full)%nat) by (vm_compute; lia).
  assert (H0 : (0 < shape0 mask_full)%nat) by (vm_compute; lia).
  assert (B1 : (Z.of_nat (shape1 mask_full) <= 1000)%Z) by (vm_compute; discriminate).
  assert (B0 : (Z.of_nat (shape0 mask_full) <= 1000)%Z) by (vm_compute; discriminate).
  split; [exact H1|]. split; [exact H0|]. split; [exact B1|]. split; [exact B0|].
  exact (nonrigid_single_control_point (OptState := unit) mask_a mask_full
           1000 H1 H0 B1 B0).
Defined.

(** *** The further properties at concrete inputs *)

(** The sample refiner starts with loss 1/2 in exact arithmetic: its one
    foreground pixel matches, its three background pixels each miss by 1
    with weight 2/3. *)
Example loss_of_refiner_a :
  loss exact_arith (base refiner_a) (to_float (BoolArr mask_full))
  = Ok (Fin (Q2Qc (1 # 2))).
Proof. vm_compute. do 2 f_equal. apply Qc_is_canon. reflexivity. Qed.

(** A column of three pixels, squeezed by the non-rigid variant to three
    values in a row, is broadcast against the 3 x 1 reference to a 3 x 3
    difference: the loss sums nine terms, not three. *)
Example loss_of_squeezed_column :
  squeeze [[Fin 1]; [Fin 0]; [Fin 0]] = [[Fin 1; Fin 0; Fin 0]]
  /\ broadcast2 np_sub [[Fin 1; Fin 0; Fin 0]] [[Fin 1]; [Fin 0]; [Fin 0]]
     = Ok [[Fin 0; Fin (- (1)); Fin (- (1))];
           [Fin 1; Fin 0; Fin 0];
           [Fin 1; Fin 0; Fin 0]].
Proof.
  split; [reflexivity|]. vm_compute. do 2 f_equal;
    repeat (f_equal; try (apply Qc_is_canon; reflexivity)).
Qed.

Lemma refine_alignment_mode_error_witness :
  ("affine"%string <> "rigid"%string /\ "affine"%string <> "non-rigid"%string)
  /\ refine_alignment adam_new0 adam_step0 autograd0 warp_id exact_arith
       "alignment" adata_a "stain" "unspliced" "affine" 2 None no_kwargs
     = Raise (PreprocessingError mode_msg).
Proof.
  assert (H : "affine"%string <> "rigid"%string
              /\ "affine"%string <> "non-rigid"%string)
    by (split; discriminate).
  split; [exact H|].
  exact (proj2 (refine_alignment_mode_error adam_new0 adam_step0 autograd0
                  warp_id exact_arith "alignment" adata_a "stain" "unspliced"
                  "affine" 2 None no_kwargs) H).
Defined.

(** A layer name missing from the dataset ends the call at its lookup, and
    an exception inside the resampling ends it in the first epoch. *)
Example refine_alignment_missing_layer :
  refine_alignment adam_new0 adam_step0 autograd0 warp_id exact_arith
    "alignment" adata_a "stain" "spliced" "rigid" 2 None no_kwargs
  = Raise (KeyError "spliced")
  /\ refine_alignment adam_new0 adam_step0 autograd0 warp_id exact_arith
       "alignment" adata_a "stain" "unspliced" "rigid" 2
       (Some ["absent"]%string) no_kwargs
     = Raise (KeyError "absent")
  /\ refine_alignment adam_new0 adam_step0 autograd0 warp_raises exact_arith
       "alignment" adata_a "stain" "unspliced" "non-rigid" 2 None no_kwargs
     = Raise LibraryError.
Proof. split; [|split]; vm_compute; reflexivity. Qed.

End RefinerExtras.

(* ===================================================================== *)
(** ** Further properties of the reconstruction *)
(* ===================================================================== *)

Module ReconstructionExtras.
Import Reconstruction StackNotions NumericFacts Samples.

(** *** The superposition as a rigid motion *)

Lemma vdot_sub_row (w : vec) : forall (C : list point) (c : point),
  length C = length w ->
  vdot w (sub_row C c)
  = (fst (vdot w C) - vsum w * fst c, snd (vdot w C) - vsum w * snd c).
Proof.
  induction w as [|x w IH]; intros [|a C] c Hlen; try discriminate.
  - cbn. f_equal; ring.
  - change (sub_row (a :: C) c)
      with ((fst a - fst c, snd a - snd c) :: sub_row C c).
    rewrite !ReconstructionProofs.vdot_cons, IH by (simpl in Hlen; lia).
    cbn [fst snd vsum foldr]. fold (vsum w). f_equal; ring.
Qed.

Lemma vdot_mapply (R : M22) (w : vec) : forall C : list point,
  vdot w (map (mapply R) C) = mapply R (vdot w C).
Proof.
  induction w as [|x w IH]; intros [|a C];
    try (unfold mapply, vdot; cbn [map zip zip_with foldr fst snd];
         f_equal; ring).
  cbn [map]. rewrite !ReconstructionProofs.vdot_cons, IH.
  unfold mapply. cbn [fst snd]. f_equal; ring.
Qed.

Lemma center_centroid (w : vec) (C : list point) :
  length C = length w -> vsum w = 1 -> vdot w (center w C) = (0, 0).
Proof.
  intros Hlen Hsum. unfold center. rewrite vdot_sub_row by exact Hlen.
  rewrite Hsum. f_equal; ring.
Qed.

Lemma lookup_map {A B} (f : A -> B) (l : list A) (i : nat) (a : A) :
  l !! i = Some a -> map f l !! i = Some (f a).
Proof.
  intros H. change (map f l) with (f <$> l).
  rewrite list_lookup_fmap, H. reflexivity.
Qed.

Lemma sq_dist_translate (a b c : point) :
  sq_dist (fst a - fst c, snd a - snd c) (fst b - fst c, snd b - snd c)
  = sq_dist a b.
Proof. unfold sq_dist. cbn [fst snd]. ring. Qed.

Lemma sq_dist_orthogonal (R : M22) (u v : point) :
  orthogonal R -> sq_dist (mapply R u) (mapply R v) = sq_dist u v.
Proof.
  intros [_ H].
  assert (E00 : m00 R * m00 R + m10 R * m10 R = 1)
    by (apply (f_equal m00) in H; exact H).
  assert (E01 : m00 R * m01 R + m10 R * m11 R = 0)
    by (apply (f_equal m01) in H; exact H).
  assert (E11 : m01 R * m01 R + m11 R * m11 R = 1)
    by (apply (f_equal m11) in H; exact H).
  unfold sq_dist, mapply. cbn [fst snd].
  set (dx := fst u - fst v). set (dy := snd u - snd v).
  transitivity ((m00 R * m00 R + m10 R * m10 R) * (dx * dx)
                + (m01 R * m01 R + m11 R * m11 R) * (dy * dy)
                + (1 + 1) * (m00 R * m01 R + m10 R * m11 R) * (dx * dy)).
  - unfold dx, dy. ring.
  - rewrite E00, E01, E11. ring.
Qed.

Section Superposition.

Variable svd : M22 -> M22 * (Qc * Qc) * M22.

Lemma superpose_fst (pi : mat) (A B : list point) :
  fst (superpose svd pi A B) = center (sum_axis1 pi) A.
Proof. unfold superpose. destruct (svd _) as [[U S_] Vt]. reflexivity. Qed.

Lemma superpose_snd (pi : mat) (A B : list point) :
  snd (superpose svd pi A B)
  = map (mapply (rotation svd pi A B)) (center (sum_axis0 pi) B).
Proof.
  unfold superpose, rotation, cross_covariance, center.
  destruct (svd _) as [[U S_] Vt]. reflexivity.
Qed.

(** X10.  After the superposition of a pair under a transport plan between
    probability vectors, both coordinate tables have their weighted
    centroid at the origin: the first under the row sums of the plan, the
    second, rotated, under its column sums. *)
Theorem superpose_centroids (p q : vec) (pi : mat) (A B : list point) :
  probability_vector p -> probability_vector q -> is_coupling p q pi ->
  length A = length p -> length B = length q ->
  vdot (sum_axis1 pi) (fst (superpose svd pi A B)) = (0, 0)
  /\ vdot (sum_axis0 pi) (snd (superpose svd pi A B)) = (0, 0).
Proof.
  intros [_ Sp] [_ Sq] [_ _ _ Hrs Hcs] HA HB.
  rewrite superpose_fst, superpose_snd, vdot_mapply, Hrs, Hcs.
  rewrite !center_centroid by assumption.
  split; [reflexivity|]. unfold mapply. cbn [fst snd]. f_equal; ring.
Qed.

(** X11.  The superposition moves each slice rigidly: it keeps the number
    of points of both tables and the squared distance between any two
    points of the first; and, when the two outer factors of the SVD are
    orthogonal, the squared distance between any two points of the
    second. *)
Theorem superpose_isometry (pi : mat) (A B : list point) :
  length (fst (superpose svd pi A B)) = length A
  /\ length (snd (superpose svd pi A B)) = length B
  /\ (forall i j a a',
        A !! i = Some a -> A !! j = Some a' ->
        exists c c',
          fst (superpose svd pi A B) !! i = Some c
          /\ fst (superpose svd pi A B) !! j = Some c'
          /\ sq_dist c c' = sq_dist a a')
  /\ (orthogonal (fst (fst (svd (cross_covariance pi A B)))) ->
      orthogonal (snd (svd (cross_covariance pi A B))) ->
      forall i j b b',
        B !! i = Some b -> B !! j = Some b' ->
        exists c c',
          snd (superpose svd pi A B) !! i = Some c
          /\ snd (superpose svd pi A B) !! j = Some c'
          /\ sq_dist c c' = sq_dist b b').
Proof.
  rewrite superpose_fst, superpose_snd. unfold center, sub_row.
  split; [apply length_map|]. split; [rewrite !length_map; reflexivity|].
  split.
  - intros i j a a' Hi Hj. eexists _, _.
    split; [apply lookup_map, Hi|]. split; [apply lookup_map, Hj|].
    apply sq_dist_translate.
  - intros HU HV i j b b' Hi Hj.
    assert (HR : orthogonal (rotation svd pi A B)).
    { unfold rotation.
      destruct (svd (cross_covariance pi A B)) as [[U S_] Vt].
      apply ReconstructionProofs.orthogonal_mmul;
        apply ReconstructionProofs.orthogonal_mT; assumption. }
    eexists _, _.
    split; [apply lookup_map, lookup_map, Hi|].
    split; [apply lookup_map, lookup_map, Hj|].
    rewrite sq_dist_orthogonal by exact HR. apply sq_dist_translate.
Qed.

End Superposition.

(** *** The cost matrices *)

Section Costs.

Variable np_sqrt : Qc -> Qc.
Variable np_log : npfloat -> npfloat.

Lemma distance_cell (C : list point) (i j : nat) (a b : point) :
  C !! i = Some a -> C !! j = Some b ->
  cell (distance_matrix np_sqrt C C) i j
  = Some (np_sqrt ((fst a - fst b) * (fst a - fst b)
                   + (snd a - snd b) * (snd a - snd b))).
Proof.
  intros Hi Hj. unfold cell, distance_matrix.
  erewrite lookup_map by exact Hi. cbn [mbind option_bind].
  exact (lookup_map
           (fun d => np_sqrt ((fst a - fst d) * (fst a - fst d)
                              + (snd a - snd d) * (snd a - snd d)))
           C j b Hj).
Qed.

Lemma lookup_map_None {A B} (f : A -> B) (l : list A) (i : nat) :
  l !! i = None -> map f l !! i = None.
Proof.
  intros H. change (map f l) with (f <$> l).
  rewrite list_lookup_fmap, H. reflexivity.
Qed.

Lemma distance_cell_outside (C : list point) (i j : nat) :
  C !! i = None \/ C !! j = None ->
  cell (distance_matrix np_sqrt C C) i j = None.
Proof.
  intros H. unfold cell, distance_matrix.
  destruct (C !! i) as [a|] eqn:Hi.
  - destruct H as [H|H]; [discriminate|].
    erewrite lookup_map by exact Hi. cbn [mbind option_bind].
    apply lookup_map_None, H.
  - rewrite lookup_map_None by exact Hi. reflexivity.
Qed.

Lemma distance_matrix_square (C : list point) :
  length (distance_matrix np_sqrt C C) = length C
  /\ Forall (fun row => length row = length C) (distance_matrix np_sqrt C C).
Proof.
  split; [apply length_map|].
  apply Forall_forall. intros row Hrow.
  apply list_elem_of_In, in_map_iff in Hrow as (c & <- & _).
  apply length_map.
Qed.

(** X12.  The distance matrix of a slice is square, symmetric, and
    constant on its diagonal, where every entry is the square root of 0. *)
Theorem distance_matrix_symmetric (C : list point) :
  length (distance_matrix np_sqrt C C) = length C
  /\ Forall (fun row => length row = length C) (distance_matrix np_sqrt C C)
  /\ (forall i j, cell (distance_matrix np_sqrt C C) i j
                  = cell (distance_matrix np_sqrt C C) j i)
  /\ (forall i, (i < length C)%nat ->
                cell (distance_matrix np_sqrt C C) i i = Some (np_sqrt 0)).
Proof.
  destruct (distance_matrix_square C) as [Hlen Hrows].
  split; [exact Hlen|]. split; [exact Hrows|]. split.
  - intros i j.
    destruct (C !! i) as [a|] eqn:Hi; destruct (C !! j) as [b|] eqn:Hj.
    + rewrite (distance_cell C i j a b Hi Hj), (distance_cell C j i b a Hj Hi).
      do 2 f_equal. ring.
    + rewrite !distance_cell_outside by auto. reflexivity.
    + rewrite !distance_cell_outside by auto. reflexivity.
    + rewrite !distance_cell_outside by auto. reflexivity.
  - intros i Hi. destruct (lookup_lt_is_Some_2 C i Hi) as [a Ha].
    rewrite (distance_cell C i i a a Ha Ha). do 2 f_equal. ring.
Qed.

Lemma smooth_normalize_length (AX : list (list npfloat)) :
  length (smooth_normalize AX) = length AX.
Proof. apply length_map. Qed.

Lemma expression_cost_shape (AX BX : list (list npfloat)) :
  length (expression_cost np_log AX BX) = length AX
  /\ Forall (fun row => length row = length BX)
       (expression_cost np_log AX BX).
Proof.
  unfold expression_cost. split.
  - rewrite !length_zip_with, !length_map, !smooth_normalize_length. lia.
  - apply Forall_forall. intros row Hrow.
    apply list_elem_of_lookup in Hrow as [i Hi].
    apply lookup_zip_with_Some in Hi as (x & y & -> & _ & _).
    rewrite !length_map. apply smooth_normalize_length.
Qed.

(** X13.  For two slices with as many coordinate rows as feature rows, the
    problem handed to the solver is well shaped: DA is N1 x N1, DB is
    N2 x N2, the feature cost M is N1 x N2 and the marginals have N1 and N2
    entries, whatever the genes the slices share. *)
Theorem prepare1_shapes (slice1 slice2 : Slice) :
  length (spatial slice1) = n_obs slice1 ->
  length (spatial slice2) = n_obs slice2 ->
  let pb := prepare1 np_sqrt np_log slice1 slice2 in
  (length (pb_DA pb) = n_obs slice1
   /\ Forall (fun row => length row = n_obs slice1) (pb_DA pb))
  /\ (length (pb_DB pb) = n_obs slice2
      /\ Forall (fun row => length row = n_obs slice2) (pb_DB pb))
  /\ (length (pb_M pb) = n_obs slice1
      /\ Forall (fun row => length row = n_obs slice2) (pb_M pb))
  /\ length (pb_p pb) = n_obs slice1
  /\ length (pb_q pb) = n_obs slice2.
Proof.
  intros H1 H2 pb. subst pb. unfold prepare1.
  cbn [pb_DA pb_DB pb_M pb_p pb_q].
  rewrite !ReconstructionProofs.n_obs_subset_genes.
  cbn [subset_genes spatial X].
  pose proof (distance_matrix_square (spatial slice1)) as (A1 & A2).
  pose proof (distance_matrix_square (spatial slice2)) as (B1 & B2).
  rewrite H1 in A1, A2. rewrite H2 in B1, B2.
  destruct (expression_cost_shape
              (map (fun row =>
                      map (fun g => nth (gene_pos g (var_index slice1)) row
                                      (Fin 0))
                          (common_genes slice1 slice2)) (X slice1))
              (map (fun row =>
                      map (fun g => nth (gene_pos g (var_index slice2)) row
                                      (Fin 0))
                          (common_genes slice1 slice2)) (X slice2)))
    as [M1 M2].
  rewrite !length_map in M1, M2. fold (n_obs slice1) in M1.
  fold (n_obs slice2) in M2.
  rewrite !ReconstructionProofs.uniform_length.
  repeat split; assumption.
Qed.

Lemma smooth_normalize_no_genes (n : nat) :
  smooth_normalize (repeat [] n) = repeat [] n.
Proof.
  unfold smooth_normalize. induction n as [|n IH]; [reflexivity|].
  cbn [repeat map]. rewrite IH. reflexivity.
Qed.

(** The cost of two slices whose feature rows are empty. *)
Lemma expression_cost_no_genes (n1 n2 : nat) :
  expression_cost np_log (repeat [] n1) (repeat [] n2)
  = repeat (repeat (Fin 0) n2) n1.
Proof.
  unfold expression_cost. cbv zeta. rewrite !smooth_normalize_no_genes.
  assert (Hlog : forall n, map (map np_log) (repeat [] n) = repeat [] n).
  { induction n as [|n IH]; [reflexivity|]. cbn [repeat map].
    rewrite IH. reflexivity. }
  rewrite !Hlog.
  assert (Hd : forall n, zip_with np_dot (repeat [] n) (repeat [] n)
                         = repeat (Fin 0) n).
  { induction n as [|n IH]; [reflexivity|]. cbn [repeat zip_with].
    rewrite IH. reflexivity. }
  rewrite Hd.
  assert (Hrow : map (fun lyj : list npfloat =>
                        np_sub (Fin 0) (np_dot [] lyj)) (repeat [] n2)
                 = repeat (Fin 0) n2).
  { induction n2 as [|n IH]; [reflexivity|]. cbn [repeat map].
    rewrite IH. reflexivity. }
  induction n1 as [|n IH]; [reflexivity|].
  cbn [repeat zip_with]. rewrite IH, Hrow. reflexivity.
Qed.

(** X14.  For slices that share no gene the cost computation divides
    nothing by zero: the feature cost handed to the solver is the N1 x N2
    matrix of zeros, so that the plan rests on the coordinates alone. *)
Theorem disjoint_genes_zero_cost (slice1 slice2 : Slice) :
  (forall g, g ∈ var_index slice1 -> g ∉ var_index slice2) ->
  pb_M (prepare1 np_sqrt np_log slice1 slice2)
  = repeat (repeat (Fin 0) (n_obs slice2)) (n_obs slice1).
Proof.
  intros Hdis.
  assert (Hc : common_genes slice1 slice2 = []).
  { unfold common_genes.
    induction (var_index slice1) as [|g l IH]; [reflexivity|].
    rewrite filter_cons.
    destruct (decide (g ∈ var_index slice2)) as [Hin|_].
    - exfalso. exact (Hdis g (list_elem_of_here g l) Hin).
    - apply IH. intros g' Hg'. apply Hdis, list_elem_of_further, Hg'. }
  unfold prepare1. cbn [pb_M subset_genes X]. rewrite Hc. cbn [map].
  assert (Hrows : forall rows : list (list npfloat),
            map (fun _ : list npfloat => @nil npfloat) rows
            = repeat [] (length rows)).
  { induction rows as [|r rows IH]; [reflexivity|]. cbn [map length repeat].
    rewrite IH. reflexivity. }
  rewrite !Hrows. apply expression_cost_no_genes.
Qed.

End Costs.

(** *** Feature rows as probability distributions *)

Lemma nonneg_list (row : list npfloat) :
  Forall (fun x => exists q, x = Fin q /\ 0 <= q) row ->
  exists rs, row = map Fin rs /\ Forall (Qcle 0) rs.
Proof.
  induction 1 as [|x row (q & -> & Hq) _ (rs & -> & Hrs)].
  - exists []. split; [reflexivity | constructor].
  - exists (q :: rs). split; [reflexivity | constructor; assumption].
Qed.

Lemma np_sum_Fin (qs : list Qc) :
  np_sum (map Fin qs) = Fin (foldr Qcplus 0 qs).
Proof.
  induction qs as [|q qs IH]; [reflexivity|].
  change (np_sum (map Fin (q :: qs)))
    with (np_add (Fin q) (np_sum (map Fin qs))).
  rewrite IH. reflexivity.
Qed.

Lemma sum_positive (l : list Qc) :
  Forall (Qclt 0) l -> l <> [] -> 0 < foldr Qcplus 0 l.
Proof.
  induction 1 as [|x l Hx Hl IH]; intros Hne; [contradiction|].
  cbn [foldr]. destruct l as [|y l].
  - cbn [foldr]. replace (x + 0) with x by ring. exact Hx.
  - apply Qcplus_pos_nonneg; [exact Hx|].
    apply Qclt_le_weak, IH. discriminate.
Qed.

Lemma sum_quotients (S : Qc) (l : list Qc) :
  foldr Qcplus 0 (map (fun x => x / S) l) = foldr Qcplus 0 l / S.
Proof.
  induction l as [|x l IH]; cbn [map foldr].
  - unfold Qcdiv. ring.
  - rewrite IH. unfold Qcdiv. ring.
Qed.

Lemma smooth_row (rs : list Qc) :
  Forall (Qcle 0) rs -> rs <> [] ->
  let shifted := map (fun r => r + Q2Qc (1 # 100)) rs in
  let total := foldr Qcplus 0 shifted in
  0 < total
  /\ (let row := map (fun x => np_add x (Fin (Q2Qc (1 # 100)))) (map Fin rs) in
      map (fun x => np_divide x (np_sum row)) row)
     = map Fin (map (fun x => x / total) shifted)
  /\ Forall (Qclt 0) (map (fun x => x / total) shifted).
Proof.
  intros Hrs Hne shifted total.
  assert (Hshift : Forall (Qclt 0) shifted).
  { unfold shifted. apply Forall_forall. intros x Hx.
    apply list_elem_of_In, in_map_iff in Hx as (r & <- & Hr).
    apply Qcplus_nonneg_pos; [|reflexivity].
    rewrite Forall_forall in Hrs. apply Hrs, list_elem_of_In, Hr. }
  assert (Htot : 0 < total).
  { apply sum_positive; [exact Hshift|]. unfold shifted.
    destruct rs; [contradiction | discriminate]. }
  split; [exact Htot|]. cbv zeta.
  assert (Hrow : map (fun x => np_add x (Fin (Q2Qc (1 # 100)))) (map Fin rs)
                 = map Fin shifted).
  { unfold shifted. rewrite !map_map. reflexivity. }
  rewrite Hrow, np_sum_Fin. fold total. split.
  - rewrite !map_map. apply map_ext. intros x. cbn [np_divide].
    rewrite bool_decide_eq_false_2; [reflexivity|].
    intros E. rewrite E in Htot. exact (Qclt_not_le _ _ Htot (Qcle_refl 0)).
  - apply Forall_forall. intros y Hy.
    apply list_elem_of_In, in_map_iff in Hy as (x & <- & Hx).
    unfold Qcdiv. apply Qcmult_pos_pos; [|apply Qcinv_pos, Htot].
    rewrite Forall_forall in Hshift. apply Hshift, list_elem_of_In, Hx.
Qed.

(** X15.  Smoothing and normalisation turn every non-empty feature row of
    finite non-negative values into a probability distribution: as many
    entries, each finite and strictly positive, summing to one. *)
Theorem smooth_normalize_distribution
    (AX : list (list npfloat)) (i : nat) (row : list npfloat) :
  AX !! i = Some row -> row <> [] ->
  Forall (fun x => exists q, x = Fin q /\ 0 <= q) row ->
  exists qs : list Qc,
    smooth_normalize AX !! i = Some (map Fin qs)
    /\ length qs = length row
    /\ Forall (Qclt 0) qs
    /\ foldr Qcplus 0 qs = 1.
Proof.
  intros Hi Hne Hrow.
  destruct (nonneg_list row Hrow) as (rs & -> & Hrs).
  assert (Hne' : rs <> []) by (intros ->; apply Hne; reflexivity).
  destruct (smooth_row rs Hrs Hne') as (Htot & Heq & Hpos).
  cbv zeta in Heq.
  exists (map (fun x => x / foldr Qcplus 0
                               (map (fun r => r + Q2Qc (1 # 100)) rs))
            (map (fun r => r + Q2Qc (1 # 100)) rs)).
  split; [|split; [|split]].
  - unfold smooth_normalize. erewrite lookup_map by exact Hi.
    cbv zeta. rewrite Heq. reflexivity.
  - rewrite !length_map. reflexivity.
  - exact Hpos.
  - rewrite sum_quotients. unfold Qcdiv. apply Qcmult_inv_r.
    intros E. rewrite E in Htot. exact (Qclt_not_le _ _ Htot (Qcle_refl 0)).
Qed.

(** X16.  A spot with no counts causes no division by zero: the smoothing
    turns an all-zero row of G > 0 genes into the uniform distribution
    1/G. *)
Theorem all_zero_row_uniform (AX : list (list npfloat)) (i G : nat) :
  (0 < G)%nat -> AX !! i = Some (repeat (Fin 0) G) ->
  smooth_normalize AX !! i = Some (repeat (Fin (1 / natQc G)) G).
Proof.
  intros HG Hi. unfold smooth_normalize. erewrite lookup_map by exact Hi.
  f_equal. cbv zeta.
  assert (Hshift : map (fun x => np_add x (Fin (Q2Qc (1 # 100))))
                     (repeat (Fin 0) G)
                   = repeat (Fin (Q2Qc (1 # 100))) G).
  { clear. induction G as [|G IH]; [reflexivity|]. cbn [repeat map].
    rewrite IH. f_equal. }
  rewrite Hshift, np_sum_repeat.
  assert (Hne : natQc G * Q2Qc (1 # 100) <> 0).
  { intros E. apply Qcmult_integral in E as [E|E];
      [exact (natQc_neq0 G HG E) | discriminate E]. }
  assert (Hq : np_divide (Fin (Q2Qc (1 # 100)))
                 (Fin (natQc G * Q2Qc (1 # 100)))
               = Fin (1 / natQc G)).
  { cbn [np_divide]. rewrite bool_decide_eq_false_2 by exact Hne.
    f_equal. field. split; [exact (natQc_neq0 G HG) | discriminate]. }
  assert (Hmap : forall (f : npfloat -> npfloat) (c : npfloat) (k : nat),
            map f (repeat c k) = repeat (f c) k).
  { intros f c k. induction k as [|k IH]; [reflexivity|].
    cbn [repeat map]. rewrite IH. reflexivity. }
  rewrite Hmap, Hq. reflexivity.
Qed.

(** *** The pairwise passes over the stack *)

Lemma congruent_refl (C : list point) : congruent C C.
Proof. split; [reflexivity|]. intros i j a a' Hi Hj. eauto. Qed.

Lemma congruent_trans (C2 C1 C0 : list point) :
  congruent C2 C1 -> congruent C1 C0 -> congruent C2 C0.
Proof.
  intros [L21 H21] [L10 H10]. split; [congruence|].
  intros i j a a' Hi Hj.
  destruct (H10 i j a a' Hi Hj) as (b & b' & Hbi & Hbj & Hb).
  destruct (H21 i j b b' Hbi Hbj) as (c & c' & Hci & Hcj & Hc).
  exists c, c'. split; [exact Hci|]. split; [exact Hcj|]. congruence.
Qed.

Lemma center_congruent (w : vec) (C : list point) : congruent (center w C) C.
Proof.
  unfold center, sub_row. split; [apply length_map|].
  intros i j a a' Hi Hj. eexists _, _.
  split; [apply lookup_map, Hi|]. split; [apply lookup_map, Hj|].
  apply sq_dist_translate.
Qed.

Lemma rotate_congruent (R : M22) (C : list point) :
  orthogonal R -> congruent (map (mapply R) C) C.
Proof.
  intros HR. split; [apply length_map|].
  intros i j a a' Hi Hj. eexists _, _.
  split; [apply lookup_map, Hi|]. split; [apply lookup_map, Hj|].
  apply sq_dist_orthogonal, HR.
Qed.

Section Passes.

Variable svd : M22 -> M22 * (Qc * Qc) * M22.

(** A relation between slices that every superposition respects is
    respected, position by position, by the whole loop. *)
Lemma pairwise_passes_rel (Rel : Slice -> Slice -> Prop) :
  (forall s, Rel s s) ->
  (forall a b c, Rel a b -> Rel b c -> Rel a c) ->
  (forall pi s1 s2,
     Rel (set_spatial s1 (fst (superpose svd pi (spatial s1) (spatial s2)))) s1
     /\ Rel (set_spatial s2 (snd (superpose svd pi (spatial s1) (spatial s2))))
          s2) ->
  forall piList i (sl out : list Slice),
    pairwise_passes svd piList i sl = Ok out ->
    length out = length sl
    /\ forall k s, sl !! k = Some s ->
         exists s', out !! k = Some s' /\ Rel s' s.
Proof.
  intros Hrefl Htrans Hstep piList.
  induction piList as [|pi rest IH]; intros i sl out H.
  - injection H as <-. split; [reflexivity|]. eauto.
  - cbn [pairwise_passes] in H.
    destruct (sl !! i) as [s1|] eqn:E1; [|discriminate].
    destruct (sl !! S i) as [s2|] eqn:E2; [|discriminate].
    destruct (spatial_z s1) eqn:Z1; [discriminate|].
    destruct (spatial_z s2) eqn:Z2; [discriminate|].
    destruct (Hstep pi s1 s2) as [R1 R2].
    destruct (superpose svd pi (spatial s1) (spatial s2)) as [c1 c2].
    cbn [fst snd] in R1, R2.
    apply IH in H as [Hlen Hk]. rewrite !length_insert in Hlen.
    split; [exact Hlen|]. intros k s Hs.
    pose proof (lookup_lt_Some _ _ _ E1) as L1.
    pose proof (lookup_lt_Some _ _ _ E2) as L2.
    destruct (decide (k = S i)) as [->|N2].
    + destruct (Hk (S i) (set_spatial s2 c2)) as (s' & Hs' & Rs').
      { apply list_lookup_insert_eq. rewrite length_insert. exact L2. }
      exists s'. split; [exact Hs'|].
      assert (s = s2) by congruence. subst s. eapply Htrans; eassumption.
    + destruct (decide (k = i)) as [->|N1].
      * destruct (Hk i (set_spatial s1 c1)) as (s' & Hs' & Rs').
        { rewrite list_lookup_insert_ne by lia.
          apply list_lookup_insert_eq. exact L1. }
        exists s'. split; [exact Hs'|].
        assert (s = s1) by congruence. subst s. eapply Htrans; eassumption.
      * apply Hk. rewrite !list_lookup_insert_ne by lia. exact Hs.
Qed.

(** The loop from pair [i] on leaves the slices before position [i] and
    those behind the last pair as they are. *)
Lemma pairwise_passes_outside (piList : list mat) :
  forall i (sl out : list Slice),
    pairwise_passes svd piList i sl = Ok out ->
    forall k, (k < i \/ i + length piList < k)%nat -> out !! k = sl !! k.
Proof.
  induction piList as [|pi rest IH]; intros i sl out H k Hk.
  - injection H as <-. reflexivity.
  - cbn [pairwise_passes] in H.
    destruct (sl !! i) as [s1|] eqn:E1; [|discriminate].
    destruct (sl !! S i) as [s2|] eqn:E2; [|discriminate].
    destruct (spatial_z s1) eqn:Z1; [discriminate|].
    destruct (spatial_z s2) eqn:Z2; [discriminate|].
    destruct (superpose svd pi (spatial s1) (spatial s2)) as [c1 c2].
    cbn [length] in Hk.
    rewrite (IH _ _ _ H k) by lia.
    rewrite !list_lookup_insert_ne by lia. reflexivity.
Qed.

(** No pass changes anything but a coordinate table. *)
Lemma pairwise_passes_same (piList : list mat) (i : nat)
    (sl out : list Slice) :
  pairwise_passes svd piList i sl = Ok out ->
  length out = length sl
  /\ forall k s, sl !! k = Some s ->
       exists s', out !! k = Some s' /\ same_but_coordinates s' s.
Proof.
  intros H.
  apply (pairwise_passes_rel same_but_coordinates) with
    (piList := piList) (i := i); try exact H.
  - intros s. repeat split.
  - intros a b c (A1 & A2 & A3 & A4 & A5 & A6 & A7)
           (B1 & B2 & B3 & B4 & B5 & B6 & B7).
    repeat split; congruence.
  - intros pi s1 s2. rewrite superpose_fst, superpose_snd.
    split; repeat split; cbn [set_spatial spatial]; unfold center, sub_row;
      rewrite ?length_map; reflexivity.
Qed.

(** X17.  The pairwise passes change nothing but coordinates: they keep the
    number of slices and, position by position, the gene names, the
    feature matrix, the identifiers, the derived columns and the number of
    points of every slice; slices before the first pair or behind the last
    one are not touched at all. *)
Theorem pairwise_passes_frame (piList : list mat) (i : nat)
    (sl out : list Slice) :
  pairwise_passes svd piList i sl = Ok out ->
  length out = length sl
  /\ (forall k s, sl !! k = Some s ->
        exists s', out !! k = Some s' /\ same_but_coordinates s' s)
  /\ (forall k, (k < i \/ i + length piList < k)%nat -> out !! k = sl !! k).
Proof.
  intros H. destruct (pairwise_passes_same _ _ _ _ H) as [Hlen Hk].
  split; [exact Hlen|]. split; [exact Hk|].
  apply pairwise_passes_outside, H.
Qed.

(** Every pass moves both slices of its pair rigidly. *)
Lemma pairwise_passes_congruent (piList : list mat) (i : nat)
    (sl out : list Slice) :
  (forall H, orthogonal (fst (fst (svd H))) /\ orthogonal (snd (svd H))) ->
  pairwise_passes svd piList i sl = Ok out ->
  forall k s, sl !! k = Some s ->
    exists s', out !! k = Some s' /\ congruent (spatial s') (spatial s).
Proof.
  intros Hsvd H.
  destruct (pairwise_passes_rel
              (fun s' s => congruent (spatial s') (spatial s))) with
    (piList := piList) (i := i) (sl := sl) (out := out) as [_ Hk];
    try exact H; [| | | exact Hk].
  - intros s. apply congruent_refl.
  - intros a b c. apply congruent_trans.
  - intros pi s1 s2. rewrite superpose_fst, superpose_snd.
    cbn [set_spatial spatial]. split.
    + apply center_congruent.
    + eapply congruent_trans; [|apply center_congruent].
      apply rotate_congruent. unfold rotation.
      destruct (Hsvd (cross_covariance pi (spatial s1) (spatial s2)))
        as [HU HV].
      destruct (svd (cross_covariance pi (spatial s1) (spatial s2)))
        as [[U S_] Vt].
      apply ReconstructionProofs.orthogonal_mmul;
        apply ReconstructionProofs.orthogonal_mT; assumption.
Qed.

End Passes.

(** *** The whole stack *)

Section Stack.

Variable np_sqrt : Qc -> Qc.
Variable np_log : npfloat -> npfloat.
Variable svd : M22 -> M22 * (Qc * Qc) * M22.
Variable fused_gromov_wasserstein :
  list (list npfloat) -> mat -> mat -> vec -> vec -> string -> Qc ->
  bool -> Z -> Z -> mat.
Variable init_matrix : mat -> mat -> vec -> vec -> string -> mat * mat * mat.
Variable gwloss : mat -> mat -> mat -> mat -> Qc.
Variable gwggrad : mat -> mat -> mat -> mat -> mat.
Variable cg :
  vec -> vec -> list (list npfloat) -> Qc -> (mat -> Qc) -> (mat -> mat) ->
  mat -> Z -> Z -> mat -> mat -> mat -> bool -> mat.
Variable unicode_decimal : N -> option nat.

Local Abbreviation align := (slice_alignment np_sqrt np_log svd
                     fused_gromov_wasserstein init_matrix gwloss gwggrad cg
                     unicode_decimal).
Local Abbreviation plans := (piList_of np_sqrt np_log fused_gromov_wasserstein
                     init_matrix gwloss gwggrad cg).




(** X19.  With an SVD whose outer factors are orthogonal, [slice_alignment]
    moves every slice rigidly, however many passes touch it: each returned
    slice has as many points as it had, and the squared distance between
    any two of its points is the one in the input. *)
Theorem slice_alignment_rigid
    (slicesList : list Slice) (alpha : Qc) (numItermax numItermaxEmd : Z)
    (device : string) (out : list Slice) :
  (forall H, orthogonal (fst (fst (svd H))) /\ orthogonal (snd (svd H))) ->
  align slicesList alpha numItermax numItermaxEmd device = Ok out ->
  forall k s_in, slicesList !! k = Some s_in ->
    exists s_out,
      out !! k = Some s_out
      /\ congruent (spatial s_out) (spatial s_in).
Proof.
  intros Hsvd H k s_in Hk. unfold slice_alignment in H.
  destruct (pairwise_passes svd _ 0 slicesList) as [aligned|] eqn:Ep;
    [|discriminate].
  cbn in H.
  destruct (pairwise_passes_congruent svd _ _ _ _ Hsvd Ep k s_in Hk)
    as (s_al & Ha & Hc).
  apply ReconstructionProofs.assign_all_spec in H as [_ Hget].
  destruct (Hget k s_al Ha) as (s_out & Ho & Hz).
  apply ReconstructionProofs.assign_z_spec in Hz
    as (id0 & rest & z & _ & _ & _ & _ & _ & _ & Hsp & _).
  exists s_out. split; [exact Ho|]. rewrite Hsp. exact Hc.
Qed.

(** X20.  The first slice is never rotated: in a stack of at least two
    slices its final x and y are its input coordinates minus their
    centroid under the row sums of the first plan; a single slice keeps
    its coordinates as they are. *)
Theorem first_slice_only_translated
    (slicesList : list Slice) (alpha : Qc) (numItermax numItermaxEmd : Z)
    (device : string) (out : list Slice) (s0 : Slice) :
  align slicesList alpha numItermax numItermaxEmd device = Ok out ->
  slicesList !! 0%nat = Some s0 ->
  exists s,
    out !! 0%nat = Some s
    /\ spatial s
       = match plans slicesList alpha numItermax numItermaxEmd device with
         | [] => spatial s0
         | pi0 :: _ => center (sum_axis1 pi0) (spatial s0)
         end.
Proof.
  intros H H0. unfold slice_alignment in H.
  destruct (pairwise_passes svd _ 0 slicesList) as [aligned|] eqn:Ep;
    [|discriminate].
  cbn in H.
  apply ReconstructionProofs.assign_all_spec in H as [_ Hget].
  assert (Ha : exists s_al,
            aligned !! 0%nat = Some s_al
            /\ spatial s_al
               = match plans slicesList alpha numItermax numItermaxEmd device
                 with
                 | [] => spatial s0
                 | pi0 :: _ => center (sum_axis1 pi0) (spatial s0)
                 end).
  { destruct (plans slicesList alpha numItermax numItermaxEmd device)
      as [|pi0 rest].
    - injection Ep as <-. eauto.
    - cbn [pairwise_passes] in Ep. rewrite H0 in Ep.
      destruct (slicesList !! 1%nat) as [s1|] eqn:E1; [|discriminate].
      destruct (spatial_z s0) eqn:Z0; [discriminate|].
      destruct (spatial_z s1) eqn:Z1; [discriminate|].
      pose proof (superpose_fst svd pi0 (spatial s0) (spatial s1)) as Hf.
      destruct (superpose svd pi0 (spatial s0) (spatial s1)) as [c1 c2].
      cbn [fst] in Hf.
      rewrite (pairwise_passes_outside svd _ _ _ _ Ep 0%nat) by lia.
      rewrite list_lookup_insert_ne by lia.
      rewrite list_lookup_insert_eq by (eapply lookup_lt_Some; exact H0).
      eexists. split; [reflexivity|]. exact Hf. }
  destruct Ha as (s_al & Ha & Hsp).
  destruct (Hget 0%nat s_al Ha) as (s & Ho & Hz).
  apply ReconstructionProofs.assign_z_spec in Hz
    as (id0 & rest & z & _ & _ & _ & _ & _ & _ & Hs & _).
  exists s. split; [exact Ho|]. rewrite Hs. exact Hsp.
Qed.

End Stack.

(** *** Section indices written in decimal *)

Section Decimal.

Variable unicode_decimal : N -> option nat.
(** The ASCII digits are decimal digits, with their values. *)
Hypothesis ascii_digits :
  forall d, (d < 10)%nat -> unicode_decimal (48 + N.of_nat d) = Some d.

Ltac ascii_digit :=
  match goal with
  | |- context [unicode_decimal ?c] =>
      let d := eval vm_compute in (N.to_nat (c - 48)) in
      change c with (48 + N.of_nat d)%N;
      rewrite (ascii_digits d) by lia
  end.

Lemma string_of_uint_digits (d : uint) :
  all_digits unicode_decimal (str (NilEmpty.string_of_uint d)) = true.
Proof.
  unfold all_digits, str.
  induction d as [|d IH|d IH|d IH|d IH|d IH|d IH|d IH|d IH|d IH|d IH];
    [reflexivity|..];
    cbn [NilEmpty.string_of_uint list_ascii_of_string map forallb];
    rewrite IH; unfold is_digit;
    match goal with
    | |- context [N_of_ascii ?a] =>
        let c := eval vm_compute in (N_of_ascii a) in
        change (N_of_ascii a) with c
    end; ascii_digit; reflexivity.
Qed.

Lemma fold_digits_uint (d : uint) : forall acc : nat,
  fold_left (fun acc c => (10 * acc + default 0 (unicode_decimal c))%nat)
    (str (NilEmpty.string_of_uint d)) acc
  = Nat.of_uint_acc d acc.
Proof.
  unfold str.
  induction d as [|d IH|d IH|d IH|d IH|d IH|d IH|d IH|d IH|d IH|d IH];
    intros acc; [reflexivity|..];
    cbn [NilEmpty.string_of_uint list_ascii_of_string map fold_left
         Nat.of_uint_acc];
    rewrite IH, Nat.tail_mul_spec; f_equal;
    match goal with
    | |- context [N_of_ascii ?a] =>
        let c := eval vm_compute in (N_of_ascii a) in
        change (N_of_ascii a) with c
    end; ascii_digit; cbn [default]; unfold id; lia.
Qed.

Lemma decimal_value (n : nat) :
  digits_value unicode_decimal (decimal n) = natQc n.
Proof.
  unfold digits_value, decimal. rewrite fold_digits_uint.
  change (Nat.of_uint_acc (Nat.to_uint n) 0) with (Nat.of_uint (Nat.to_uint n)).
  rewrite Unsigned.of_to. reflexivity.
Qed.

Lemma decimal_nonempty (n : nat) : decimal n <> [].
Proof.
  unfold decimal, str. intros E.
  assert (Hn : Nat.to_uint n <> Nil).
  { rewrite <- (Unsigned.of_to n) at 1. rewrite Unsigned.to_of.
    apply unorm_nonnil. }
  destruct (Nat.to_uint n); try discriminate. contradiction.
Qed.

(** No pattern match starts inside a prefix without underscore. *)
Lemma findall_skips_prefix (pre rest : pystr) :
  Forall (fun c => c <> 95%N) pre ->
  findall_S_first unicode_decimal (pre ++ rest)
  = findall_S_first unicode_decimal rest.
Proof.
  induction 1 as [|c pre Hc _ IH]; [reflexivity|].
  cbn [app findall_S_first].
  assert (Hm : match_S_here unicode_decimal (c :: pre ++ rest) = None).
  { unfold match_S_here. destruct (pre ++ rest) as [|c1 t]; [reflexivity|].
    rewrite bool_decide_eq_false_2 by (intros [E _]; contradiction).
    reflexivity. }
  rewrite Hm. exact IH.
Qed.

(** X21.  Writing and reading a section index agree: an identifier made of
    a prefix without underscore, [_S], the decimal digits of [n] and a
    rest that is empty or begins with a character that is not a decimal
    digit yields the group [str(n)], whose value is [n]. *)
Theorem section_index_round_trip (pre post : pystr) (n : nat) :
  Forall (fun c => c <> 95%N) pre ->
  (post = []
   \/ exists c rest, post = c :: rest /\ unicode_decimal c = None) ->
  findall_S_first unicode_decimal (pre ++ str "_S" ++ decimal n ++ post)
  = Ok (decimal n)
  /\ digits_value unicode_decimal (decimal n) = natQc n.
Proof.
  intros Hpre Hpost. split; [|apply decimal_value].
  assert (Hlead : no_leading_digit unicode_decimal post = true).
  { destruct Hpost as [->|(c & rest & -> & Hc)]; [reflexivity|].
    cbn [no_leading_digit]. unfold is_digit. rewrite Hc. reflexivity. }
  rewrite findall_skips_prefix by exact Hpre.
  assert (Hm : match_S_here unicode_decimal (str "_S" ++ decimal n ++ post)
               = Some (decimal n)).
  { apply ReconstructionProofs.match_S_here_spec. exists post.
    split; [reflexivity|]. split; [apply decimal_nonempty|].
    split; [apply string_of_uint_digits | exact Hlead]. }
  rewrite ReconstructionProofs.str_S in *.
  cbn [findall_S_first]. rewrite Hm. reflexivity.
Qed.

End Decimal.

Lemma section_index_round_trip_witness :
  (forall d, (d < 10)%nat -> digits_a (48 + N.of_nat d) = Some d)
  /\ Forall (fun c => c <> 95%N) (str "E16.5")
  /\ (str "_rep2" = []
      \/ exists c rest, str "_rep2" = c :: rest /\ digits_a c = None)
  /\ findall_S_first digits_a (str "E16.5" ++ str "_S" ++ decimal 12
                                ++ str "_rep2")
     = Ok (decimal 12)
  /\ digits_value digits_a (decimal 12) = natQc 12.
Proof.
  assert (H0 : forall d, (d < 10)%nat ->
                 digits_a (48 + N.of_nat d) = Some d).
  { intros d Hd. unfold digits_a.
    rewrite bool_decide_eq_true_2 by lia. f_equal. lia. }
  assert (H1 : Forall (fun c => c <> 95%N) (str "E16.5"))
    by (repeat constructor; discriminate).
  assert (H2 : str "_rep2" = []
               \/ exists c rest,
                    str "_rep2" = c :: rest /\ digits_a c = None).
  { right. exists 95%N, (str "rep2"). split; reflexivity. }
  split; [exact H0|]. split; [exact H1|]. split; [exact H2|].
  exact (section_index_round_trip digits_a H0 (str "E16.5") (str "_rep2") 12
           H1 H2).
Defined.

(** *** The properties on the sample inputs *)

(** Equality of written-out rationals, entry by entry. *)
Ltac qc_equal :=
  first
    [ apply Qc_is_canon; vm_compute; reflexivity
    | vm_compute;
      repeat (apply f_equal2; [apply Qc_is_canon; vm_compute; reflexivity|]);
      reflexivity ].

(** Entry-wise comparisons over a list or a matrix written out. *)
Ltac all_nonneg :=
  repeat lazymatch goal with
    | |- Forall _ [] => apply Forall_nil_2
    | |- Forall _ (_ :: _) => apply Forall_cons_2
    | |- _ => vm_compute; discriminate
    end.

Lemma superpose_centroids_witness :
  probability_vector (uniform 4) /\ probability_vector (uniform 4)
  /\ is_coupling (uniform 4) (uniform 4) pi_diag
  /\ length cross_a = length (uniform 4)
  /\ length cross_b = length (uniform 4)
  /\ vdot (sum_axis1 pi_diag) (fst (superpose svd_diag pi_diag cross_a cross_b))
     = (0, 0)
  /\ vdot (sum_axis0 pi_diag) (snd (superpose svd_diag pi_diag cross_a cross_b))
     = (0, 0).
Proof.
  assert (Hp : probability_vector (uniform 4)).
  { split; [vm_compute; all_nonneg | qc_equal]. }
  assert (Hc : is_coupling (uniform 4) (uniform 4) pi_diag).
  { constructor;
      [reflexivity | repeat constructor
      | vm_compute; all_nonneg | qc_equal | qc_equal]. }
  assert (HA : length cross_a = length (uniform 4)) by reflexivity.
  assert (HB : length cross_b = length (uniform 4)) by reflexivity.
  split; [exact Hp|]. split; [exact Hp|]. split; [exact Hc|].
  split; [exact HA|]. split; [exact HB|].
  exact (superpose_centroids svd_diag (uniform 4) (uniform 4) pi_diag
           cross_a cross_b Hp Hp Hc HA HB).
Defined.

Lemma superpose_isometry_witness :
  orthogonal (fst (fst (svd_diag (cross_covariance pi_diag cross_a cross_b))))
  /\ orthogonal (snd (svd_diag (cross_covariance pi_diag cross_a cross_b)))
  /\ cross_b !! 0%nat = Some (2, 0) /\ cross_b !! 2%nat = Some (0, - (1))
  /\ exists c c',
       snd (superpose svd_diag pi_diag cross_a cross_b) !! 0%nat = Some c
       /\ snd (superpose svd_diag pi_diag cross_a cross_b) !! 2%nat = Some c'
       /\ sq_dist c c' = sq_dist (2, 0) (0, - (1)).
Proof.
  assert (HU : orthogonal
                 (fst (fst (svd_diag (cross_covariance pi_diag cross_a cross_b)))))
    by (split; vm_compute; reflexivity).
  assert (HV : orthogonal
                 (snd (svd_diag (cross_covariance pi_diag cross_a cross_b))))
    by (split; vm_compute; reflexivity).
  assert (H0 : cross_b !! 0%nat = Some (2, 0)) by reflexivity.
  assert (H2 : cross_b !! 2%nat = Some (0, - (1))) by reflexivity.
  split; [exact HU|]. split; [exact HV|]. split; [exact H0|].
  split; [exact H2|].
  exact (proj2 (proj2 (proj2
           (superpose_isometry svd_diag pi_diag cross_a cross_b)))
           HU HV 0%nat 2%nat (2, 0) (0, - (1)) H0 H2).
Defined.

Lemma prepare1_shapes_witness :
  length (spatial slice_1) = n_obs slice_1
  /\ length (spatial slice_2) = n_obs slice_2
  /\ (length (pb_DA (prepare1 sqrt0 log0 slice_1 slice_2)) = n_obs slice_1
      /\ Forall (fun row => length row = n_obs slice_1)
           (pb_DA (prepare1 sqrt0 log0 slice_1 slice_2)))
  /\ (length (pb_DB (prepare1 sqrt0 log0 slice_1 slice_2)) = n_obs slice_2
      /\ Forall (fun row => length row = n_obs slice_2)
           (pb_DB (prepare1 sqrt0 log0 slice_1 slice_2)))
  /\ (length (pb_M (prepare1 sqrt0 log0 slice_1 slice_2)) = n_obs slice_1
      /\ Forall (fun row => length row = n_obs slice_2)
           (pb_M (prepare1 sqrt0 log0 slice_1 slice_2)))
  /\ length (pb_p (prepare1 sqrt0 log0 slice_1 slice_2)) = n_obs slice_1
  /\ length (pb_q (prepare1 sqrt0 log0 slice_1 slice_2)) = n_obs slice_2.
Proof.
  assert (H1 : length (spatial slice_1) = n_obs slice_1) by reflexivity.
  assert (H2 : length (spatial slice_2) = n_obs slice_2) by reflexivity.
  split; [exact H1|]. split; [exact H2|].
  exact (prepare1_shapes sqrt0 log0 slice_1 slice_2 H1 H2).
Defined.

Lemma disjoint_genes_zero_cost_witness :
  (forall g, g ∈ var_index slice_1 -> g ∉ var_index slice_other)
  /\ pb_M (prepare1 sqrt0 log0 slice_1 slice_other)
     = repeat (repeat (Fin 0) (n_obs slice_other)) (n_obs slice_1).
Proof.
  assert (H : forall g, g ∈ var_index slice_1 -> g ∉ var_index slice_other).
  { intros g Hg. apply (bool_decide_unpack (g ∉ var_index slice_other)).
    apply list_elem_of_In in Hg.
    destruct Hg as [<-|[<-|[]]]; vm_compute; reflexivity. }
  split; [exact H|].
  exact (disjoint_genes_zero_cost sqrt0 log0 slice_1 slice_other H).
Defined.

Lemma smooth_normalize_distribution_witness :
  counts_a !! 1%nat = Some [Fin (Q2Qc 3); Fin 1]
  /\ [Fin (Q2Qc 3); Fin 1] <> []
  /\ Forall (fun x => exists q, x = Fin q /\ 0 <= q) [Fin (Q2Qc 3); Fin 1]
  /\ exists qs : list Qc,
       smooth_normalize counts_a !! 1%nat = Some (map Fin qs)
       /\ length qs = length [Fin (Q2Qc 3); Fin 1]
       /\ Forall (Qclt 0) qs
       /\ foldr Qcplus 0 qs = 1.
Proof.
  assert (H1 : counts_a !! 1%nat = Some [Fin (Q2Qc 3); Fin 1]) by reflexivity.
  assert (H2 : [Fin (Q2Qc 3); Fin 1] <> []) by discriminate.
  assert (H3 : Forall (fun x => exists q, x = Fin q /\ 0 <= q)
                 [Fin (Q2Qc 3); Fin 1]).
  { repeat constructor; eexists; (split; [reflexivity|]);
      vm_compute; discriminate. }
  split; [exact H1|]. split; [exact H2|]. split; [exact H3|].
  exact (smooth_normalize_distribution counts_a 1 [Fin (Q2Qc 3); Fin 1] H1 H2 H3).
Defined.

Lemma all_zero_row_uniform_witness :
  (0 < 2)%nat
  /\ counts_a !! 0%nat = Some (repeat (Fin 0) 2)
  /\ smooth_normalize counts_a !! 0%nat
     = Some (repeat (Fin (1 / natQc 2)) 2).
Proof.
  assert (H1 : (0 < 2)%nat) by lia.
  assert (H2 : counts_a !! 0%nat = Some (repeat (Fin 0) 2)) by reflexivity.
  split; [exact H1|]. split; [exact H2|].
  exact (all_zero_row_uniform counts_a 0 2 H1 H2).
Defined.

Lemma pairwise_passes_frame_witness :
  pairwise_passes svd_diag [pi_diag] 1 stack_a
  = Ok [slice_1; slice_2; set_spatial slice_3 cross_b]
  /\ length [slice_1; slice_2; set_spatial slice_3 cross_b] = length stack_a
  /\ (forall k s, stack_a !! k = Some s ->
        exists s',
          [slice_1; slice_2; set_spatial slice_3 cross_b] !! k = Some s'
          /\ same_but_coordinates s' s)
  /\ (forall k, (k < 1 \/ 1 + length [pi_diag] < k)%nat ->
        [slice_1; slice_2; set_spatial slice_3 cross_b] !! k = stack_a !! k).
Proof.
  assert (H : pairwise_passes svd_diag [pi_diag] 1 stack_a
              = Ok [slice_1; slice_2; set_spatial slice_3 cross_b]).
  { vm_compute. reflexivity. }
  split; [exact H|].
  exact (pairwise_passes_frame svd_diag [pi_diag] 1 stack_a _ H).
Defined.

Lemma slice_alignment_rigid_witness :
  (forall H, orthogonal (fst (fst (svd_diag H)))
             /\ orthogonal (snd (svd_diag H)))
  /\ slice_alignment sqrt0 log0 svd_diag fgw0 init_matrix0 gwloss0 gwggrad0
       cg0 digits_a stack_a alpha_a 200 100000 "cpu" = Ok stack_a'
  /\ stack_a !! 1%nat = Some slice_2
  /\ exists s_out,
       stack_a' !! 1%nat = Some s_out
       /\ congruent (spatial s_out) (spatial slice_2).
Proof.
  assert (Hsvd : forall H, orthogonal (fst (fst (svd_diag H)))
                           /\ orthogonal (snd (svd_diag H))).
  { intros H. split; split; vm_compute; reflexivity. }
  assert (Ha : slice_alignment sqrt0 log0 svd_diag fgw0 init_matrix0 gwloss0
                 gwggrad0 cg0 digits_a stack_a alpha_a 200 100000 "cpu"
               = Ok stack_a')
    by (vm_compute; reflexivity).
  assert (H1 : stack_a !! 1%nat = Some slice_2) by reflexivity.
  split; [exact Hsvd|]. split; [exact Ha|]. split; [exact H1|].
  exact (slice_alignment_rigid sqrt0 log0 svd_diag fgw0 init_matrix0 gwloss0
           gwggrad0 cg0 digits_a stack_a alpha_a 200 100000 "cpu" stack_a'
           Hsvd Ha 1%nat slice_2 H1).
Defined.

Lemma first_slice_only_translated_witness :
  slice_alignment sqrt0 log0 svd_diag fgw0 init_matrix0 gwloss0 gwggrad0
    cg0 digits_a stack_a alpha_a 200 100000 "cpu" = Ok stack_a'
  /\ stack_a !! 0%nat = Some slice_1
  /\ exists s,
       stack_a' !! 0%nat = Some s
       /\ spatial s
          = match piList_of sqrt0 log0 fgw0 init_matrix0 gwloss0 gwggrad0 cg0
                    stack_a alpha_a 200 100000 "cpu" with
            | [] => spatial slice_1
            | pi0 :: _ => center (sum_axis1 pi0) (spatial slice_1)
            end.
Proof.
  assert (Ha : slice_alignment sqrt0 log0 svd_diag fgw0 init_matrix0 gwloss0
                 gwggrad0 cg0 digits_a stack_a alpha_a 200 100000 "cpu"
               = Ok stack_a')
    by (vm_compute; reflexivity).
  assert (H0 : stack_a !! 0%nat = Some slice_1) by reflexivity.
  split; [exact Ha|]. split; [exact H0|].
  exact (first_slice_only_translated sqrt0 log0 svd_diag fgw0 init_matrix0
           gwloss0 gwggrad0 cg0 digits_a stack_a alpha_a 200 100000 "cpu" stack_a'
           slice_1 Ha H0).
Defined.

End ReconstructionExtras.
